(** * house-paint-app: the recolouring pipeline of [app.js]

    A shallow embedding of the colour-space converters, the per-pixel
    recolouring loop and the session handlers of [app.js], with the
    properties claimed about them.

    JavaScript Numbers are IEEE 754 binary64 values: they are modelled by
    Rocq's primitive [float]s, whose operations are specified bit for bit
    by [SpecFloat].  The pixel stores are [Uint8ClampedArray]s: they are
    modelled by lists of [Byte.byte].  The browser (image decoding,
    canvas drawing) is a parameter of the page model.

    Properties of the converters over all colours are obtained in two
    ways: by evaluating the code on all the 256^3 colours, and, where the
    inputs are too many for that, by bounding the rounding error of each
    operation with the real value of the Numbers. *)

From Stdlib Require Import ZArith Lia Bool String Ascii.
From Stdlib.Strings Require Import Byte.
From Stdlib Require Import Uint63 Floats.
From Stdlib Require Import Reals Lra Psatz.
From stdpp Require Import base list.

Local Open Scope Z_scope.

(** ** JavaScript numbers and built-ins *)

Module Js.

Local Open Scope float_scope.

(** An integer as a Number (exact below [2^53] in magnitude). *)
Definition ofZ (z : Z) : float :=
  if (z <? 0)%Z then - of_uint63 (Uint63.of_Z (- z))
  else of_uint63 (Uint63.of_Z z).

(** A mathematical integer rounded to the nearest Number. *)
Definition ofZ_nearest (z : Z) : float :=
  SF2Prim (binary_normalize prec emax z 0 false).

(** [Math.max]: NaN if any argument is NaN; [+0] is larger than [-0]. *)
Definition max_step (highest x : float) : float :=
  if is_zero x && negb (get_sign x) && is_zero highest && get_sign highest
  then x
  else if highest <? x then x else highest.

Definition Math_max (xs : list float) : float :=
  if existsb is_nan xs then nan else fold_left max_step xs neg_infinity.

(** [Math.min]: NaN if any argument is NaN; [-0] is smaller than [+0]. *)
Definition min_step (lowest x : float) : float :=
  if is_zero x && get_sign x && is_zero lowest && negb (get_sign lowest)
  then x
  else if x <? lowest then x else lowest.

Definition Math_min (xs : list float) : float :=
  if existsb is_nan xs then nan else fold_left min_step xs infinity.

(** [floor (v + 1/2)] for the dyadic [v = m * 2^e], computed on integers. *)
Definition round_half_up (m e : Z) : Z :=
  match e with
  | Zneg k => Z.shiftr (2 * m + Z.shiftl 1 (Zpos k)) (Zpos k + 1)
  | _ => Z.shiftl m e
  end.

(** [Math.round]: the integral Number closest to [x], ties towards
    [+Infinity]; NaN, infinities, zeros and integral values are returned
    as they are; values in [(0, 0.5)] give [+0], values in [[-0.5, 0)]
    give [-0]. *)
Definition Math_round (x : float) : float :=
  match Prim2SF x with
  | S754_finite s m (Zneg k) =>
      let n := round_half_up (if s then Zneg m else Zpos m) (Zneg k) in
      if (n =? 0)%Z then (if s then neg_zero else zero) else ofZ n
  | _ => x
  end.

(** Round the positive dyadic [m * 2^e] to the nearest integer, ties to
    the even one. *)
Definition round_half_even (m : positive) (e : Z) : Z :=
  match e with
  | Zneg k =>
      let f := Z.shiftr (Zpos m) (Zpos k) in
      let rest := Z.land (Zpos m) (Z.ones (Zpos k)) in
      match (2 * rest ?= Z.shiftl 1 (Zpos k))%Z with
      | Lt => f
      | Gt => (f + 1)%Z
      | Eq => if Z.even f then f else (f + 1)%Z
      end
  | _ => Z.shiftl (Zpos m) e
  end.

(** [ToUint8Clamp], the conversion applied by a store into a
    [Uint8ClampedArray]: NaN gives 0, the value is clamped to [[0,255]]
    and rounded to the nearest integer, ties to even. *)
Definition ToUint8Clamp (x : float) : Z :=
  if is_nan x then 0%Z
  else if x <=? 0 then 0%Z
  else if 255 <=? x then 255%Z
  else match Prim2SF x with
       | S754_finite _ m e => round_half_even m e
       | _ => 0%Z
       end.

(** [ToInt32], the conversion applied to the operands of [>>] and [&]. *)
Definition ToInt32 (x : float) : Z :=
  match Prim2SF x with
  | S754_finite s m e =>
      let mag := match e with
                 | Zneg k => Z.shiftr (Zpos m) (Zpos k)
                 | _ => Z.shiftl (Zpos m) e
                 end in
      let n := ((if s then - mag else mag) mod 2 ^ 32)%Z in
      if (2 ^ 31 <=? n)%Z then (n - 2 ^ 32)%Z else n
  | _ => 0%Z
  end.

End Js.

(** ** Typed arrays of clamped bytes *)

Definition byte_of_Z (z : Z) : byte :=
  match Byte.of_N (Z.to_N z) with
  | Some b => b
  | None => x00
  end.

Definition Z_of_byte (b : byte) : Z := Z.of_N (Byte.to_N b).

(** Reading an element as a Number; an index past the end reads
    [undefined], which every use in [app.js] converts to NaN. *)
Definition readNum (a : list byte) (i : nat) : float :=
  match a !! i with
  | Some b => Js.ofZ (Z_of_byte b)
  | None => nan
  end.

(** The byte a [Uint8ClampedArray] keeps when a Number is stored. *)
Definition storeNum (x : float) : byte := byte_of_Z (Js.ToUint8Clamp x).

(** ** Helpers of [app.js] *)

Section Helpers.

Local Open Scope float_scope.

(** [lerp(start, end, t)] *)
Definition lerp (start end_ t : float) : float :=
  start * (1 - t) + end_ * t.

(** [rgbToHsl(r, g, b)] *)
Definition rgbToHsl (r g b : float) : float * float * float :=
  let r := r / 255 in
  let g := g / 255 in
  let b := b / 255 in
  let max := Js.Math_max [r; g; b] in
  let min := Js.Math_min [r; g; b] in
  let l := (max + min) / 2 in
  if max =? min then (0, 0, l)
  else
    let d := max - min in
    let s := if 0.5 <? l then d / (2 - max - min) else d / (max + min) in
    let h :=
      if max =? r then (g - b) / d + (if g <? b then 6 else 0)
      else if max =? g then (b - r) / d + 2
      else if max =? b then (r - g) / d + 4
      else nan in
    (h / 6, s, l).

(** The inner [hue2rgb(p, q, t)] of [hslToRgb]. *)
Definition hue2rgb (p q t : float) : float :=
  let t := if t <? 0 then t + 1 else t in
  let t := if 1 <? t then t - 1 else t in
  if t <? 1 / 6 then p + (q - p) * 6 * t
  else if t <? 1 / 2 then q
  else if t <? 2 / 3 then p + (q - p) * (2 / 3 - t) * 6
  else p.

(** The channels [r, g, b] of [hslToRgb] before the final rounding. *)
Definition hslChannels (h s l : float) : float * float * float :=
  if s =? 0 then (l, l, l)
  else
    let q := if l <? 0.5 then l * (1 + s) else l + s - l * s in
    let p := 2 * l - q in
    (hue2rgb p q (h + 1 / 3), hue2rgb p q h, hue2rgb p q (h - 1 / 3)).

(** [hslToRgb(h, s, l)] *)
Definition hslToRgb (h s l : float) : float * float * float :=
  let '(r, g, b) := hslChannels h s l in
  (Js.Math_round (r * 255), Js.Math_round (g * 255), Js.Math_round (b * 255)).

End Helpers.

(** ** [hexToRgb]: [parseInt(hex.slice(1), 16)] and the bit operations

    Strings are sequences of code units below 256. *)

Section HexToRgb.

Definition hexDigit (c : ascii) : option Z :=
  let n := Z.of_N (N_of_ascii c) in
  if (48 <=? n) && (n <=? 57) then Some (n - 48)
  else if (97 <=? n) && (n <=? 102) then Some (n - 87)
  else if (65 <=? n) && (n <=? 70) then Some (n - 55)
  else None.

(** The value of the longest prefix of hexadecimal digits, [None] when
    the prefix is empty. *)
Fixpoint hexPrefix (acc : option Z) (s : string) : option Z :=
  match s with
  | String c s' =>
      match hexDigit c with
      | Some d =>
          hexPrefix (Some (16 * (match acc with Some a => a | None => 0 end) + d)) s'
      | None => acc
      end
  | EmptyString => acc
  end.

Definition isWhiteSpace (c : ascii) : bool :=
  let n := Z.of_N (N_of_ascii c) in
  ((9 <=? n) && (n <=? 13)) || (n =? 32) || (n =? 160).

Fixpoint trimStart (s : string) : string :=
  match s with
  | String c s' => if isWhiteSpace c then trimStart s' else s
  | EmptyString => s
  end.

Definition stripSign (s : string) : bool * string :=
  match s with
  | String "-"%char s' => (true, s')
  | String "+"%char s' => (false, s')
  | _ => (false, s)
  end.

Definition strip0x (s : string) : string :=
  match s with
  | String "0"%char (String "x"%char s') => s'
  | String "0"%char (String "X"%char s') => s'
  | _ => s
  end.

(** [parseInt(s, 16)] *)
Definition parseInt16 (s : string) : float :=
  let '(neg, s1) := stripSign (trimStart s) in
  match hexPrefix None (strip0x s1) with
  | None => nan
  | Some n => let x := Js.ofZ_nearest n in if neg then (- x)%float else x
  end.

(** [hex.slice(1)] *)
Definition slice1 (s : string) : string :=
  match s with
  | String _ s' => s'
  | EmptyString => EmptyString
  end.

(** [hexToRgb(hex)] *)
Definition hexToRgb (hex : string) : Z * Z * Z :=
  let bigint := Js.ToInt32 (parseInt16 (slice1 hex)) in
  (Z.land (Z.shiftr bigint 16) 255,
   Z.land (Z.shiftr bigint 8) 255,
   Z.land bigint 255).

End HexToRgb.

(** ** The recolouring loop of [applyColor] *)

Section Loop.

Local Open Scope float_scope.

(** One iteration of the [for] loop, at byte offset [i]. *)
Definition applyColor_body (hT sT : float) (maskData : list byte)
    (data : list byte) (i : nat) : list byte :=
  let maskAlpha := readNum maskData (i + 3) in
  if 0 <? maskAlpha then
    let r := readNum data i in
    let g := readNum data (i + 1) in
    let b := readNum data (i + 2) in
    let '(_, _, l) := rgbToHsl r g b in
    let alphaFactor := maskAlpha / 255 in
    let '(newR, newG, newB) := hslToRgb hT sT l in
    let data := <[i := storeNum (lerp r newR alphaFactor)]> data in
    let data := <[(i + 1)%nat := storeNum (lerp g newG alphaFactor)]> data in
    <[(i + 2)%nat := storeNum (lerp b newB alphaFactor)]> data
  else data.

(** The offsets [0, 4, 8, ...] below [len] that the loop visits. *)
Definition pixelOffsets (len : nat) : list nat :=
  map (fun k => (4 * k)%nat) (seq 0 ((len + 3) / 4)).

(** [for (let i = 0; i < data.length; i += 4) { ... }] *)
Definition applyColor_loop (hT sT : float) (maskData data : list byte)
    : list byte :=
  fold_left (applyColor_body hT sT maskData) (pixelOffsets (length data)) data.

(** The target colour as [applyColor] derives it from the picker's value. *)
Definition targetHsl (hex : string) : float * float * float :=
  let '(rT, gT, bT) := hexToRgb hex in
  rgbToHsl (Js.ofZ rT) (Js.ofZ gT) (Js.ofZ bT).

(** The pixels [applyColor] hands to [putImageData], from the pixels and
    the mask it read with [getImageData]. *)
Definition recolor (hex : string) (maskData data : list byte) : list byte :=
  let '(hT, sT, _) := targetHsl hex in
  applyColor_loop hT sT maskData data.

(** The four channels of pixel [k] of a buffer. *)
Definition pixelAt (a : list byte) (k : nat)
    : option (byte * byte * byte * byte) :=
  match a !! (4 * k)%nat, a !! (4 * k + 1)%nat,
        a !! (4 * k + 2)%nat, a !! (4 * k + 3)%nat with
  | Some r, Some g, Some b, Some al => Some (r, g, b, al)
  | _, _, _, _ => None
  end.

Definition alphaAt (a : list byte) (k : nat) : option byte :=
  a !! (4 * k + 3)%nat.

End Loop.

(** ** The page: module-level state, DOM elements and handlers *)

Local Open Scope string_scope.
Local Open Scope Z_scope.

(** JavaScript exceptions and rejection values.  [app.js] only builds
    [Error] objects itself; the others come from the platform, and the
    wording of their messages is the engine's (Chromium's is used where
    the model has to produce one). *)
Inductive JsError :=
  | Error (message : string)
  | TypeError (message : string)
  | SyntaxError (message : string)
  | DOMException (name message : string)
  | RejectedEvent.

(** [err.message] inside a string concatenation; the [Event] an image
    rejects with has no [message]. *)
Definition errMessage (e : JsError) : string :=
  match e with
  | Error m => m
  | TypeError m => m
  | SyntaxError m => m
  | DOMException _ m => m
  | RejectedEvent => "undefined"
  end.

(** The two errors the mask request throws, under the names the
    specification gives them. *)
Definition ServiceError (statusText : string) : JsError :=
  Error ("API Error: " ++ statusText).

Definition InvalidResponse : JsError :=
  Error "Invalid response: No mask data received".

Inductive StatusType := normal | error | success.

(** A canvas element: its size and its RGBA bitmap. *)
Record Canvas := mkCanvas {
  cwidth : Z;
  cheight : Z;
  bitmap : list byte
}.

(** What [response.json()] resolves to: any JSON value.  A number comes
    with the text [String] makes of it. *)
#[warnings="-register-all"]
Inductive Json :=
  | JNull
  | JBool (b : bool)
  | JNumber (x : float) (text : string)
  | JString (s : string)
  | JArray (items : list Json)
  | JObject (fields : list (string * Json)).

(** [ToBoolean]: [null], [false], the zeros, NaN and the empty string
    are falsy. *)
Definition toBoolean (v : Json) : bool :=
  match v with
  | JNull => false
  | JBool b => b
  | JNumber x _ => negb (is_zero x || is_nan x)
  | JString s => if string_dec s EmptyString then false else true
  | JArray _ => true
  | JObject _ => true
  end.

(** [ToString], as the [+] of a string and a value applies it: an array
    joins its elements with commas, [null] among them as nothing. *)
Fixpoint toString (v : Json) : string :=
  match v with
  | JNull => "null"
  | JBool true => "true"
  | JBool false => "false"
  | JNumber _ text => text
  | JString s => s
  | JArray items =>
      (fix join (l : list Json) : string :=
         match l with
         | [] => EmptyString
         | x :: l' =>
             (match x with JNull => EmptyString | _ => toString x end)
             ++ match l' with [] => EmptyString | _ => "," ++ join l' end
         end) items
  | JObject _ => "[object Object]"
  end.

(** The value of a key in a parsed object: of two equal keys the later
    one counts. *)
Fixpoint lookupKey (key : string) (fields : list (string * Json)) : option Json :=
  match fields with
  | [] => None
  | (k, v) :: rest =>
      match lookupKey key rest with
      | Some v' => Some v'
      | None => if string_dec k key then Some v else None
      end
  end.

(** [data.maskPngBase64]: reading a property of [null] throws, an
    object has the property or not ([None] for [undefined]), and the
    other values do not have it. *)
Definition maskPngBase64 (data : Json) : JsError + option Json :=
  match data with
  | JNull =>
      inl (TypeError "Cannot read properties of null (reading 'maskPngBase64')")
  | JObject fields => inr (lookupKey "maskPngBase64" fields)
  | _ => inr None
  end.

(** What [fetch] and [response.json()] produce. *)
Record Response := mkResponse {
  ok : bool;
  statusText : string;
  json : JsError + Json
}.

Inductive FetchResult :=
  | NetworkFailure (e : JsError)
  | Responded (r : Response).

(** [!data.maskPngBase64]: [undefined] ([None]) and the falsy values. *)
Definition falsy (v : option Json) : bool :=
  match v with
  | None => true
  | Some j => negb (toBoolean j)
  end.

(** A value that may be [undefined], as [+] appends it to a string. *)
Definition stringOf (v : option Json) : string :=
  match v with
  | None => "undefined"
  | Some j => toString j
  end.

(** [ToUint32] of a width or height assigned to a canvas. *)
Definition canvasDim (x : float) : Z := (Js.ToInt32 x) mod 2 ^ 32.

Definition MAX_WIDTH : Z := 2048.

(** A field of the multipart form sent to the worker. *)
Inductive FormValue (File : Type) :=
  | FormFile (f : File)
  | FormText (s : string).

Arguments FormFile {File} f.
Arguments FormText {File} s.

Section Page.

(** The browser: decoded images, files, decoding and drawing. *)
Variable Image : Type.
Variable File : Type.
Variable imgWidth imgHeight : Image -> Z.
(** [FileReader.readAsDataURL] followed by decoding; [None] when
    [img.onload] never fires. *)
Variable loadFile : File -> option Image.
(** Decoding a data URL; [None] fires [img.onerror]. *)
Variable decodeImage : string -> option Image.
(** [ctx.drawImage(img, 0, 0, w, h)]: the bitmap of the canvas afterwards. *)
Variable drawImage : Image -> float -> float -> Canvas -> list byte.
(** The same with [filter = 'blur(2px)'] on a fresh canvas. *)
Variable drawImageBlurred : Image -> float -> float -> Canvas -> list byte.

Record State := mkState {
  originalImage : option Image;
  maskCanvas : option Canvas;
  maskCtx : option Canvas;
  currentFile : option File;
  mainCanvas : Canvas;
  btnMask_disabled : bool;
  btnApply_disabled : bool;
  colorPicker_value : string;
  modeToggle_checked : bool;
  placeholder_hidden : bool;
  loading : bool;
  statusText_ : string;
  statusClass : StatusType
}.

Definition setStatus (msg : string) (type : StatusType) (st : State) : State :=
  mkState (originalImage st) (maskCanvas st) (maskCtx st) (currentFile st)
    (mainCanvas st) (btnMask_disabled st) (btnApply_disabled st)
    (colorPicker_value st) (modeToggle_checked st) (placeholder_hidden st)
    (loading st) msg type.

Definition setLoading (isLoading : bool) (st : State) : State :=
  mkState (originalImage st) (maskCanvas st) (maskCtx st) (currentFile st)
    (mainCanvas st) (btnMask_disabled st) (btnApply_disabled st)
    (colorPicker_value st) (modeToggle_checked st) (placeholder_hidden st)
    isLoading (statusText_ st) (statusClass st).

Definition setMainCanvas (c : Canvas) (st : State) : State :=
  mkState (originalImage st) (maskCanvas st) (maskCtx st) (currentFile st)
    c (btnMask_disabled st) (btnApply_disabled st)
    (colorPicker_value st) (modeToggle_checked st) (placeholder_hidden st)
    (loading st) (statusText_ st) (statusClass st).

Definition setCurrentFile (f : File) (st : State) : State :=
  mkState (originalImage st) (maskCanvas st) (maskCtx st) (Some f)
    (mainCanvas st) (btnMask_disabled st) (btnApply_disabled st)
    (colorPicker_value st) (modeToggle_checked st) (placeholder_hidden st)
    (loading st) (statusText_ st) (statusClass st).

Definition setMask (c : Canvas) (st : State) : State :=
  mkState (originalImage st) (Some c) (Some c) (currentFile st)
    (mainCanvas st) (btnMask_disabled st) (btnApply_disabled st)
    (colorPicker_value st) (modeToggle_checked st) (placeholder_hidden st)
    (loading st) (statusText_ st) (statusClass st).

Definition enableApply (st : State) : State :=
  mkState (originalImage st) (maskCanvas st) (maskCtx st) (currentFile st)
    (mainCanvas st) (btnMask_disabled st) false
    (colorPicker_value st) (modeToggle_checked st) (placeholder_hidden st)
    (loading st) (statusText_ st) (statusClass st).

(** The page as the script finds it: nothing loaded, an empty canvas of
    the default size. *)
Definition initialState (picker : string) (maskOff applyOff : bool) : State :=
  mkState None None None None (mkCanvas 300 150 (replicate (Z.to_nat (4 * 300 * 150)) x00))
    maskOff applyOff picker false false false EmptyString normal.

(** The message of the [IndexSizeError] of [getImageData]; the wording
    is the engine's (Chromium's here), the width is looked at first. *)
Definition indexSizeMessage (sw : Z) : string :=
  "Failed to execute 'getImageData' on 'CanvasRenderingContext2D': The source "
  ++ (if (sw =? 0)%Z then "width" else "height") ++ " is 0.".

(** [ctx.getImageData(0, 0, sw, sh)]: throws on an empty rectangle;
    pixels outside the canvas read as transparent black. *)
Definition getImageData (c : Canvas) (sw sh : Z) : JsError + list byte :=
  if ((sw =? 0) || (sh =? 0))%Z
  then inl (DOMException "IndexSizeError" (indexSizeMessage sw))
  else
    inr (flat_map
           (fun y =>
              flat_map
                (fun x =>
                   if (Z.of_nat x <? cwidth c) && (Z.of_nat y <? cheight c)
                   then
                     let o := (4 * (y * Z.to_nat (cwidth c) + x))%nat in
                     map (fun j => default x00 (bitmap c !! (o + j)%nat))
                         (seq 0 4)
                   else [x00; x00; x00; x00])
                (seq 0 (Z.to_nat sw)))
           (seq 0 (Z.to_nat sh))).

(** [applyColor()]: the state afterwards and the exception, if one
    escapes. *)
Definition applyColor (st : State) : State * option JsError :=
  match originalImage st, maskCanvas st with
  | Some img, Some _ =>
      let st := setStatus "Applying color..." normal st in
      let hex := colorPicker_value st in
      let width := cwidth (mainCanvas st) in
      let height := cheight (mainCanvas st) in
      let redrawn :=
        mkCanvas width height
          (drawImage img (Js.ofZ width) (Js.ofZ height) (mainCanvas st)) in
      let st := setMainCanvas redrawn st in
      match getImageData redrawn width height with
      | inl e => (st, Some e)
      | inr data =>
          match maskCtx st with
          | None =>
              (st, Some (TypeError
                           "Cannot read properties of null (reading 'getImageData')"))
          | Some mc =>
              match getImageData mc width height with
              | inl e => (st, Some e)
              | inr maskData =>
                  let st :=
                    setMainCanvas
                      (mkCanvas width height (recolor hex maskData data)) st in
                  (setStatus "Color applied." success st, None)
              end
          end
      end
  | _, _ => (st, None)
  end.

(** The body of [img.onload] in [handleImageUpload]. *)
Definition imageLoaded (img : Image) (st : State) : State :=
  let width := Js.ofZ (imgWidth img) in
  let height := Js.ofZ (imgHeight img) in
  let '(width, height) :=
    if (Js.ofZ MAX_WIDTH <? width)%float
    then (Js.ofZ MAX_WIDTH, (height * (Js.ofZ MAX_WIDTH / width))%float)
    else (width, height) in
  let w := canvasDim width in
  let h := canvasDim height in
  let cleared := mkCanvas w h (replicate (Z.to_nat (4 * w * h)) x00) in
  let drawn := mkCanvas w h (drawImage img width height cleared) in
  mkState (Some img) None (maskCtx st) (currentFile st) drawn
    false true (colorPicker_value st) (modeToggle_checked st) true
    (loading st) "Image loaded. Click 'Mask House' to detect areas." normal.

(** [handleImageUpload(e)], with [file = e.target.files[0]]. *)
Definition handleImageUpload (file : option File) (st : State) : State :=
  match file with
  | None => st
  | Some f =>
      let st := setCurrentFile f st in
      match loadFile f with
      | Some img => imageLoaded img st
      | None => st
      end
  end.

(** [loadMask(base64)]: the promise resolves or rejects. *)
Definition loadMask (base64 : option Json) (st : State) : State * option JsError :=
  match decodeImage ("data:image/png;base64," ++ stringOf base64) with
  | Some img =>
      let w := cwidth (mainCanvas st) in
      let h := cheight (mainCanvas st) in
      let fresh := mkCanvas w h (replicate (Z.to_nat (4 * w * h)) x00) in
      let drawn :=
        mkCanvas w h (drawImageBlurred img (Js.ofZ w) (Js.ofZ h) fresh) in
      (setMask drawn st, None)
  | None => (st, Some RejectedEvent)
  end.

(** The form [handleMasking] posts to [WORKER_URL]. *)
Definition formData (st : State) : list (string * FormValue File) :=
  match currentFile st with
  | Some f =>
      [("image", FormFile f);
       ("scene", FormText (if modeToggle_checked st then "interior" else "exterior"));
       ("mode", FormText "auto")]
  | None => []
  end.

(** The [try] block of [handleMasking], given what [fetch] produced. *)
Definition requestMask (res : FetchResult) (st : State)
    : State * option JsError :=
  match res with
  | NetworkFailure e => (st, Some e)
  | Responded response =>
      if negb (ok response) then (st, Some (ServiceError (statusText response)))
      else
        match json response with
        | inl e => (st, Some e)
        | inr data =>
            match maskPngBase64 data with
            | inl e => (st, Some e)
            | inr base64 =>
                if falsy base64 then (st, Some InvalidResponse)
                else
                  match loadMask base64 st with
                  | (st, Some e) => (st, Some e)
                  | (st, None) =>
                      let st := setStatus "Mask generated successfully!" success st in
                      let st := enableApply st in
                      applyColor st
                  end
            end
        end
  end.

(** [handleMasking()]: [try], [catch] and [finally]. *)
Definition handleMasking (res : FetchResult) (st : State) : State :=
  match currentFile st with
  | None => st
  | Some _ =>
      let st := setLoading true st in
      let st := setStatus "Uploading and masking..." normal st in
      let st :=
        match requestMask res st with
        | (st, Some err) =>
            setStatus ("Error generating mask: " ++ errMessage err) error st
        | (st, None) => st
        end in
      setLoading false st
  end.

(** The states of the session, read off the two module-level variables. *)
Inductive SessionState := Empty | ImageLoaded | Masked.

Definition sessionState (st : State) : SessionState :=
  match originalImage st, maskCanvas st with
  | None, _ => Empty
  | Some _, None => ImageLoaded
  | Some _, Some _ => Masked
  end.

(** What the user and the network can do to the page.  A click on a
    disabled button dispatches nothing. *)
Inductive Event :=
  | ChooseFile (file : option File)
  | ClickMask (res : FetchResult)
  | ClickApply
  | PickColor (hex : string)
  | ToggleMode (checked : bool).

Definition setPicker (hex : string) (st : State) : State :=
  mkState (originalImage st) (maskCanvas st) (maskCtx st) (currentFile st)
    (mainCanvas st) (btnMask_disabled st) (btnApply_disabled st)
    hex (modeToggle_checked st) (placeholder_hidden st)
    (loading st) (statusText_ st) (statusClass st).

Definition setMode (checked : bool) (st : State) : State :=
  mkState (originalImage st) (maskCanvas st) (maskCtx st) (currentFile st)
    (mainCanvas st) (btnMask_disabled st) (btnApply_disabled st)
    (colorPicker_value st) checked (placeholder_hidden st)
    (loading st) (statusText_ st) (statusClass st).

(** One event handled to its end: a handler and all it waits for
    (the file reader, the images, [fetch], [response.json()]) run
    before the next event.  The page as the event loop runs it, where
    other events come between, is [loopStep] below. *)
Definition step (st : State) (ev : Event) : State :=
  match ev with
  | ChooseFile file => handleImageUpload file st
  | ClickMask res => if btnMask_disabled st then st else handleMasking res st
  | ClickApply => if btnApply_disabled st then st else fst (applyColor st)
  | PickColor hex => setPicker hex st
  | ToggleMode checked => setMode checked st
  end.

Definition run (st : State) (evs : list Event) : State := fold_left step evs st.

(** *** The event loop

    [handleMasking] is an [async] function: it returns to the event
    loop at each of its three [await]s, and the file reader and the
    images call back later.  An operation under way is kept with what
    it resumes with; the tasks of the loop are the events of the user
    and the completions of the operations under way, in any order. *)
Inductive Pending :=
  | ReadingFile (f : File)
  | Fetching
  | ParsingJson (response : Response)
  | LoadingMask (base64 : option Json).

Record Loop := mkLoop {
  page : State;
  pending : list Pending
}.

(** The page at rest: nothing under way. *)
Definition idle (st : State) : Loop := mkLoop st [].

Inductive Task :=
  | InputChange (file : option File)
  | MaskClick
  | ApplyClick
  | ColorInput (hex : string)
  | ModeChange (checked : bool)
  | FetchSettles (i : nat) (res : FetchResult)
  | Settles (i : nat).

(** [catch] and [finally] of [handleMasking]. *)
Definition failed (err : JsError) (st : State) : State :=
  setLoading false
    (setStatus ("Error generating mask: " ++ errMessage err) error st).

(** [handleMasking] up to [await fetch(...)]. *)
Definition maskingStarted (st : State) : State * option Pending :=
  match currentFile st with
  | None => (st, None)
  | Some _ =>
      let st := setLoading true st in
      let st := setStatus "Uploading and masking..." normal st in
      (st, Some Fetching)
  end.

(** From the outcome of [fetch] to [await response.json()]. *)
Definition fetched (res : FetchResult) (st : State) : State * option Pending :=
  match res with
  | NetworkFailure e => (failed e st, None)
  | Responded response =>
      if negb (ok response)
      then (failed (ServiceError (statusText response)) st, None)
      else (st, Some (ParsingJson response))
  end.

(** From the parsed body to [await loadMask(...)]. *)
Definition parsed (response : Response) (st : State) : State * option Pending :=
  match json response with
  | inl e => (failed e st, None)
  | inr data =>
      match maskPngBase64 data with
      | inl e => (failed e st, None)
      | inr base64 =>
          if falsy base64 then (failed InvalidResponse st, None)
          else (st, Some (LoadingMask base64))
      end
  end.

(** The mask image loads or fails, and [handleMasking] runs to its
    end. *)
Definition maskSettled (base64 : option Json) (st : State) : State :=
  match loadMask base64 st with
  | (st, Some e) => failed e st
  | (st, None) =>
      let st := setStatus "Mask generated successfully!" success st in
      let st := enableApply st in
      match applyColor st with
      | (st, Some e) => failed e st
      | (st, None) => setLoading false st
      end
  end.

(** The file is read and decoded: [img.onload] runs, or nothing does. *)
Definition fileSettled (f : File) (st : State) : State :=
  match loadFile f with
  | Some img => imageLoaded img st
  | None => st
  end.

(** The operation at [i] goes on with [next], or is over. *)
Definition resume (l : Loop) (i : nat) (r : State * option Pending) : Loop :=
  mkLoop (fst r)
    (match snd r with
     | Some next => <[i := next]> (pending l)
     | None => delete i (pending l)
     end).

Definition loopStep (l : Loop) (t : Task) : Loop :=
  let st := page l in
  match t with
  | InputChange None => l
  | InputChange (Some f) =>
      mkLoop (setCurrentFile f st) (pending l ++ [ReadingFile f])
  | MaskClick =>
      if btnMask_disabled st then l
      else
        match maskingStarted st with
        | (st, Some next) => mkLoop st (pending l ++ [next])
        | (st, None) => mkLoop st (pending l)
        end
  | ApplyClick =>
      if btnApply_disabled st then l
      else mkLoop (fst (applyColor st)) (pending l)
  | ColorInput hex => mkLoop (setPicker hex st) (pending l)
  | ModeChange checked => mkLoop (setMode checked st) (pending l)
  | FetchSettles i res =>
      match pending l !! i with
      | Some Fetching => resume l i (fetched res st)
      | _ => l
      end
  | Settles i =>
      match pending l !! i with
      | Some (ReadingFile f) => resume l i (fileSettled f st, None)
      | Some (ParsingJson response) => resume l i (parsed response st)
      | Some (LoadingMask base64) => resume l i (maskSettled base64 st, None)
      | _ => l
      end
  end.

Definition loopRun (l : Loop) (ts : list Task) : Loop := fold_left loopStep ts l.

(** The tasks of an event handled to its end. *)
Definition tasksOf (ev : Event) : list Task :=
  match ev with
  | ChooseFile file => [InputChange file; Settles 0]
  | ClickMask res => [MaskClick; FetchSettles 0 res; Settles 0; Settles 0]
  | ClickApply => [ApplyClick]
  | PickColor hex => [ColorInput hex]
  | ToggleMode checked => [ModeChange checked]
  end.

(** A mask request succeeds when the response is successful, carries a
    truthy mask and the mask decodes. *)
Definition maskInstalled (st : State) (ev : Event) : bool :=
  match ev with
  | ClickMask (Responded r) =>
      negb (btnMask_disabled st)
      && ok r
      && match currentFile st, json r with
         | Some _, inr data =>
             match maskPngBase64 data with
             | inr base64 =>
                 negb (falsy base64)
                 && match decodeImage ("data:image/png;base64," ++ stringOf base64) with
                    | Some _ => true
                    | None => false
                    end
             | inl _ => false
             end
         | _, _ => false
         end
  | _ => false
  end.

(** No event of the run installs a mask. *)
Fixpoint noMaskInstalled (st : State) (evs : list Event) : bool :=
  match evs with
  | [] => true
  | ev :: evs' => negb (maskInstalled st ev) && noMaskInstalled (step st ev) evs'
  end.

End Page.

Arguments mkState {Image File}.
Arguments originalImage {Image File}.
Arguments maskCanvas {Image File}.
Arguments maskCtx {Image File}.
Arguments currentFile {Image File}.
Arguments mainCanvas {Image File}.
Arguments btnMask_disabled {Image File}.
Arguments btnApply_disabled {Image File}.
Arguments colorPicker_value {Image File}.
Arguments modeToggle_checked {Image File}.
Arguments placeholder_hidden {Image File}.
Arguments loading {Image File}.
Arguments statusText_ {Image File}.
Arguments statusClass {Image File}.
Arguments setStatus {Image File}.
Arguments setLoading {Image File}.
Arguments setMainCanvas {Image File}.
Arguments setCurrentFile {Image File}.
Arguments setMask {Image File}.
Arguments enableApply {Image File}.
Arguments setPicker {Image File}.
Arguments setMode {Image File}.
Arguments initialState {Image File}.
Arguments sessionState {Image File}.
Arguments applyColor {Image File}.
Arguments imageLoaded {Image File}.
Arguments handleImageUpload {Image File}.
Arguments loadMask {Image File}.
Arguments formData {Image File}.
Arguments requestMask {Image File}.
Arguments handleMasking {Image File}.
Arguments ChooseFile {File}.
Arguments ClickMask {File}.
Arguments ClickApply {File}.
Arguments PickColor {File}.
Arguments ToggleMode {File}.
Arguments step {Image File}.
Arguments run {Image File}.
Arguments maskInstalled {Image File}.
Arguments ReadingFile {File}.
Arguments Fetching {File}.
Arguments ParsingJson {File}.
Arguments LoadingMask {File}.
Arguments mkLoop {Image File}.
Arguments page {Image File}.
Arguments pending {Image File}.
Arguments idle {Image File}.
Arguments InputChange {File}.
Arguments MaskClick {File}.
Arguments ApplyClick {File}.
Arguments ColorInput {File}.
Arguments ModeChange {File}.
Arguments FetchSettles {File}.
Arguments Settles {File}.
Arguments failed {Image File}.
Arguments maskingStarted {Image File}.
Arguments fetched {Image File}.
Arguments parsed {Image File}.
Arguments maskSettled {Image File}.
Arguments fileSettled {Image File}.
Arguments resume {Image File}.
Arguments loopStep {Image File}.
Arguments loopRun {Image File}.
Arguments tasksOf {File}.
Arguments noMaskInstalled {Image File}.

(** ** A small browser to run the handlers on

    Images are their own pixels, drawing an image overwrites the canvas,
    a data URL decodes when its payload is not empty. *)

Module Demo.

Definition Image := list byte.
Definition File := list byte.

Definition imgWidth (img : Image) : Z := 1.
Definition imgHeight (img : Image) : Z := Z.of_nat (length img) / 4.
Definition loadFile (f : File) : option Image :=
  if decide (f = []) then None else Some f.
Definition decodeImage (url : string) : option Image :=
  if string_dec url "data:image/png;base64," then None
  else Some [x00; x00; x00; xff].
Definition drawImage (img : Image) (w h : float) (c : Canvas) : list byte := img.

Definition photo : Image := [x64; x64; x64; xff].
Definition secondPhoto : Image := [x0a; x14; x1e; xff].

Definition empty : State Image File := initialState "#FF0000" true true.

Definition withPhoto : State Image File :=
  handleImageUpload imgWidth imgHeight loadFile drawImage (Some photo) empty.

Definition goodResponse : FetchResult :=
  Responded
    (mkResponse true "OK"
       (inr (JObject [("maskPngBase64", JString "iVBORw0KGgo=")]))).

Definition noMaskResponse : FetchResult :=
  Responded (mkResponse true "OK" (inr (JObject []))).

Definition failedResponse : FetchResult :=
  Responded (mkResponse false "Internal Server Error" (inr (JObject []))).

Definition nullResponse : FetchResult :=
  Responded (mkResponse true "OK" (inr JNull)).

Definition withMask : State Image File :=
  handleMasking decodeImage drawImage drawImage goodResponse withPhoto.

End Demo.

(** A browser that composites: an image is a column of RGBA pixels,
    drawn at its own size from the top of the canvas, each pixel over
    the pixel the canvas holds (source-over, the default of a 2D
    context).  The bitmap keeps straight alpha, rounded to the nearest
    byte; the blur of the mask is left out. *)
Module Canvas2D.

Definition Image := list byte.
Definition File := list byte.

Definition imgWidth (img : Image) : Z := 1.
Definition imgHeight (img : Image) : Z := Z.of_nat (length img) / 4.
Definition loadFile (f : File) : option Image :=
  if decide (f = []) then None else Some f.

(** [n / d] rounded to the nearest integer. *)
Definition roundDiv (n d : Z) : Z := (2 * n + d) / (2 * d).

(** The source pixel over the destination pixel. *)
Definition over (sr sg sb sa dr dg db da : byte) : list byte :=
  let sa := Z_of_byte sa in
  let da := Z_of_byte da in
  let rest := 255 - sa in
  let alpha := 255 * sa + da * rest in
  let channel (sc dc : byte) :=
    byte_of_Z
      (roundDiv (Z_of_byte sc * (255 * sa) + Z_of_byte dc * (da * rest)) alpha) in
  if alpha =? 0 then [x00; x00; x00; x00]
  else [channel sr dr; channel sg dg; channel sb db; byte_of_Z (roundDiv alpha 255)].

(** The image over the bitmap, pixel by pixel; where one of the two
    ends, the bitmap is left as it is. *)
Fixpoint composite (src dst : list byte) : list byte :=
  match src, dst with
  | sr :: sg :: sb :: sa :: src', dr :: dg :: db :: da :: dst' =>
      over sr sg sb sa dr dg db da ++ composite src' dst'
  | _, _ => dst
  end.

Definition drawImage (img : Image) (w h : float) (c : Canvas) : list byte :=
  composite img (bitmap c).

(** Every mask decodes to one pixel, half transparent. *)
Definition decodeImage (url : string) : option Image :=
  Some [xff; xff; xff; x80].

(** A grey pixel, half transparent, and the same pixel, opaque. *)
Definition translucent : Image := [x64; x64; x64; x80].
Definition opaque : Image := [x64; x64; x64; xff].

Definition goodResponse : FetchResult :=
  Responded
    (mkResponse true "OK"
       (inr (JObject [("maskPngBase64", JString "iVBORw0KGgo=")]))).

Definition start : State Image File := initialState "#FF0000" true true.

(** The page after the upload of an image, and after the mask request
    that follows, which applies the colour once. *)
Definition uploaded (img : Image) : State Image File :=
  handleImageUpload imgWidth imgHeight loadFile drawImage (Some img) start.

Definition paintedOnce (img : Image) : State Image File :=
  handleMasking decodeImage drawImage drawImage goodResponse (uploaded img).

End Canvas2D.

(** * Support for the proofs

    The real value of a Number, for the bounds on the converters. *)

(** Powers of two as reals. *)
Definition pow2 (e : Z) : R :=
  match e with
  | Zneg p => (/ IZR (Z.pow_pos 2 p))%R
  | _ => IZR (2 ^ e)
  end.

(** The real number a [spec_float] stands for; 0 for infinities and NaN. *)
Definition SF2R (x : spec_float) : R :=
  match x with
  | S754_finite s m e => (IZR (cond_Zopp s (Zpos m)) * pow2 e)%R
  | _ => 0%R
  end.

Definition SFfinite (x : spec_float) : bool :=
  match x with
  | S754_finite _ _ _ | S754_zero _ => true
  | _ => false
  end.

Definition FV (x : float) : R := SF2R (Prim2SF x).
Definition Ffin (x : float) : Prop := SFfinite (Prim2SF x) = true.

(** How two reals compare. *)
Definition Rcmp (a b : R) (c : comparison) : Prop :=
  match c with
  | Lt => (a < b)%R
  | Eq => a = b
  | Gt => (b < a)%R
  end.

(** Twice the value of a [spec_float], when that is an integer. *)
Definition SFhalves (x : spec_float) : option Z :=
  match x with
  | S754_zero _ => Some 0
  | S754_finite s m e =>
      if (-1 <=? e) then Some (cond_Zopp s (Zpos m * 2 ^ (e + 1)))
      else if (Zpos m mod 2 ^ (- e - 1) =? 0)
           then Some (cond_Zopp s (Zpos m / 2 ^ (- e - 1)))
           else None
  | _ => None
  end.

(** The bytes, as integers. *)
Definition bytesZ : list Z := Eval vm_compute in map Z.of_nat (seq 0 256).

(** [v] is within a half of [n], and is not negative. *)
Definition near (n v : float) : bool :=
  ((n - 0.5 <=? v) && (v <? n + 0.5) && negb (get_sign v))%float.

Definition in_unit (x : float) : bool := ((0 <=? x) && (x <=? 1))%float.

(** What is checked of [rgbToHsl] and [hslToRgb] on one colour: the
    components of [rgbToHsl] lie in [[0,1]], and each channel of
    [hslToRgb], before [Math.round], is within a half of the original. *)
Definition roundtrip_ok (r g b : float) : bool :=
  let '(h, s, l) := rgbToHsl r g b in
  let '(r', g', b') := hslChannels h s l in
  in_unit h && in_unit s && in_unit l
  && near r (r' * 255) && near g (g' * 255) && near b (b' * 255).

(** The bytes, as Numbers. *)
Definition bytesF : list float := Eval vm_compute in map Js.ofZ bytesZ.

(** A check of all the triples over a list. *)
Definition forallb3 {A : Type} (P : A -> A -> A -> bool) (l : list A) : bool :=
  forallb (fun r => forallb (fun g => forallb (P r g) l) l) l.

(** The bounds [n - 0.5] and [n + 0.5] of [near] are exact. *)
Definition half_bounds_ok (n : Z) : bool :=
  match SFhalves (Prim2SF (Js.ofZ n - 0.5)), SFhalves (Prim2SF (Js.ofZ n + 0.5)) with
  | Some lo, Some hi => (lo =? 2 * n - 1) && (hi =? 2 * n + 1)
  | _, _ => false
  end.

(** The error allowed to one operation on Numbers of magnitude at most
    2048: [2^-39]. *)
Definition eps64 : R := (/ 549755813888)%R.

(** The slack allowed on [p] and [q] going into [hue2rgb], and on the
    channel coming out of it. *)
Definition slack_in : R := (/ 10000000000)%R.
Definition slack_out : R := (/ 1000000000)%R.

(** [x === y] on Numbers, and on colours. *)
Definition sameNumber (x y : float) : Prop := (x =? y)%float = true.

Definition sameRgb (x y : float * float * float) : Prop :=
  let '(xr, xg, xb) := x in
  let '(yr, yg, yb) := y in
  sameNumber xr yr /\ sameNumber xg yg /\ sameNumber xb yb.

(** A byte of a pixel buffer read as a Number. *)
Definition numOfByte (b : byte) : float := Js.ofZ (Z_of_byte b).

(** A check of all the pairs over a list. *)
Definition forallb2 {A : Type} (P : A -> A -> bool) (l : list A) : bool :=
  forallb (fun r => forallb (P r) l) l.

(** What is checked of the blend at mask alpha 255: storing
    [lerp(r, n, 255/255)] keeps the byte [n], also when [n] is 0 and
    comes as [-0]. *)
Definition store_ok (r n : Z) : bool :=
  let fr := Js.ofZ r in
  let fn := Js.ofZ n in
  let t := (Js.ofZ 255 / 255)%float in
  (Z_of_byte (storeNum (lerp fr fn t)) =? n)
  && (Z_of_byte (byte_of_Z n) =? n)
  && (fn =? fn)%float
  && (if n =? 0
      then (Z_of_byte (storeNum (lerp fr neg_zero t)) =? 0)
           && (neg_zero =? fn)%float
      else true).


(** [x] lies between [a] and [b], in either order. *)
Definition between (a b x : Z) : Prop := Z.min a b <= x <= Z.max a b.

(** The weight [maskAlpha / 255] of a mask byte lies in [[0,1]]. *)
Definition alpha_ok (a : Z) : bool := in_unit (Js.ofZ a / 255)%float.

(** What is checked of [rgbToHsl] on one grey: no hue, no saturation,
    and the lightness [v / 255]. *)
Definition grey_ok (v : Z) : bool :=
  let x := Js.ofZ v in
  let '(h, s, l) := rgbToHsl x x x in
  (Leibniz.eqb h 0 && Leibniz.eqb s 0 && Leibniz.eqb l (x / 255))%float.

(** The mask canvas, when there is one, is the canvas [maskCtx] draws
    on, and has the size of the main canvas. *)
Definition maskAligned {Image File : Type} (st : State Image File) : Prop :=
  match maskCanvas st with
  | Some c =>
      maskCtx st = Some c
      /\ cwidth c = cwidth (mainCanvas st)
      /\ cheight c = cheight (mainCanvas st)
  | None => True
  end.

(** What the two buttons tell of the session: the mask button is
    enabled only with an image and a file, a mask exists only with an
    image, the apply button is enabled only with a mask. *)
Definition buttonsSound {Image File : Type} (st : State Image File) : Prop :=
  (btnMask_disabled st = false ->
   originalImage st <> None /\ currentFile st <> None)
  /\ (maskCanvas st <> None -> originalImage st <> None)
  /\ (btnApply_disabled st = false -> maskCanvas st <> None).

(** The mask canvas [loadMask] builds from a decoded mask image. *)
Definition maskCanvasOf {Image : Type}
    (drawImageBlurred : Image -> float -> float -> Canvas -> list byte)
    (img : Image) (w h : Z) : Canvas :=
  mkCanvas w h
    (drawImageBlurred img (Js.ofZ w) (Js.ofZ h)
       (mkCanvas w h (replicate (Z.to_nat (4 * w * h)) x00))).

(** A page of the small browser whose canvases have no pixels. *)
Definition noPixels : State Demo.Image Demo.File :=
  mkState (Some Demo.photo) (Some (mkCanvas 0 0 [])) (Some (mkCanvas 0 0 []))
    (Some Demo.photo) (mkCanvas 0 0 []) false false "#FF0000" false true
    false EmptyString normal.

(** The number of bytes of a bitmap of [w] by [h] pixels, and the
    canvases whose bitmap has the size they say. *)
Definition pixelBytes (w h : Z) : nat := (4 * Z.to_nat w * Z.to_nat h)%nat.

Definition canvasOk (c : Canvas) : Prop :=
  length (bitmap c) = pixelBytes (cwidth c) (cheight c).

(** Drawing [img] over the whole of a canvas of [w] by [h] pixels hides
    what the canvas held, as an image without transparency does: the
    bitmap keeps its size and does not depend on what it was. *)
Definition covers {Image : Type}
    (drawImage : Image -> float -> float -> Canvas -> list byte)
    (img : Image) (w h : Z) : Prop :=
  forall b : list byte,
    length b = pixelBytes w h ->
    length (drawImage img (Js.ofZ w) (Js.ofZ h) (mkCanvas w h b)) = pixelBytes w h
    /\ forall b' : list byte,
         length b' = pixelBytes w h ->
         drawImage img (Js.ofZ w) (Js.ofZ h) (mkCanvas w h b)
         = drawImage img (Js.ofZ w) (Js.ofZ h) (mkCanvas w h b').

(** No mask request is under way: the operations of the loop are file
    readings only. *)
Definition reading {File : Type} (p : Pending File) : Prop :=
  match p with
  | ReadingFile _ => True
  | _ => False
  end.

Definition noRequest {File : Type} (ps : list (Pending File)) : Prop :=
  Forall reading ps.

(** The mask button is not clicked in these tasks. *)
Definition noMaskClick {File : Type} (ts : list (Task File)) : Prop :=
  Forall (fun t => t <> MaskClick) ts.

(** [hue2rgb] in two steps: the hue brought back into [[0,1]], then the
    ramp between [p] and [q]. *)
Definition hueNorm (t : float) : float :=
  let t := if (t <? 0)%float then (t + 1)%float else t in
  if (1 <? t)%float then (t - 1)%float else t.

Definition hueRamp (p q t : float) : float :=
  (if t <? 1 / 6 then p + (q - p) * 6 * t
   else if t <? 1 / 2 then q
   else if t <? 2 / 3 then p + (q - p) * (2 / 3 - t) * 6
   else p)%float.

(** A channel of a pixel as [rgbToHsl] first makes it: [v / 255]. *)
Definition unit255 (v : Z) : float := (Js.ofZ v / 255)%float.

(** What is checked of [Math.max] and [Math.min] on the channels of two
    bytes: they pick the channel of the larger and of the smaller. *)
Definition maxmin_ok (a b : Z) : bool :=
  Leibniz.eqb (Js.max_step (unit255 a) (unit255 b)) (unit255 (Z.max a b))
  && Leibniz.eqb (Js.min_step (unit255 a) (unit255 b)) (unit255 (Z.min a b)).

Definition ends_ok (a : Z) : bool :=
  Leibniz.eqb (Js.max_step neg_infinity (unit255 a)) (unit255 a)
  && Leibniz.eqb (Js.min_step infinity (unit255 a)) (unit255 a)
  && negb (is_nan (unit255 a)).

(** [2^-20], and its opposite. *)
Definition tiny : float := 0x1p-20%float.
Definition minus_tiny : float := (- 0x1p-20)%float.

(** What is checked of the lightness [(max + min) / 2] of two channels:
    it lies in [[0,1]] and, times 510, is the sum of the two bytes
    within [2^-20]. *)
Definition light_ok (a b : Z) : bool :=
  let l := ((unit255 a + unit255 b) / 2)%float in
  let d := (l * Js.ofZ 510 - Js.ofZ (a + b))%float in
  in_unit l && (minus_tiny <=? d)%float && (d <=? tiny)%float.

(** The largest and the smallest of three integers. *)
Definition max3 (a b c : Z) : Z := Z.max (Z.max a b) c.
Definition min3 (a b c : Z) : Z := Z.min (Z.min a b) c.

(** * Facts about binary64 arithmetic *)

Section Pow2.
Local Open Scope R_scope.

Lemma pow2_pos e : 0 < pow2 e.
Proof.
  destruct e as [|p|p]; simpl.
  - lra.
  - apply IZR_lt. change (Z.pow_pos 2 p) with (2 ^ Zpos p)%Z. lia.
  - apply Rinv_0_lt_compat. apply IZR_lt.
    change (Z.pow_pos 2 p) with (2 ^ Zpos p)%Z. lia.
Qed.

Lemma pow2_nonneg_exp e : (0 <= e)%Z -> pow2 e = IZR (2 ^ e).
Proof. destruct e; try reflexivity. lia. Qed.

Lemma pow2_neg_exp e : (e <= 0)%Z -> pow2 e = / IZR (2 ^ (- e)).
Proof.
  destruct e as [|p|p]; try lia; intros _; simpl.
  - change (IZR 1 = / IZR 1). lra.
  - reflexivity.
Qed.

Lemma pow2_add a b : pow2 (a + b) = pow2 a * pow2 b.
Proof.
  assert (Hpos : forall k, (0 <= k)%Z -> IZR (2 ^ k) <> 0).
  { intros k Hk. apply not_0_IZR. lia. }
  assert (Hnn : forall a b, (0 <= a)%Z -> (0 <= b)%Z -> pow2 (a + b) = pow2 a * pow2 b).
  { intros x y Hx Hy. rewrite !pow2_nonneg_exp by lia.
    rewrite Z.pow_add_r by lia. apply mult_IZR. }
  assert (Hmix : forall a b, (0 <= a)%Z -> (b <= 0)%Z -> pow2 (a + b) = pow2 a * pow2 b).
  { intros x y Hx Hy.
    rewrite (pow2_nonneg_exp x), (pow2_neg_exp y) by lia.
    destruct (Z_le_gt_dec 0 (x + y)) as [Hs|Hs].
    - rewrite pow2_nonneg_exp by lia.
      assert (E : (2 ^ x = 2 ^ (x + y) * 2 ^ (- y))%Z)
        by (rewrite <- Z.pow_add_r by lia; f_equal; lia).
      rewrite E, mult_IZR. field. apply Hpos. lia.
    - rewrite pow2_neg_exp by lia.
      assert (E : (2 ^ (- y) = 2 ^ x * 2 ^ (- (x + y)))%Z)
        by (rewrite <- Z.pow_add_r by lia; f_equal; lia).
      rewrite E, mult_IZR. field. split; apply Hpos; lia. }
  destruct (Z_le_gt_dec 0 a) as [Ha|Ha]; destruct (Z_le_gt_dec 0 b) as [Hb|Hb].
  - apply Hnn; lia.
  - apply Hmix; lia.
  - rewrite Z.add_comm, Rmult_comm. apply Hmix; lia.
  - rewrite !pow2_neg_exp by lia.
    assert (E : (2 ^ (- (a + b)) = 2 ^ (- a) * 2 ^ (- b))%Z)
      by (rewrite <- Z.pow_add_r by lia; f_equal; lia).
    rewrite E, mult_IZR. field. split; apply Hpos; lia.
Qed.

Lemma pow2_le a b : (a <= b)%Z -> pow2 a <= pow2 b.
Proof.
  intros H. replace b with (a + (b - a))%Z by lia. rewrite pow2_add.
  rewrite pow2_nonneg_exp with (e := (b - a)%Z) by lia.
  assert (1 <= IZR (2 ^ (b - a))) by (apply IZR_le; lia).
  pose proof (pow2_pos a). nra.
Qed.

Lemma pow2_lt a b : (a < b)%Z -> pow2 a < pow2 b.
Proof.
  intros H. replace b with (a + (b - a))%Z by lia. rewrite pow2_add.
  rewrite pow2_nonneg_exp with (e := (b - a)%Z) by lia.
  assert (2 <= IZR (2 ^ (b - a))).
  { apply IZR_le. replace (b - a)%Z with (1 + (b - a - 1))%Z by lia.
    rewrite Z.pow_add_r by lia. change (2 ^ 1)%Z with 2%Z.
    assert (0 < 2 ^ (b - a - 1))%Z by lia. lia. }
  pose proof (pow2_pos a). nra.
Qed.

Lemma pow2_le_inv a b : pow2 a <= pow2 b -> (a <= b)%Z.
Proof.
  intros H. destruct (Z_le_gt_dec a b) as [|Hgt]; [assumption|].
  apply Z.gt_lt in Hgt. apply pow2_lt in Hgt. lra.
Qed.

End Pow2.

Section Canonical.

Lemma digits2_pos_bounds (m : positive) :
  2 ^ (Zpos (digits2_pos m) - 1) <= Zpos m < 2 ^ Zpos (digits2_pos m).
Proof.
  induction m as [m IH|m IH|]; cbn [digits2_pos].
  - rewrite Pos2Z.inj_succ.
    replace (Z.succ (Zpos (digits2_pos m)) - 1) with (1 + (Zpos (digits2_pos m) - 1)) by lia.
    replace (Z.succ (Zpos (digits2_pos m))) with (1 + Zpos (digits2_pos m)) by lia.
    rewrite !Z.pow_add_r by lia. change (2 ^ 1) with 2. lia.
  - rewrite Pos2Z.inj_succ.
    replace (Z.succ (Zpos (digits2_pos m)) - 1) with (1 + (Zpos (digits2_pos m) - 1)) by lia.
    replace (Z.succ (Zpos (digits2_pos m))) with (1 + Zpos (digits2_pos m)) by lia.
    rewrite !Z.pow_add_r by lia. change (2 ^ 1) with 2. lia.
  - change (2 ^ (1 - 1)) with 1. change (2 ^ 1) with 2. lia.
Qed.

(** A valid finite binary64 number is normal (53 digits) or subnormal
    (exponent -1074). *)
Lemma valid_finite (s : bool) (m : positive) (e : Z) :
  valid_binary (S754_finite s m e) = true ->
  -1074 <= e <= 971
  /\ Zpos (digits2_pos m) <= 53
  /\ (e = -1074 \/ Zpos (digits2_pos m) = 53).
Proof.
  unfold SpecFloat.valid_binary, bounded, canonical_mantissa.
  intros H. apply andb_prop in H as [H1 H2].
  apply Z.eqb_eq in H1. apply Z.leb_le in H2.
  cbv delta [fexp SpecFloat.emin emax prec] beta in H1, H2. lia.
Qed.

Local Open Scope R_scope.

Lemma mantissa_lt_pow2 (m : positive) (e : Z) :
  IZR (Zpos m) * pow2 e < pow2 (Zpos (digits2_pos m) + e).
Proof.
  rewrite pow2_add. pose proof (pow2_pos e).
  rewrite (pow2_nonneg_exp (Zpos _)) by lia.
  apply Rmult_lt_compat_r; [assumption|].
  apply IZR_lt. apply digits2_pos_bounds.
Qed.

Lemma mantissa_ge_pow2 (m : positive) (e : Z) :
  pow2 (Zpos (digits2_pos m) - 1 + e) <= IZR (Zpos m) * pow2 e.
Proof.
  rewrite pow2_add. pose proof (pow2_pos e).
  rewrite (pow2_nonneg_exp (Zpos _ - 1)) by lia.
  apply Rmult_le_compat_r; [lra|].
  apply IZR_le. apply digits2_pos_bounds.
Qed.

(** On valid numbers of the same sign, comparing exponents and then
    mantissas compares the values. *)
Lemma compare_magnitudes (m1 m2 : positive) (e1 e2 : Z) :
  valid_binary (S754_finite false m1 e1) = true ->
  valid_binary (S754_finite false m2 e2) = true ->
  Rcmp (IZR (Zpos m1) * pow2 e1) (IZR (Zpos m2) * pow2 e2)
    match (e1 ?= e2)%Z with
    | Lt => Lt
    | Gt => Gt
    | Eq => Pos.compare_cont Eq m1 m2
    end.
Proof.
  intros V1 V2.
  apply valid_finite in V1 as (He1 & Hd1 & Hn1).
  apply valid_finite in V2 as (He2 & Hd2 & Hn2).
  assert (Hlt : forall ma mb ea eb,
            (Zpos (digits2_pos ma) <= 53)%Z -> (Zpos (digits2_pos mb) = 53)%Z ->
            (ea < eb)%Z ->
            IZR (Zpos ma) * pow2 ea < IZR (Zpos mb) * pow2 eb).
  { intros ma mb ea eb Ha Hb Hab.
    eapply Rlt_le_trans; [apply mantissa_lt_pow2|].
    eapply Rle_trans; [|apply mantissa_ge_pow2].
    apply pow2_le. lia. }
  destruct (Z.compare_spec e1 e2) as [->|Hc|Hc].
  - fold (Pos.compare m1 m2).
    destruct (Pos.compare_spec m1 m2) as [->|Hm|Hm]; simpl.
    + reflexivity.
    + apply Rmult_lt_compat_r; [apply pow2_pos|]. apply IZR_lt. lia.
    + apply Rmult_lt_compat_r; [apply pow2_pos|]. apply IZR_lt. lia.
  - simpl. apply Hlt; lia.
  - simpl. apply Hlt; lia.
Qed.

Lemma SF2R_finite_sign (s : bool) (m : positive) (e : Z) :
  if s then SF2R (S754_finite s m e) < 0 else 0 < SF2R (S754_finite s m e).
Proof.
  pose proof (pow2_pos e) as Hp.
  assert (0 < IZR (Zpos m)) by (apply IZR_lt; lia).
  destruct s; simpl.
  - change (Zneg m) with (- Zpos m)%Z. rewrite opp_IZR. nra.
  - nra.
Qed.

(** [SFcompare] on valid finite numbers is the comparison of the values. *)
Lemma SFcompare_spec (x y : spec_float) :
  valid_binary x = true -> valid_binary y = true ->
  SFfinite x = true -> SFfinite y = true ->
  exists c, SFcompare x y = Some c /\ Rcmp (SF2R x) (SF2R y) c.
Proof.
  intros Vx Vy Fx Fy.
  destruct x as [sx|sx| |sx mx ex]; try discriminate;
    destruct y as [sy|sy| |sy my ey]; try discriminate.
  - exists Eq. split; reflexivity.
  - pose proof (SF2R_finite_sign sy my ey). destruct sy.
    + exists Gt. split; [reflexivity|]. simpl SF2R at 2. simpl Rcmp. assumption.
    + exists Lt. split; [reflexivity|]. simpl SF2R at 1. simpl Rcmp. assumption.
  - pose proof (SF2R_finite_sign sx mx ex). destruct sx.
    + exists Lt. split; [reflexivity|]. simpl SF2R at 2. simpl Rcmp. assumption.
    + exists Gt. split; [reflexivity|]. simpl SF2R at 1. simpl Rcmp. assumption.
  - pose proof (SF2R_finite_sign sx mx ex) as Hx.
    pose proof (SF2R_finite_sign sy my ey) as Hy.
    assert (Vx' : valid_binary (S754_finite false mx ex) = true) by exact Vx.
    assert (Vy' : valid_binary (S754_finite false my ey) = true) by exact Vy.
    pose proof (compare_magnitudes mx my ex ey Vx' Vy') as Hc.
    destruct sx, sy.
    + eexists. split; [reflexivity|].
      unfold SF2R, cond_Zopp. change (Zneg mx) with (- Zpos mx)%Z.
      change (Zneg my) with (- Zpos my)%Z. rewrite !opp_IZR.
      destruct (ex ?= ey)%Z; [destruct (Pos.compare_cont Eq mx my)| |];
        cbn [Rcmp CompOpp] in *; lra.
    + exists Lt. split; [reflexivity|]. cbv beta iota in Hx, Hy. cbn [Rcmp]. lra.
    + exists Gt. split; [reflexivity|]. cbv beta iota in Hx, Hy. cbn [Rcmp]. lra.
    + eexists. split; [reflexivity|]. exact Hc.
Qed.

End Canonical.

(** ** Comparisons of Numbers *)

Section FloatCompare.

Local Open Scope R_scope.

Lemma Fcompare_spec (x y : float) :
  Ffin x -> Ffin y ->
  exists c, SFcompare (Prim2SF x) (Prim2SF y) = Some c /\ Rcmp (FV x) (FV y) c.
Proof.
  intros Hx Hy. apply SFcompare_spec; auto using Prim2SF_valid.
Qed.

Lemma ltb_FV (x y : float) :
  Ffin x -> Ffin y -> ((x <? y)%float = true <-> FV x < FV y).
Proof.
  intros Hx Hy. rewrite FloatAxioms.ltb_spec. unfold SFltb.
  destruct (Fcompare_spec x y Hx Hy) as (c & -> & Hc).
  destruct c; cbn [Rcmp] in Hc; split; intros H; try discriminate; try lra;
    reflexivity.
Qed.

Lemma leb_FV (x y : float) :
  Ffin x -> Ffin y -> ((x <=? y)%float = true <-> FV x <= FV y).
Proof.
  intros Hx Hy. rewrite FloatAxioms.leb_spec. unfold SFleb.
  destruct (Fcompare_spec x y Hx Hy) as (c & -> & Hc).
  destruct c; cbn [Rcmp] in Hc; split; intros H; try discriminate; try lra;
    reflexivity.
Qed.

Lemma eqb_FV (x y : float) :
  Ffin x -> Ffin y -> ((x =? y)%float = true <-> FV x = FV y).
Proof.
  intros Hx Hy. rewrite FloatAxioms.eqb_spec. unfold SFeqb.
  destruct (Fcompare_spec x y Hx Hy) as (c & -> & Hc).
  destruct c; cbn [Rcmp] in Hc; split; intros H; try discriminate; try lra;
    reflexivity.
Qed.

Lemma ltb_false_FV (x y : float) :
  Ffin x -> Ffin y -> (x <? y)%float = false -> FV y <= FV x.
Proof.
  intros Hx Hy H. destruct (Rle_or_lt (FV y) (FV x)) as [|Hlt]; [assumption|].
  apply (proj2 (ltb_FV x y Hx Hy)) in Hlt. congruence.
Qed.

Lemma eqb_false_FV (x y : float) :
  Ffin x -> Ffin y -> (x =? y)%float = false -> FV x <> FV y.
Proof.
  intros Hx Hy H E. apply (proj2 (eqb_FV x y Hx Hy)) in E. congruence.
Qed.

(** A Number between two finite Numbers is finite. *)
Lemma Ffin_between (a b x : float) :
  Ffin a -> Ffin b ->
  (a <=? x)%float = true -> (x <=? b)%float = true -> Ffin x.
Proof.
  unfold Ffin. rewrite !FloatAxioms.leb_spec. unfold SFleb.
  destruct (Prim2SF a) as [sa|sa| |sa ma ea]; try discriminate;
    destruct (Prim2SF b) as [sb|sb| |sb mb eb]; try discriminate;
    destruct (Prim2SF x) as [sx|[|]| |sx mx ex]; try reflexivity;
    simpl; intros _ _; try discriminate;
    try (destruct sa; discriminate); try (destruct sb; discriminate).
Qed.

Lemma ltb_leb (x y : float) : (x <? y)%float = true -> (x <=? y)%float = true.
Proof.
  rewrite FloatAxioms.ltb_spec, FloatAxioms.leb_spec. unfold SFltb, SFleb.
  destruct (SFcompare _ _) as [[| |]|]; try discriminate. reflexivity.
Qed.

End FloatCompare.

(** ** Signs, [Math.round] and stores of small integers *)

Section Rounding.

Local Open Scope R_scope.

Lemma SF2R_finite (s : bool) (m : positive) (e : Z) :
  SF2R (S754_finite s m e)
  = if s then - (IZR (Zpos m) * pow2 e) else IZR (Zpos m) * pow2 e.
Proof.
  destruct s; cbn [SF2R cond_Zopp]; [|reflexivity].
  change (- Zpos m)%Z with (Zneg m). change (Zneg m) with (- Zpos m)%Z.
  rewrite opp_IZR. ring.
Qed.

Lemma Prim2SF_zero : Prim2SF zero = S754_zero false.
Proof. reflexivity. Qed.

Lemma get_sign_zero (x : float) (s : bool) :
  Prim2SF x = S754_zero s -> get_sign x = s.
Proof.
  intros Hx. unfold get_sign, is_zero.
  rewrite (FloatAxioms.eqb_spec x zero), Hx, Prim2SF_zero. cbn [SFeqb SFcompare].
  rewrite FloatAxioms.ltb_spec, div_spec, Hx, Prim2SF_zero.
  replace (Prim2SF one) with (S754_finite false 4503599627370496 (-52))
    by (vm_compute; reflexivity).
  destruct s; reflexivity.
Qed.

Lemma get_sign_finite (x : float) (s : bool) (m : positive) (e : Z) :
  Prim2SF x = S754_finite s m e -> get_sign x = s.
Proof.
  intros Hx. unfold get_sign, is_zero.
  rewrite (FloatAxioms.eqb_spec x zero), Hx, Prim2SF_zero.
  replace (SFeqb (S754_finite s m e) (S754_zero false)) with false
    by (destruct s; reflexivity).
  rewrite FloatAxioms.ltb_spec, Hx, Prim2SF_zero. destruct s; reflexivity.
Qed.

(** An integer within a half of [v] is [floor (v + 1/2)]. *)
Lemma round_half_up_near (M n : Z) (k : positive) :
  IZR n - / 2 <= IZR M * pow2 (Zneg k) < IZR n + / 2 ->
  Js.round_half_up M (Zneg k) = n.
Proof.
  intros [Hlo Hhi]. unfold Js.round_half_up.
  rewrite Z.shiftr_div_pow2, Z.shiftl_1_l by lia.
  set (K := (2 ^ Zpos k)%Z).
  assert (HK : (0 < K)%Z) by (subst K; lia).
  assert (HKR : 0 < IZR K) by (apply IZR_lt; exact HK).
  assert (Hp : pow2 (Zneg k) = / IZR K) by reflexivity.
  rewrite Hp in Hlo, Hhi.
  assert (Hlo' : IZR ((2 * n - 1) * K) <= IZR (2 * M)).
  { rewrite !mult_IZR, minus_IZR, mult_IZR.
    apply (Rmult_le_compat_r (2 * IZR K)) in Hlo; [|lra].
    replace (IZR M * / IZR K * (2 * IZR K)) with (2 * IZR M) in Hlo
      by (field; lra).
    lra. }
  assert (Hhi' : IZR (2 * M) < IZR ((2 * n + 1) * K)).
  { rewrite !mult_IZR, plus_IZR, mult_IZR.
    apply (Rmult_lt_compat_r (2 * IZR K)) in Hhi; [|lra].
    replace (IZR M * / IZR K * (2 * IZR K)) with (2 * IZR M) in Hhi
      by (field; lra).
    lra. }
  apply le_IZR in Hlo'. apply lt_IZR in Hhi'.
  replace (2 ^ (Zpos k + 1))%Z with (2 * K)%Z
    by (subst K; rewrite Z.pow_add_r by lia; lia).
  symmetry. apply (Z.div_unique _ _ n (2 * M + K - 2 * K * n)); lia.
Qed.

(** [Math.round] of a Number within a half of the integer [n], for [n]
    a byte: [n] itself, or [-0] when [n = 0] and the Number is negative. *)
Lemma Math_round_near (x : float) (n : Z) :
  Ffin x -> (0 <= n <= 255)%Z ->
  IZR n - / 2 <= FV x < IZR n + / 2 ->
  Js.Math_round x = Js.ofZ n
  \/ (n = 0%Z /\ get_sign x = true /\ Js.Math_round x = neg_zero).
Proof.
  unfold Ffin, FV, Js.Math_round. intros Hfin Hn Hnear.
  pose proof (Prim2SF_valid x) as Hvalid.
  destruct (Prim2SF x) as [s|s| |s m e] eqn:Hx; try discriminate.
  - (* a zero *)
    cbn [SF2R] in Hnear.
    assert (n = 0%Z) as ->.
    { assert (IZR n < IZR 1) by lra. assert (IZR (-1) < IZR n) by lra.
      apply lt_IZR in H, H0. lia. }
    rewrite <- (SF2Prim_Prim2SF x), Hx.
    destruct s; [right|left]; [|reflexivity].
    split; [reflexivity|]. split; [|reflexivity].
    rewrite <- Hx, SF2Prim_Prim2SF. by apply get_sign_zero.
  - destruct e as [|k|k].
    + (* an integral value of 53 digits *)
      exfalso. apply valid_finite in Hvalid as (_ & _ & [|Hd]); [lia|].
      pose proof (mantissa_ge_pow2 m 0) as Hge. rewrite Hd in Hge.
      assert (pow2 (53 - 1 + 0) = 4503599627370496) as E by reflexivity.
      rewrite E in Hge.
      assert (IZR n <= 255) by (apply IZR_le; lia).
      assert (0 <= IZR n) by (apply IZR_le; lia).
      rewrite SF2R_finite in Hnear. destruct s; lra.
    + exfalso. apply valid_finite in Hvalid as (_ & _ & [|Hd]); [lia|].
      pose proof (mantissa_ge_pow2 m (Zpos k)) as Hge. rewrite Hd in Hge.
      assert (pow2 (53 - 1 + 0) <= pow2 (53 - 1 + Zpos k)) as E
        by (apply pow2_le; lia).
      assert (pow2 (53 - 1 + 0) = 4503599627370496) as E' by reflexivity.
      rewrite E' in E.
      assert (IZR n <= 255) by (apply IZR_le; lia).
      assert (0 <= IZR n) by (apply IZR_le; lia).
      rewrite SF2R_finite in Hnear. destruct s; lra.
    + (* fractional bits *)
      cbn [SF2R] in Hnear.
      assert (cond_Zopp s (Zpos m) = if s then Zneg m else Zpos m) as E
        by (by destruct s).
      rewrite E in Hnear.
      rewrite (round_half_up_near _ n k Hnear).
      destruct (Z.eqb_spec n 0) as [->|Hne]; [|by left].
      destruct s; [right|by left].
      split; [reflexivity|]. split; [|reflexivity].
      eapply get_sign_finite. exact Hx.
Qed.

(** Between [-1/2] and [255 + 1/2] every real is within a half of a byte. *)
Lemma nearest_byte (v : R) :
  - / 2 < v < 255 + / 2 ->
  exists n : Z, (0 <= n <= 255)%Z /\ IZR n - / 2 <= v < IZR n + / 2.
Proof.
  intros [Hlo Hhi].
  destruct (archimed (v + / 2)) as [Hup1 Hup2].
  exists (up (v + / 2) - 1)%Z. rewrite minus_IZR.
  split; [|lra].
  assert (IZR (up (v + / 2)) < IZR 257) by lra.
  assert (IZR 0 < IZR (up (v + / 2))) by lra.
  apply lt_IZR in H, H0. lia.
Qed.

End Rounding.

(** ** The round trip through HSL, colour by colour *)

Section RoundTrip.

Local Open Scope R_scope.

Lemma SFhalves_spec (x : spec_float) (k : Z) :
  SFhalves x = Some k -> SFfinite x = true /\ SF2R x = IZR k / 2.
Proof.
  destruct x as [s|s| |s m e]; try discriminate; cbn [SFhalves SFfinite].
  - intros [= <-]. split; [reflexivity|]. cbn [SF2R]. lra.
  - intros H. split; [reflexivity|]. rewrite SF2R_finite.
    assert (Hsign : forall z v, v = IZR z / 2 ->
              (if s then - v else v) = IZR (cond_Zopp s z) / 2).
    { intros z v ->. destruct s; cbn [cond_Zopp]; [rewrite opp_IZR|]; lra. }
    destruct (Z.leb_spec (-1) e) as [He|He].
    + injection H as <-. apply Hsign.
      rewrite mult_IZR, <- pow2_nonneg_exp by lia.
      rewrite pow2_add. change (pow2 1) with 2. field.
    + destruct (Z.eqb_spec (Zpos m mod 2 ^ (- e - 1)) 0) as [Hmod|]; [|discriminate].
      injection H as <-. apply Hsign.
      assert (Hm : Zpos m = (2 ^ (- e - 1) * (Zpos m / 2 ^ (- e - 1)))%Z).
      { rewrite (Z.div_mod (Zpos m) (2 ^ (- e - 1))) at 1 by lia. lia. }
      rewrite Hm at 1. rewrite mult_IZR, <- pow2_nonneg_exp by lia.
      replace (pow2 (- e - 1) * IZR (Zpos m / 2 ^ (- e - 1)) * pow2 e)
        with (IZR (Zpos m / 2 ^ (- e - 1)) * (pow2 (- e - 1) * pow2 e)) by ring.
      rewrite <- pow2_add. replace (- e - 1 + e)%Z with (-1)%Z by lia.
      change (pow2 (-1)) with (/ 2). lra.
Qed.

Lemma In_bytesZ (n : Z) : (0 <= n <= 255)%Z -> In n bytesZ.
Proof.
  intros Hn. change bytesZ with (map Z.of_nat (seq 0 256)).
  apply in_map_iff. exists (Z.to_nat n). split; [lia|].
  apply in_seq. lia.
Qed.

Lemma half_bounds_all : forallb half_bounds_ok bytesZ = true.
Proof. vm_compute. reflexivity. Qed.

Lemma half_bounds (n : Z) :
  (0 <= n <= 255)%Z ->
  Ffin (Js.ofZ n - 0.5) /\ FV (Js.ofZ n - 0.5) = IZR n - / 2
  /\ Ffin (Js.ofZ n + 0.5) /\ FV (Js.ofZ n + 0.5) = IZR n + / 2.
Proof.
  intros Hn. pose proof half_bounds_all as H.
  rewrite forallb_forall in H. specialize (H n (In_bytesZ n Hn)).
  unfold half_bounds_ok in H.
  destruct (SFhalves (Prim2SF (Js.ofZ n - 0.5))) as [lo|] eqn:Elo; [|discriminate].
  destruct (SFhalves (Prim2SF (Js.ofZ n + 0.5))) as [hi|] eqn:Ehi; [|discriminate].
  apply andb_prop in H as [H1 H2]. apply Z.eqb_eq in H1, H2. subst lo hi.
  apply SFhalves_spec in Elo as [Flo Vlo]. apply SFhalves_spec in Ehi as [Fhi Vhi].
  unfold Ffin, FV. rewrite Vlo, Vhi, minus_IZR, plus_IZR, !mult_IZR.
  repeat split; try assumption; lra.
Qed.

(** A Number that [near] accepts rounds to the byte. *)
Lemma near_round (n : Z) (v : float) :
  (0 <= n <= 255)%Z -> near (Js.ofZ n) v = true -> Js.Math_round v = Js.ofZ n.
Proof.
  intros Hn H. unfold near in H.
  apply andb_prop in H as [H Hs]. apply andb_prop in H as [Hlo Hhi].
  apply negb_true_iff in Hs.
  destruct (half_bounds n Hn) as (Flo & Vlo & Fhi & Vhi).
  assert (Fv : Ffin v).
  { apply (Ffin_between (Js.ofZ n - 0.5) (Js.ofZ n + 0.5)); auto using ltb_leb. }
  apply (proj1 (leb_FV _ _ Flo Fv)) in Hlo. apply (proj1 (ltb_FV _ _ Fv Fhi)) in Hhi.
  rewrite Vlo in Hlo. rewrite Vhi in Hhi.
  destruct (Math_round_near v n Fv Hn (conj Hlo Hhi)) as [E|(_ & Hneg & _)];
    [exact E|congruence].
Qed.

Lemma In_bytesF (n : Z) : (0 <= n <= 255)%Z -> In (Js.ofZ n) bytesF.
Proof.
  intros Hn. change bytesF with (map Js.ofZ bytesZ).
  apply in_map. by apply In_bytesZ.
Qed.

Lemma forallb3_spec {A : Type} (P : A -> A -> A -> bool) (l : list A) :
  forallb3 P l = true ->
  forall r g b, In r l -> In g l -> In b l -> P r g b = true.
Proof.
  unfold forallb3. intros H r g b Hr Hg Hb.
  rewrite forallb_forall in H. specialize (H r Hr).
  rewrite forallb_forall in H. specialize (H g Hg).
  rewrite forallb_forall in H. exact (H b Hb).
Qed.

(** All the 16,777,216 colours, by evaluation. *)
Lemma roundtrip_checked : forallb3 roundtrip_ok bytesF = true.
Proof. vm_cast_no_check (eq_refl true). Qed.

Lemma roundtrip_ok_bytes (r g b : Z) :
  (0 <= r <= 255)%Z -> (0 <= g <= 255)%Z -> (0 <= b <= 255)%Z ->
  roundtrip_ok (Js.ofZ r) (Js.ofZ g) (Js.ofZ b) = true.
Proof.
  intros Hr Hg Hb.
  apply (forallb3_spec roundtrip_ok bytesF roundtrip_checked);
    by apply In_bytesF.
Qed.

(** The round trip is exact on every colour. *)
Lemma rgb_hsl_roundtrip_exact (r g b : Z) :
  (0 <= r <= 255)%Z -> (0 <= g <= 255)%Z -> (0 <= b <= 255)%Z ->
  (let '(h, s, l) := rgbToHsl (Js.ofZ r) (Js.ofZ g) (Js.ofZ b) in hslToRgb h s l)
  = (Js.ofZ r, Js.ofZ g, Js.ofZ b).
Proof.
  intros Hr Hg Hb. pose proof (roundtrip_ok_bytes r g b Hr Hg Hb) as H.
  unfold roundtrip_ok, hslToRgb in *.
  destruct (rgbToHsl _ _ _) as [[h s] l].
  destruct (hslChannels h s l) as [[r' g'] b'].
  repeat (apply andb_prop in H as [H ?]).
  rewrite (near_round r), (near_round g), (near_round b) by assumption.
  reflexivity.
Qed.

End RoundTrip.

(** C3: for every colour with channels in [[0,255]], [rgbToHsl]
    followed by [hslToRgb] gives channels that differ from the original
    ones by at most 1 (in fact they are the original ones). *)
Theorem rgb_hsl_roundtrip (r g b : Z) :
  0 <= r <= 255 -> 0 <= g <= 255 -> 0 <= b <= 255 ->
  exists r' g' b' : Z,
    (let '(h, s, l) := rgbToHsl (Js.ofZ r) (Js.ofZ g) (Js.ofZ b) in hslToRgb h s l)
    = (Js.ofZ r', Js.ofZ g', Js.ofZ b')
    /\ Z.abs (r' - r) <= 1 /\ Z.abs (g' - g) <= 1 /\ Z.abs (b' - b) <= 1.
Proof.
  intros Hr Hg Hb. exists r, g, b.
  split; [by apply rgb_hsl_roundtrip_exact|]. lia.
Qed.

Lemma rgb_hsl_roundtrip_witness :
  exists r' g' b' : Z,
    (let '(h, s, l) := rgbToHsl (Js.ofZ 12) (Js.ofZ 200) (Js.ofZ 77) in hslToRgb h s l)
    = (Js.ofZ r', Js.ofZ g', Js.ofZ b')
    /\ Z.abs (r' - 12) <= 1 /\ Z.abs (g' - 200) <= 1 /\ Z.abs (b' - 77) <= 1.
Proof. apply (rgb_hsl_roundtrip 12 200 77); lia. Defined.

(** ** The rounding of [SpecFloat], within a crude error bound *)

Section RoundAux.

Lemma fexp_eq (x : Z) : fexp prec emax x = Z.max (x - 53) (-1074).
Proof. reflexivity. Qed.

Lemma shr_1_m (r : shr_record) :
  0 <= shr_m r -> shr_m (shr_1 r) = shr_m r / 2.
Proof.
  destruct r as [m r s]. cbn [shr_m shr_1]. intros Hm.
  destruct m as [|[p|p|]|p]; cbn [shr_m]; try lia.
  - reflexivity.
  - apply (Z.div_unique (Zpos p~1) 2 (Zpos p) 1); lia.
  - apply (Z.div_unique (Zpos p~0) 2 (Zpos p) 0); lia.
  - reflexivity.
Qed.

Lemma iter_shr_1_m (p : positive) (r : shr_record) :
  0 <= shr_m r ->
  shr_m (SpecFloat.iter_pos shr_1 p r) = shr_m r / 2 ^ Zpos p.
Proof.
  revert r. induction p as [p IH|p IH|]; intros r Hr; cbn [SpecFloat.iter_pos].
  - assert (H1 : 0 <= shr_m (shr_1 r))
      by (rewrite shr_1_m by lia; apply Z.div_pos; lia).
    assert (H2 : 0 <= shr_m (SpecFloat.iter_pos shr_1 p (shr_1 r)))
      by (rewrite IH by lia; apply Z.div_pos; lia).
    rewrite IH, IH, shr_1_m by lia.
    rewrite !Z.div_div by lia. f_equal.
    replace (Zpos p~1) with (1 + Zpos p + Zpos p)%Z by lia.
    rewrite !Z.pow_add_r by lia. change (2 ^ 1) with 2. ring.
  - assert (H2 : 0 <= shr_m (SpecFloat.iter_pos shr_1 p r))
      by (rewrite IH by lia; apply Z.div_pos; lia).
    rewrite IH, IH by lia.
    rewrite !Z.div_div by lia. f_equal.
    replace (Zpos p~0) with (Zpos p + Zpos p)%Z by lia.
    rewrite !Z.pow_add_r by lia. ring.
  - rewrite shr_1_m by lia. reflexivity.
Qed.

Lemma round_nearest_even_bounds (m : Z) (l : location) :
  m <= round_nearest_even m l <= m + 1.
Proof.
  destruct l as [|[| |]]; cbn [round_nearest_even];
    try destruct (Z.even m); lia.
Qed.

Local Open Scope R_scope.

(** One shift to the format's exponent: either nothing moves, or the
    mantissa is truncated at an exponent that is small against the value. *)
Lemma shr_fexp_bound (p : positive) (e : Z) :
  let V := IZR (Zpos p) * pow2 e in
  let '(r, e') := shr_fexp prec emax (Zpos p) e loc_Exact in
  (e' = e /\ r = Build_shr_record (Zpos p) false false)
  \/ ((0 <= shr_m r)%Z
      /\ pow2 e' <= V * pow2 (-52) + pow2 (-1074)
      /\ IZR (shr_m r) * pow2 e' <= V < (IZR (shr_m r) + 1) * pow2 e').
Proof.
  intros V. unfold shr_fexp, shr. cbn [shr_record_of_loc Zdigits2].
  rewrite fexp_eq.
  set (d := Zpos (digits2_pos p)).
  destruct (Z.max (d + e - 53) (-1074) - e)%Z as [|n|n] eqn:Hn;
    [left; split; reflexivity| |left; split; reflexivity].
  right.
  set (e' := (e + Zpos n)%Z).
  assert (He' : e' = Z.max (d + e - 53) (-1074)) by (subst e'; lia).
  rewrite iter_shr_1_m by (cbn; lia). cbn [shr_m].
  set (m' := (Zpos p / 2 ^ Zpos n)%Z).
  assert (Hm' : (0 <= m')%Z) by (subst m'; apply Z.div_pos; lia).
  split; [exact Hm'|].
  pose proof (pow2_pos e) as Hpe.
  split.
  - pose proof (mantissa_ge_pow2 p e) as Hge. fold d in Hge. fold V in Hge.
    pose proof (pow2_pos (-1074)) as Hmin.
    assert (Hprod : pow2 (d - 1 + e) * pow2 (-52) = pow2 (d + e - 53)).
    { rewrite <- pow2_add. f_equal. lia. }
    pose proof (pow2_pos (-52)) as H52.
    pose proof (pow2_pos (d - 1 + e)) as Hd1.
    destruct (Z.max_spec (d + e - 53) (-1074)) as [[_ Hmax]|[_ Hmax]];
      rewrite He', Hmax; [|rewrite <- Hprod];
      generalize dependent (pow2 (-52)); generalize dependent (pow2 (-1074));
      generalize dependent (pow2 (d - 1 + e)); clearbody V; intros; nra.
  - assert (Hpow : pow2 e' = IZR (2 ^ Zpos n) * pow2 e).
    { subst e'. rewrite Z.add_comm, pow2_add. rewrite (pow2_nonneg_exp (Zpos n)) by lia.
      reflexivity. }
    rewrite Hpow.
    pose proof (Z.div_mod (Zpos p) (2 ^ Zpos n) ltac:(lia)) as Hdm.
    pose proof (Z.mod_pos_bound (Zpos p) (2 ^ Zpos n) ltac:(lia)) as Hmod.
    fold m' in Hdm.
    assert (H1 : (m' * 2 ^ Zpos n <= Zpos p)%Z) by lia.
    assert (H2 : (Zpos p < (m' + 1) * 2 ^ Zpos n)%Z) by lia.
    apply IZR_le in H1. apply IZR_lt in H2.
    rewrite mult_IZR in H1. rewrite mult_IZR, plus_IZR in H2.
    subst V. split.
    + replace (IZR m' * (IZR (2 ^ Zpos n) * pow2 e))
        with (IZR m' * IZR (2 ^ Zpos n) * pow2 e) by ring.
      apply Rmult_le_compat_r; lra.
    + replace ((IZR m' + 1) * (IZR (2 ^ Zpos n) * pow2 e))
        with ((IZR m' + 1) * IZR (2 ^ Zpos n) * pow2 e) by ring.
      apply Rmult_lt_compat_r; lra.
Qed.

End RoundAux.

Section RoundAuxBound.

Local Open Scope R_scope.

Lemma pow2_m52 : pow2 (-52) = / 4503599627370496.
Proof. reflexivity. Qed.

Lemma pow2_m1074_small : pow2 (-1074) <= / 1152921504606846976.
Proof.
  assert (pow2 (-1074) <= pow2 (-60)) as H by (apply pow2_le; lia).
  exact H.
Qed.

Lemma pow2_12 : pow2 12 = 4096.
Proof. reflexivity. Qed.

Lemma small_exponent (m : Z) (e : Z) :
  (1 <= m)%Z -> IZR m * pow2 e <= 4000 -> (e <=? emax - prec)%Z = true.
Proof.
  intros Hm Hv. apply Z.leb_le. change (emax - prec)%Z with 971%Z.
  assert (1 <= IZR m) by (apply IZR_le; exact Hm).
  pose proof (pow2_pos e).
  assert (pow2 e <= pow2 12) by (rewrite pow2_12; nra).
  apply pow2_le_inv in H1. lia.
Qed.

(** [binary_round_aux] on an exact input of magnitude at most 2048
    returns a finite number within [eps64] of it. *)
Lemma binary_round_aux_bound (s : bool) (p : positive) (e : Z) :
  let V := IZR (Zpos p) * pow2 e in
  V <= 2048 ->
  let r := binary_round_aux prec emax s (Zpos p) e loc_Exact in
  SFfinite r = true
  /\ - eps64 <= SF2R r - (if s then - V else V) <= eps64.
Proof.
  intros V HV r. subst r. unfold binary_round_aux, eps64.
  assert (HVpos : 0 < V).
  { subst V. pose proof (pow2_pos e). assert (0 < IZR (Zpos p)) by (apply IZR_lt; lia).
    nra. }
  pose proof (shr_fexp_bound p e) as H1. cbv zeta in H1. fold V in H1.
  destruct (shr_fexp prec emax (Zpos p) e loc_Exact) as [r1 e1] eqn:E1.
  pose proof pow2_m1074_small as Hc. rewrite pow2_m52 in H1.
  destruct H1 as [[-> ->]|(Hm1 & Hp1 & Hlo1 & Hhi1)].
  - (* nothing to shift *)
    cbn [shr_m loc_of_shr_record round_nearest_even]. rewrite E1. cbn [shr_m].
    rewrite (small_exponent (Zpos p) e) by (fold V; lia || lra).
    split; [reflexivity|]. rewrite SF2R_finite. fold V. destruct s; lra.
  - pose proof (round_nearest_even_bounds (shr_m r1) (loc_of_shr_record r1)) as Hrne.
    set (m2 := round_nearest_even (shr_m r1) (loc_of_shr_record r1)) in *.
    assert (Hm2lo : IZR (shr_m r1) <= IZR m2) by (apply IZR_le; lia).
    assert (Hm2hi : IZR m2 <= IZR (shr_m r1) + 1)
      by (rewrite <- plus_IZR; apply IZR_le; lia).
    pose proof (pow2_pos e1) as Hpe1.
    set (V2 := IZR m2 * pow2 e1).
    assert (HV2 : V - pow2 e1 <= V2 <= V + pow2 e1) by (subst V2; nra).
    destruct m2 as [|p2|p2] eqn:Em2; [| |lia].
    + (* rounded to zero *)
      assert (Hz : shr_m (fst (shr_fexp prec emax 0 e1 loc_Exact)) = 0%Z).
      { unfold shr_fexp, shr. cbn [shr_record_of_loc Zdigits2].
        destruct (fexp prec emax (0 + e1) - e1)%Z; try reflexivity.
        cbn [fst]. rewrite iter_shr_1_m by (cbn; lia). reflexivity. }
      destruct (shr_fexp prec emax 0 e1 loc_Exact) as [r2 e2]. cbn [fst] in Hz.
      rewrite Hz. split; [reflexivity|]. cbn [SF2R].
      subst V2. destruct s; lra.
    + pose proof (shr_fexp_bound p2 e1) as H2. cbv zeta in H2. fold V2 in H2.
      rewrite pow2_m52 in H2.
      destruct (shr_fexp prec emax (Zpos p2) e1 loc_Exact) as [r2 e2] eqn:E2.
      destruct H2 as [[-> ->]|(Hm3 & Hp2 & Hlo2 & Hhi2)].
      * cbn [shr_m].
        rewrite (small_exponent (Zpos p2) e1) by (fold V2; lia || lra).
        split; [reflexivity|]. rewrite SF2R_finite. fold V2. destruct s; lra.
      * pose proof (pow2_pos e2) as Hpe2.
        destruct (shr_m r2) as [|p3|p3] eqn:Em3; [| |lia].
        -- split; [reflexivity|]. cbn [SF2R]. destruct s; lra.
        -- rewrite (small_exponent (Zpos p3) e2) by (lia || lra).
           split; [reflexivity|]. rewrite SF2R_finite. destruct s; lra.
Qed.

End RoundAuxBound.

(** ** Addition, subtraction and multiplication of Numbers *)

Section Operations.

Local Open Scope R_scope.

Lemma iter_xO_value (m d : positive) :
  Zpos (Pos.iter xO m d) = (Zpos m * 2 ^ Zpos d)%Z.
Proof.
  induction d as [|d IH] using Pos.peano_ind.
  - cbn [Pos.iter]. change (2 ^ 1)%Z with 2%Z. lia.
  - rewrite Pos.iter_succ, Pos2Z.inj_xO, IH, Pos2Z.inj_succ.
    rewrite Z.pow_succ_r by lia. ring.
Qed.

(** Aligning a mantissa to a smaller exponent keeps the value. *)
Lemma shl_align_value (m : positive) (e t : Z) :
  let '(m', e') := shl_align m e t in
  IZR (Zpos m') * pow2 e' = IZR (Zpos m) * pow2 e
  /\ ((t <= e)%Z -> e' = t).
Proof.
  unfold shl_align.
  destruct (t - e)%Z as [|d|d] eqn:Hd.
  - split; [reflexivity|]. lia.
  - split; [reflexivity|]. lia.
  - split; [|lia].
    rewrite iter_xO_value, mult_IZR, <- (pow2_nonneg_exp (Zpos d)) by lia.
    assert (He : e = (Zpos d + t)%Z) by lia.
    rewrite He, pow2_add. ring.
Qed.

Lemma binary_round_bound (s : bool) (m : positive) (e : Z) :
  let V := IZR (Zpos m) * pow2 e in
  V <= 2048 ->
  let r := binary_round prec emax s m e in
  SFfinite r = true /\ - eps64 <= SF2R r - (if s then - V else V) <= eps64.
Proof.
  intros V HV r. subst r. unfold binary_round.
  pose proof (shl_align_value m e (fexp prec emax (Zpos (digits2_pos m) + e))) as Ha.
  destruct (shl_align m e _) as [mz ez]. destruct Ha as [Ha _].
  fold V in Ha.
  pose proof (binary_round_aux_bound s mz ez) as Hb. cbv zeta in Hb.
  rewrite Ha in Hb. exact (Hb HV).
Qed.

Lemma binary_normalize_bound (z e : Z) :
  let V := IZR z * pow2 e in
  - 2048 <= V <= 2048 ->
  let r := binary_normalize prec emax z e false in
  SFfinite r = true /\ - eps64 <= SF2R r - V <= eps64.
Proof.
  intros V HV r. subst r. unfold binary_normalize.
  destruct z as [|p|p].
  - split; [reflexivity|]. subst V. cbn [SF2R]. unfold eps64. lra.
  - apply (binary_round_bound false p e). fold V. lra.
  - pose proof (binary_round_bound true p e) as H. cbv zeta in H.
    assert (E : V = - (IZR (Zpos p) * pow2 e)).
    { subst V. change (Zneg p) with (- Zpos p)%Z. rewrite opp_IZR. ring. }
    rewrite <- E in H. apply H. lra.
Qed.

Lemma aligned_sum (sx sy : bool) (mx my : positive) (ex ey : Z) :
  let ez := Z.min ex ey in
  IZR (cond_Zopp sx (Zpos (fst (shl_align mx ex ez)))) * pow2 ez
  = SF2R (S754_finite sx mx ex)
  /\ IZR (cond_Zopp sy (Zpos (fst (shl_align my ey ez)))) * pow2 ez
     = SF2R (S754_finite sy my ey).
Proof.
  intros ez.
  assert (H : forall s m e, (ez <= e)%Z ->
            IZR (cond_Zopp s (Zpos (fst (shl_align m e ez)))) * pow2 ez
            = SF2R (S754_finite s m e)).
  { intros s m e He. pose proof (shl_align_value m e ez) as Ha.
    destruct (shl_align m e ez) as [m' e']. destruct Ha as [Ha He'].
    rewrite (He' He) in Ha. cbn [fst]. rewrite SF2R_finite.
    destruct s; cbn [cond_Zopp]; [rewrite opp_IZR|]; lra. }
  split; apply H; subst ez; lia.
Qed.

Lemma SFadd_bound (x y : spec_float) :
  SFfinite x = true -> SFfinite y = true ->
  - 2048 <= SF2R x + SF2R y <= 2048 ->
  SFfinite (SF64add x y) = true
  /\ - eps64 <= SF2R (SF64add x y) - (SF2R x + SF2R y) <= eps64.
Proof.
  assert (Heps : 0 <= eps64) by (unfold eps64; lra).
  intros Fx Fy HV.
  destruct x as [sx|sx| |sx mx ex]; try discriminate;
    destruct y as [sy|sy| |sy my ey]; try discriminate.
  - split; [by destruct sx, sy|]. destruct sx, sy; cbn; lra.
  - split; [reflexivity|]. cbn [SF64add SFadd]. cbn [SF2R] in *. lra.
  - split; [reflexivity|]. cbn [SF64add SFadd]. cbn [SF2R] in *. lra.
  - unfold SF64add, SFadd.
    destruct (aligned_sum sx sy mx my ex ey) as [Hx Hy]. cbv zeta in Hx, Hy.
    set (ez := Z.min ex ey) in *.
    set (zx := cond_Zopp sx (Zpos (fst (shl_align mx ex ez)))) in *.
    set (zy := cond_Zopp sy (Zpos (fst (shl_align my ey ez)))) in *.
    pose proof (binary_normalize_bound (zx + zy) ez) as H. cbv zeta in H.
    rewrite plus_IZR, Rmult_plus_distr_r, Hx, Hy in H. apply H. exact HV.
Qed.

Lemma SFsub_bound (x y : spec_float) :
  SFfinite x = true -> SFfinite y = true ->
  - 2048 <= SF2R x - SF2R y <= 2048 ->
  SFfinite (SF64sub x y) = true
  /\ - eps64 <= SF2R (SF64sub x y) - (SF2R x - SF2R y) <= eps64.
Proof.
  assert (Heps : 0 <= eps64) by (unfold eps64; lra).
  intros Fx Fy HV.
  destruct x as [sx|sx| |sx mx ex]; try discriminate;
    destruct y as [sy|sy| |sy my ey]; try discriminate.
  - split; [by destruct sx, sy|]. destruct sx, sy; cbn; lra.
  - split; [reflexivity|]. cbn [SF64sub SFsub].
    rewrite !SF2R_finite in *. cbn [SF2R] in *. destruct sy; cbn [negb]; lra.
  - split; [reflexivity|]. cbn [SF64sub SFsub]. cbn [SF2R] in *. lra.
  - unfold SF64sub, SFsub.
    destruct (aligned_sum sx sy mx my ex ey) as [Hx Hy]. cbv zeta in Hx, Hy.
    set (ez := Z.min ex ey) in *.
    set (zx := cond_Zopp sx (Zpos (fst (shl_align mx ex ez)))) in *.
    set (zy := cond_Zopp sy (Zpos (fst (shl_align my ey ez)))) in *.
    pose proof (binary_normalize_bound (zx - zy) ez) as H. cbv zeta in H.
    rewrite minus_IZR, Rmult_minus_distr_r, Hx, Hy in H. apply H. exact HV.
Qed.

Lemma SFmul_bound (x y : spec_float) :
  SFfinite x = true -> SFfinite y = true ->
  - 2048 <= SF2R x * SF2R y <= 2048 ->
  SFfinite (SF64mul x y) = true
  /\ - eps64 <= SF2R (SF64mul x y) - SF2R x * SF2R y <= eps64.
Proof.
  assert (Heps : 0 <= eps64) by (unfold eps64; lra).
  intros Fx Fy HV.
  destruct x as [sx|sx| |sx mx ex]; try discriminate;
    destruct y as [sy|sy| |sy my ey]; try discriminate;
    try (split; [reflexivity|]; cbn [SF64mul SFmul SF2R]; lra).
  unfold SF64mul, SFmul.
  pose proof (binary_round_aux_bound (xorb sx sy) (mx * my) (ex + ey)) as H.
  cbv zeta in H.
  assert (E : IZR (Zpos (mx * my)) * pow2 (ex + ey)
              = (IZR (Zpos mx) * pow2 ex) * (IZR (Zpos my) * pow2 ey)).
  { rewrite Pos2Z.inj_mul, mult_IZR, pow2_add. ring. }
  rewrite E in H. rewrite !SF2R_finite in *.
  pose proof (pow2_pos ex). pose proof (pow2_pos ey).
  assert (0 < IZR (Zpos mx)) by (apply IZR_lt; lia).
  assert (0 < IZR (Zpos my)) by (apply IZR_lt; lia).
  set (a := IZR (Zpos mx) * pow2 ex) in *.
  set (b := IZR (Zpos my) * pow2 ey) in *.
  assert (0 < a) by (subst a; nra). assert (0 < b) by (subst b; nra).
  assert (0 < a * b) by nra.
  destruct sx, sy; cbn [xorb] in *.
  - replace (- a * - b) with (a * b) in * by ring. apply H. lra.
  - replace (- a * b) with (- (a * b)) in * by ring. apply H. lra.
  - replace (a * - b) with (- (a * b)) in * by ring. apply H. lra.
  - apply H. lra.
Qed.

(** The three operations on finite Numbers whose exact result is at
    most 2048 in magnitude: the result is finite and within [eps64]. *)
Lemma Fadd_bound (x y : float) :
  Ffin x -> Ffin y -> - 2048 <= FV x + FV y <= 2048 ->
  Ffin (x + y) /\ - eps64 <= FV (x + y) - (FV x + FV y) <= eps64.
Proof. unfold Ffin, FV. rewrite add_spec. apply SFadd_bound. Qed.

Lemma Fsub_bound (x y : float) :
  Ffin x -> Ffin y -> - 2048 <= FV x - FV y <= 2048 ->
  Ffin (x - y) /\ - eps64 <= FV (x - y) - (FV x - FV y) <= eps64.
Proof. unfold Ffin, FV. rewrite sub_spec. apply SFsub_bound. Qed.

Lemma Fmul_bound (x y : float) :
  Ffin x -> Ffin y -> - 2048 <= FV x * FV y <= 2048 ->
  Ffin (x * y) /\ - eps64 <= FV (x * y) - FV x * FV y <= eps64.
Proof. unfold Ffin, FV. rewrite mul_spec. apply SFmul_bound. Qed.

End Operations.

(** ** The channels of [hslToRgb] stay in range *)

Section HslRange.

Local Open Scope R_scope.

Ltac fv_const m e K :=
  unfold Ffin, FV;
  match goal with
  | |- context [Prim2SF ?c] =>
      replace (Prim2SF c) with (S754_finite false m e) by (vm_compute; reflexivity)
  end;
  split; [reflexivity|];
  cbn [SF2R cond_Zopp]; change (pow2 e) with (/ K); lra.

Lemma FV_0 : Ffin 0 /\ FV 0 = 0.
Proof.
  unfold Ffin, FV.
  replace (Prim2SF 0) with (S754_zero false) by (vm_compute; reflexivity).
  split; reflexivity.
Qed.

Lemma FV_1 : Ffin 1 /\ FV 1 = 1.
Proof. fv_const 4503599627370496%positive (-52)%Z 4503599627370496. Qed.

Lemma FV_2 : Ffin 2 /\ FV 2 = 2.
Proof. fv_const 4503599627370496%positive (-51)%Z 2251799813685248. Qed.

Lemma FV_6 : Ffin 6 /\ FV 6 = 6.
Proof. fv_const 6755399441055744%positive (-50)%Z 1125899906842624. Qed.

Lemma FV_255 : Ffin 255 /\ FV 255 = 255.
Proof. fv_const 8972014882652160%positive (-45)%Z 35184372088832. Qed.

Lemma FV_half : Ffin 0.5 /\ FV 0.5 = / 2.
Proof. fv_const 4503599627370496%positive (-53)%Z 9007199254740992. Qed.

Lemma FV_1_2 : Ffin (1 / 2) /\ FV (1 / 2) = / 2.
Proof. fv_const 4503599627370496%positive (-53)%Z 9007199254740992. Qed.

Lemma FV_1_3 :
  Ffin (1 / 3) /\ FV (1 / 3) = 6004799503160661 / 18014398509481984.
Proof. fv_const 6004799503160661%positive (-54)%Z 18014398509481984. Qed.

Lemma FV_1_6 :
  Ffin (1 / 6) /\ FV (1 / 6) = 6004799503160661 / 36028797018963968.
Proof. fv_const 6004799503160661%positive (-55)%Z 36028797018963968. Qed.

Lemma FV_2_3 :
  Ffin (2 / 3) /\ FV (2 / 3) = 6004799503160661 / 9007199254740992.
Proof. fv_const 6004799503160661%positive (-53)%Z 9007199254740992. Qed.

Lemma V_1 : FV 1 = 1. Proof. apply FV_1. Qed.
Lemma V_2 : FV 2 = 2. Proof. apply FV_2. Qed.
Lemma V_6 : FV 6 = 6. Proof. apply FV_6. Qed.
Lemma V_255 : FV 255 = 255. Proof. apply FV_255. Qed.

Ltac fv_consts := rewrite ?V_1, ?V_2, ?V_6, ?V_255.
Ltac fv_consts_in H := rewrite ?V_1, ?V_2, ?V_6, ?V_255 in H.

(** The product of two reals that are at most slightly negative. *)
Lemma prod_bounds (x y a A b B : R) :
  - a <= x <= A -> - b <= y <= B ->
  0 <= a -> 0 <= A -> 0 <= b -> 0 <= B ->
  - (a * B + A * b) <= x * y <= A * B + a * b.
Proof.
  intros Hx Hy Ha HA Hb HB.
  destruct (Rle_or_lt 0 x) as [Hx0|Hx0]; destruct (Rle_or_lt 0 y) as [Hy0|Hy0];
    split; nra.
Qed.

Ltac ltb_cases x y Fx Fy H :=
  destruct (x <? y)%float eqn:H;
  [apply (proj1 (ltb_FV x y Fx Fy)) in H
  |apply (ltb_false_FV x y Fx Fy) in H].

Lemma hue2rgb_bound (p q t : float) :
  Ffin p -> Ffin q -> Ffin t ->
  - slack_in <= FV p -> FV p <= FV q + slack_in -> FV q <= 1 + slack_in ->
  - / 2 <= FV t <= 3 / 2 ->
  Ffin (hue2rgb p q t)
  /\ - slack_out <= FV (hue2rgb p q t) <= 1 + slack_out.
Proof.
  intros Fp Fq Ft Hp Hpq Hq Ht.
  destruct FV_0 as [F0 V0]. destruct FV_1 as [F1 V1]. destruct FV_6 as [F6 V6].
  destruct FV_1_6 as [F16 V16]. destruct FV_1_2 as [F12 V12].
  destruct FV_2_3 as [F23 V23].
  unfold slack_in, slack_out in *.
  unfold hue2rgb.
  (* t < 0 ? t + 1 : t *)
  set (t1 := if (t <? 0)%float then (t + 1)%float else t).
  assert (Ht1 : Ffin t1 /\ 0 <= FV t1 <= 3 / 2).
  { subst t1. ltb_cases t 0%float Ft F0 Hb.
    - destruct (Fadd_bound t 1 Ft F1) as [Fa Va]; [lra|].
      unfold eps64 in Va. split; [exact Fa|lra].
    - split; [exact Ft|lra]. }
  clearbody t1. destruct Ht1 as [Ft1 Vt1].
  (* t > 1 ? t - 1 : t *)
  set (t2 := if (1 <? t1)%float then (t1 - 1)%float else t1).
  assert (Ht2 : Ffin t2 /\ - eps64 <= FV t2 <= 1).
  { subst t2. ltb_cases 1%float t1 F1 Ft1 Hb.
    - destruct (Fsub_bound t1 1 Ft1 F1) as [Fa Va]; [lra|].
      unfold eps64 in *. split; [exact Fa|lra].
    - unfold eps64. split; [exact Ft1|lra]. }
  clearbody t2. destruct Ht2 as [Ft2 Vt2]. unfold eps64 in Vt2.
  (* q - p, used by two branches *)
  destruct (Fsub_bound q p Fq Fp) as [Fd Vd]; [lra|]. unfold eps64 in Vd.
  ltb_cases t2 (1 / 6)%float Ft2 F16 Hb1.
  - (* p + (q - p) * 6 * t *)
    destruct (Fmul_bound (q - p) 6 Fd F6) as [Fd6 Vd6]; [fv_consts; lra|].
    unfold eps64 in Vd6. fv_consts_in Vd6.
    pose proof (prod_bounds (FV ((q - p) * 6)) (FV t2)
                  (/ 1000000000) (6 * (FV q - FV p) + / 1000000000)
                  (/ 549755813888) (/ 6)) as Hprod.
    destruct Hprod as [Hlo Hhi]; try lra.
    destruct (Fmul_bound ((q - p) * 6) t2 Fd6 Ft2) as [Fx Vx]; [lra|].
    unfold eps64 in Vx.
    destruct (Fadd_bound p ((q - p) * 6 * t2) Fp Fx) as [Fr Vr]; [lra|].
    unfold eps64 in Vr. split; [exact Fr|lra].
  - ltb_cases t2 (1 / 2)%float Ft2 F12 Hb2.
    + (* q *) split; [exact Fq|lra].
    + ltb_cases t2 (2 / 3)%float Ft2 F23 Hb3.
      * (* p + (q - p) * (2/3 - t) * 6 *)
        destruct (Fsub_bound (2 / 3) t2 F23 Ft2) as [Fu Vu]; [lra|].
        unfold eps64 in Vu.
        pose proof (prod_bounds (FV (q - p)) (FV (2 / 3 - t2))
                      (/ 5000000000) (FV q - FV p + / 5000000000)
                      (/ 549755813888) (/ 6 + / 549755813888)) as Hprod.
        destruct Hprod as [Hlo Hhi]; try lra.
        destruct (Fmul_bound (q - p) (2 / 3 - t2) Fd Fu) as [Fy Vy]; [lra|].
        unfold eps64 in Vy.
        destruct (Fmul_bound ((q - p) * (2 / 3 - t2)) 6 Fy F6) as [Fz Vz];
          [fv_consts; lra|].
        unfold eps64 in Vz. fv_consts_in Vz.
        destruct (Fadd_bound p ((q - p) * (2 / 3 - t2) * 6) Fp Fz) as [Fr Vr]; [lra|].
        unfold eps64 in Vr. split; [exact Fr|lra].
      * (* p *) split; [exact Fp|lra].
Qed.

Lemma hslChannels_bound (h s l : float) :
  Ffin h -> Ffin s -> Ffin l ->
  0 <= FV h <= 1 -> 0 <= FV s <= 1 -> 0 <= FV l <= 1 ->
  let '(r, g, b) := hslChannels h s l in
  (Ffin r /\ - slack_out <= FV r <= 1 + slack_out)
  /\ (Ffin g /\ - slack_out <= FV g <= 1 + slack_out)
  /\ (Ffin b /\ - slack_out <= FV b <= 1 + slack_out).
Proof.
  intros Fh Fs Fl Hh Hs Hl.
  destruct FV_0 as [F0 V0]. destruct FV_1 as [F1 _]. destruct FV_2 as [F2 _].
  destruct FV_half as [F05 V05]. destruct FV_1_3 as [F13 V13].
  unfold hslChannels.
  destruct (s =? 0)%float.
  { unfold slack_out. repeat split; try assumption; lra. }
  set (q := if (l <? 0.5)%float then (l * (1 + s))%float
            else (l + s - l * s)%float).
  assert (Hq : Ffin q
               /\ FV l - 5 * eps64 <= FV q
               /\ FV q <= 2 * FV l + 5 * eps64
               /\ FV q <= 1 + 5 * eps64).
  { subst q. ltb_cases l 0.5%float Fl F05 Hb.
    - destruct (Fadd_bound 1 s F1 Fs) as [Fa Va]; [fv_consts; lra|].
      fv_consts_in Va. unfold eps64 in *.
      assert (FV l * (1 - / 549755813888) <= FV l * FV (1 + s)) by nra.
      assert (FV l * FV (1 + s) <= FV l * (2 + / 549755813888)) by nra.
      destruct (Fmul_bound l (1 + s) Fl Fa) as [Fq Vq]; [lra|].
      unfold eps64 in *. repeat split; try assumption; lra.
    - destruct (Fadd_bound l s Fl Fs) as [Fb Vb]; [lra|].
      assert (0 <= FV l * FV s) by nra.
      assert (FV l * FV s <= FV s) by nra.
      assert (FV l + FV s - FV l * FV s <= 1) by nra.
      destruct (Fmul_bound l s Fl Fs) as [Fc Vc]; [lra|].
      unfold eps64 in *.
      destruct (Fsub_bound (l + s) (l * s) Fb Fc) as [Fq Vq]; [lra|].
      unfold eps64 in *. repeat split; try assumption; lra. }
  clearbody q. destruct Hq as (Fq & Hq1 & Hq2 & Hq3).
  destruct (Fmul_bound 2 l F2 Fl) as [Fl2 Vl2]; [fv_consts; lra|].
  fv_consts_in Vl2.
  destruct (Fsub_bound (2 * l) q Fl2 Fq) as [Fp Vp]; [unfold eps64 in *; lra|].
  unfold eps64 in *.
  destruct (Fadd_bound h (1 / 3) Fh F13) as [Ft1 Vt1]; [lra|].
  destruct (Fsub_bound h (1 / 3) Fh F13) as [Ft3 Vt3]; [lra|].
  unfold eps64 in *.
  split; [|split]; apply hue2rgb_bound; try assumption; unfold slack_in; lra.
Qed.

(** A channel in range, times 255, rounds to a byte; [-0] can stand
    for the byte 0. *)
Lemma channel_round (c : float) :
  Ffin c -> - slack_out <= FV c <= 1 + slack_out ->
  exists n : Z,
    (0 <= n <= 255)%Z
    /\ (Js.Math_round (c * 255) = Js.ofZ n
        \/ (n = 0%Z /\ Js.Math_round (c * 255) = neg_zero)).
Proof.
  intros Fc Hc. destruct FV_255 as [F255 _]. unfold slack_out in Hc.
  destruct (Fmul_bound c 255 Fc F255) as [Fx Vx]; [fv_consts; lra|].
  fv_consts_in Vx. unfold eps64 in Vx.
  destruct (nearest_byte (FV (c * 255))) as (n & Hn & Hnear); [lra|].
  exists n. split; [exact Hn|].
  destruct (Math_round_near (c * 255) n Fx Hn Hnear) as [E|(E0 & _ & E)];
    [by left|by right].
Qed.

End HslRange.

(** ** The blend at mask alpha 255 *)

Section FullMask.

Local Open Scope R_scope.

Lemma forallb2_spec {A : Type} (P : A -> A -> bool) (l : list A) :
  forallb2 P l = true -> forall r n, In r l -> In n l -> P r n = true.
Proof.
  unfold forallb2. intros H r n Hr Hn.
  rewrite forallb_forall in H. specialize (H r Hr).
  rewrite forallb_forall in H. exact (H n Hn).
Qed.

Lemma store_checked : forallb2 store_ok bytesZ = true.
Proof. vm_compute. reflexivity. Qed.

Lemma Z_of_byte_range (b : byte) : (0 <= Z_of_byte b <= 255)%Z.
Proof.
  unfold Z_of_byte. pose proof (Byte.to_N_bounded b). lia.
Qed.

Lemma byte_of_Z_of_byte (b : byte) : byte_of_Z (Z_of_byte b) = b.
Proof.
  unfold byte_of_Z, Z_of_byte. rewrite N2Z.id, Byte.of_to_N. reflexivity.
Qed.

Lemma in_unit_spec (x : float) :
  in_unit x = true -> Ffin x /\ 0 <= FV x <= 1.
Proof.
  unfold in_unit. intros H. apply andb_prop in H as [H0 H1].
  destruct FV_0 as [F0 V0]. destruct FV_1 as [F1 V1].
  assert (Fx : Ffin x) by (apply (Ffin_between 0 1); assumption).
  apply (proj1 (leb_FV _ _ F0 Fx)) in H0. apply (proj1 (leb_FV _ _ Fx F1)) in H1.
  split; [exact Fx|lra].
Qed.

(** On a colour of bytes, the components of [rgbToHsl] lie in [[0,1]]. *)
Lemma rgbToHsl_unit (r g b : Z) :
  (0 <= r <= 255)%Z -> (0 <= g <= 255)%Z -> (0 <= b <= 255)%Z ->
  let '(h, s, l) := rgbToHsl (Js.ofZ r) (Js.ofZ g) (Js.ofZ b) in
  in_unit h = true /\ in_unit s = true /\ in_unit l = true.
Proof.
  intros Hr Hg Hb. pose proof (roundtrip_ok_bytes r g b Hr Hg Hb) as H.
  unfold roundtrip_ok in H.
  destruct (rgbToHsl _ _ _) as [[h s] l].
  destruct (hslChannels h s l) as [[r' g'] b'].
  do 5 (apply andb_prop in H as [H ?]). repeat split; assumption.
Qed.

Lemma hexToRgb_bytes (hex : string) :
  let '(r, g, b) := hexToRgb hex in
  (0 <= r <= 255)%Z /\ (0 <= g <= 255)%Z /\ (0 <= b <= 255)%Z.
Proof.
  unfold hexToRgb.
  assert (H : forall x, (0 <= Z.land x 255 <= 255)%Z).
  { intros x.
    assert (E : Z.land x 255 = (x mod 256)%Z).
    { change 255%Z with (Z.ones 8). rewrite Z.land_ones by lia. reflexivity. }
    rewrite E. pose proof (Z.mod_pos_bound x 256 ltac:(lia)). lia. }
  repeat split; apply H.
Qed.

(** [hslToRgb] on components in [[0,1]] returns three bytes. *)
Lemma hslToRgb_bytes (h s l : float) :
  in_unit h = true -> in_unit s = true -> in_unit l = true ->
  exists nR nG nB : Z,
    ((0 <= nR <= 255)%Z /\ (0 <= nG <= 255)%Z /\ (0 <= nB <= 255)%Z)
    /\ let '(newR, newG, newB) := hslToRgb h s l in
       (newR = Js.ofZ nR \/ (nR = 0%Z /\ newR = neg_zero))
       /\ (newG = Js.ofZ nG \/ (nG = 0%Z /\ newG = neg_zero))
       /\ (newB = Js.ofZ nB \/ (nB = 0%Z /\ newB = neg_zero)).
Proof.
  intros Hh Hs Hl.
  apply in_unit_spec in Hh as [Fh Vh]. apply in_unit_spec in Hs as [Fs Vs].
  apply in_unit_spec in Hl as [Fl Vl].
  pose proof (hslChannels_bound h s l Fh Fs Fl Vh Vs Vl) as Hc.
  unfold hslToRgb. destruct (hslChannels h s l) as [[cr cg] cb].
  destruct Hc as ((Fr & Vr) & (Fg & Vg) & (Fb & Vb)).
  destruct (channel_round cr Fr Vr) as (nR & HnR & ER).
  destruct (channel_round cg Fg Vg) as (nG & HnG & EG).
  destruct (channel_round cb Fb Vb) as (nB & HnB & EB).
  exists nR, nG, nB. repeat split; try lia; assumption.
Qed.

(** Storing the blend of a byte with such a channel, all of the
    channel's weight, keeps the channel. *)
Lemma store_full_blend (rb : byte) (x : float) (n : Z) :
  (0 <= n <= 255)%Z ->
  x = Js.ofZ n \/ (n = 0%Z /\ x = neg_zero) ->
  let stored := storeNum (lerp (numOfByte rb) x (Js.ofZ 255 / 255)) in
  sameNumber x (numOfByte stored) /\ stored = byte_of_Z n.
Proof.
  intros Hn Hx.
  pose proof (forallb2_spec store_ok bytesZ store_checked (Z_of_byte rb) n
                (In_bytesZ _ (Z_of_byte_range rb)) (In_bytesZ _ Hn)) as H.
  unfold store_ok in H. cbv zeta in H.
  apply andb_prop in H as [H H4]. apply andb_prop in H as [H H3].
  apply andb_prop in H as [H1 H2].
  apply Z.eqb_eq in H1, H2.
  unfold sameNumber, numOfByte.
  destruct Hx as [->|[-> ->]].
  - assert (E : storeNum (lerp (Js.ofZ (Z_of_byte rb)) (Js.ofZ n) (Js.ofZ 255 / 255))
                = byte_of_Z n).
    { rewrite <- (byte_of_Z_of_byte (storeNum _)). f_equal. exact H1. }
    cbv zeta. rewrite E, H2. split; [exact H3|reflexivity].
  - change (0 =? 0)%Z with true in H4. cbv iota in H4.
    apply andb_prop in H4 as [H5 H6]. apply Z.eqb_eq in H5.
    assert (E : storeNum (lerp (Js.ofZ (Z_of_byte rb)) neg_zero (Js.ofZ 255 / 255))
                = byte_of_Z 0).
    { rewrite <- (byte_of_Z_of_byte (storeNum _)). f_equal. exact H5. }
    cbv zeta. rewrite E, H2. split; [exact H6|reflexivity].
Qed.

End FullMask.

(** * Properties *)

(** ** The recolouring loop writes pixel by pixel *)

Section LoopFacts.

Variables (hT sT : float) (maskData : list byte).

Local Notation "'body'" := (applyColor_body hT sT maskData).

Lemma body_length (data : list byte) (i : nat) :
  length (body data i) = length data.
Proof.
  unfold applyColor_body.
  destruct (0 <? readNum maskData (i + 3))%float; [|done].
  destruct (rgbToHsl _ _ _) as [[h s] l].
  destruct (hslToRgb hT sT l) as [[newR newG] newB].
  by rewrite !length_insert.
Qed.

(** An iteration leaves every byte outside its three colour channels. *)
Lemma body_lookup_ne (data : list byte) (i j : nat) :
  j ≠ i -> j ≠ (i + 1)%nat -> j ≠ (i + 2)%nat ->
  body data i !! j = data !! j.
Proof.
  intros H0 H1 H2. unfold applyColor_body.
  destruct (0 <? readNum maskData (i + 3))%float; [|done].
  destruct (rgbToHsl _ _ _) as [[h s] l].
  destruct (hslToRgb hT sT l) as [[newR newG] newB].
  rewrite !list_lookup_insert_ne by lia. done.
Qed.

(** Where the mask is transparent the iteration does nothing. *)
Lemma body_masked_out (data : list byte) (i : nat) :
  maskData !! (i + 3)%nat = Some x00 -> body data i = data.
Proof.
  intros Hm. unfold applyColor_body, readNum. rewrite Hm.
  replace (0 <? Js.ofZ (Z_of_byte x00))%float with false by (by vm_compute).
  done.
Qed.

Lemma readNum_ext (a a' : list byte) (i : nat) :
  a !! i = a' !! i -> readNum a i = readNum a' i.
Proof. unfold readNum. by intros ->. Qed.

(** An iteration reads only the three colour channels of its own pixel. *)
Lemma body_local (data data' : list byte) (i j : nat) :
  data !! i = data' !! i ->
  data !! (i + 1)%nat = data' !! (i + 1)%nat ->
  data !! (i + 2)%nat = data' !! (i + 2)%nat ->
  data !! j = data' !! j ->
  body data i !! j = body data' i !! j.
Proof.
  intros E0 E1 E2 Ej. unfold applyColor_body.
  rewrite (readNum_ext _ _ _ E0), (readNum_ext _ _ _ E1), (readNum_ext _ _ _ E2).
  destruct (0 <? readNum maskData (i + 3))%float; [|done].
  destruct (rgbToHsl _ _ _) as [[h s] l].
  destruct (hslToRgb hT sT l) as [[newR newG] newB].
  assert (Hlen : forall (a a' : list byte) (n : nat),
             a !! n = a' !! n -> (n < length a)%nat <-> (n < length a')%nat).
  { intros a a' n E. rewrite <- !lookup_lt_is_Some, E. done. }
  rewrite !list_lookup_insert, !length_insert.
  repeat case_decide; try done;
    repeat match goal with H : _ ∧ _ |- _ => destruct H end; subst;
    exfalso;
    repeat match goal with
      | H : ¬ (_ ∧ _) |- _ => apply not_and_l in H; destruct H
      end; try lia;
    match goal with
    | H : ¬ (?n < length ?a)%nat, H' : (?n < length ?b)%nat |- _ =>
        apply H; eapply Hlen; [|exact H']; done
    end.
Qed.

(** Byte [j] after the loop over the pixels [ks]: what the iteration of
    its own pixel makes of the original buffer, or the original byte. *)
Lemma loop_lookup (ks : list nat) (data : list byte) (j : nat) :
  NoDup ks ->
  fold_left body (map (fun k => (4 * k)%nat) ks) data !! j
  = if decide ((j / 4)%nat ∈ ks) then body data (4 * (j / 4))%nat !! j
    else data !! j.
Proof.
  intros Hnd. revert data. induction Hnd as [|k ks Hk Hnd IH]; intros data.
  - done.
  - cbn [map fold_left]. rewrite IH.
    pose proof (Nat.div_mod_eq j 4) as Hj.
    pose proof (Nat.mod_upper_bound j 4 ltac:(lia)) as Hr.
    destruct (decide ((j / 4)%nat = k)) as [<-|Hne].
    + rewrite decide_False by done.
      rewrite decide_True by (left; done). done.
    + case_decide as Hin.
      * rewrite decide_True by (by right).
        apply body_local; apply body_lookup_ne; lia.
      * rewrite decide_False by (intros [?|?]%elem_of_cons; done).
        apply body_lookup_ne; lia.
Qed.

Lemma loop_lookup_all (data : list byte) (j : nat) :
  applyColor_loop hT sT maskData data !! j
  = body data (4 * (j / 4))%nat !! j.
Proof.
  unfold applyColor_loop, pixelOffsets.
  rewrite loop_lookup by apply NoDup_seq.
  pose proof (Nat.div_mod_eq j 4) as Hj.
  pose proof (Nat.mod_upper_bound j 4 ltac:(lia)) as Hr.
  case_decide as Hin; [done|].
  rewrite elem_of_seq in Hin.
  assert (length data <= j)%nat as Hge.
  { destruct (decide (j < length data)%nat) as [Hlt|]; [|lia].
    exfalso. apply Hin.
    pose proof (Nat.div_mod_eq (length data + 3) 4).
    pose proof (Nat.mod_upper_bound (length data + 3) 4 ltac:(lia)). lia. }
  rewrite (lookup_ge_None_2 data j Hge).
  symmetry. apply lookup_ge_None_2. rewrite body_length. lia.
Qed.

Lemma loop_length (data : list byte) :
  length (applyColor_loop hT sT maskData data) = length data.
Proof.
  unfold applyColor_loop. generalize (pixelOffsets (length data)).
  intros offs. revert data. induction offs as [|i offs IH]; intros data; [done|].
  simpl. rewrite IH. apply body_length.
Qed.

End LoopFacts.

(** ** Pixels the mask leaves alone, and the alpha channel *)

(** C2: at a pixel whose mask alpha is 0 the output pixel of the
    recolouring is the source pixel, all four channels unchanged. *)
Theorem recolor_mask_zero (hex : string) (maskData data : list byte) (k : nat) :
  alphaAt maskData k = Some x00 ->
  pixelAt (recolor hex maskData data) k = pixelAt data k.
Proof.
  intros Hm. unfold recolor. destruct (targetHsl hex) as [[hT sT] lT].
  assert (Hpix : forall c, (c < 4)%nat ->
            applyColor_loop hT sT maskData data !! (4 * k + c)%nat
            = data !! (4 * k + c)%nat).
  { intros c Hc. rewrite loop_lookup_all.
    replace ((4 * k + c) / 4)%nat with k
      by (apply (Nat.div_unique _ 4 k c); lia).
    rewrite body_masked_out; [done|]. exact Hm. }
  unfold pixelAt.
  pose proof (Hpix 0%nat ltac:(lia)) as H0. rewrite Nat.add_0_r in H0.
  rewrite H0, !Hpix by lia. done.
Qed.

Lemma recolor_mask_zero_witness :
  pixelAt (recolor "#336699" [x00; x00; x00; x00] [x0a; x14; x1e; xff]) 0
  = pixelAt [x0a; x14; x1e; xff] 0.
Proof. apply recolor_mask_zero. reflexivity. Defined.

(** C10: the recolouring never writes an alpha channel: every output
    pixel has the alpha of the source pixel. *)
Theorem recolor_alpha (hex : string) (maskData data : list byte) (k : nat) :
  alphaAt (recolor hex maskData data) k = alphaAt data k.
Proof.
  unfold recolor, alphaAt. destruct (targetHsl hex) as [[hT sT] lT].
  rewrite loop_lookup_all.
  replace ((4 * k + 3) / 4)%nat with k
    by (apply (Nat.div_unique _ 4 k 3); lia).
  apply body_lookup_ne; lia.
Qed.

(** The output buffer has the size of the source buffer. *)
Lemma recolor_length (hex : string) (maskData data : list byte) :
  length (recolor hex maskData data) = length data.
Proof.
  unfold recolor. destruct (targetHsl hex) as [[hT sT] lT]. apply loop_length.
Qed.

(** C5: a grey source pixel (100, 100, 100) painted with [#FF0000]
    (hue 0, saturation 1) under mask alpha 255 becomes
    [hslToRgb(0, 1, 100/255)], which is the red (200, 0, 0); the alpha
    of the pixel stays. *)
Theorem recolor_grey_with_red (a m0 m1 m2 : byte) :
  targetHsl "#FF0000" = (0, 1, 0.5)%float
  /\ rgbToHsl 100 100 100 = (0, 0, 100 / 255)%float
  /\ hslToRgb 0 1 (100 / 255) = (200, 0, 0)%float
  /\ recolor "#FF0000" [m0; m1; m2; xff] [x64; x64; x64; a]
     = [xc8; x00; x00; a].
Proof. repeat split; vm_compute; reflexivity. Qed.

(** ** Pixels the mask covers fully *)

Lemma body_full_mask (hT sT : float) (maskData data : list byte) (i : nat)
    (r g b : byte) (h s l newR newG newB : float) :
  maskData !! (i + 3)%nat = Some xff ->
  data !! i = Some r -> data !! (i + 1)%nat = Some g ->
  data !! (i + 2)%nat = Some b ->
  rgbToHsl (numOfByte r) (numOfByte g) (numOfByte b) = (h, s, l) ->
  hslToRgb hT sT l = (newR, newG, newB) ->
  let out := applyColor_body hT sT maskData data i in
  let t := (Js.ofZ 255 / 255)%float in
  out !! i = Some (storeNum (lerp (numOfByte r) newR t))
  /\ out !! (i + 1)%nat = Some (storeNum (lerp (numOfByte g) newG t))
  /\ out !! (i + 2)%nat = Some (storeNum (lerp (numOfByte b) newB t)).
Proof.
  intros Hm Hr Hg Hb Ehsl Ergb out t. subst out t.
  unfold applyColor_body, readNum. rewrite Hm, Hr, Hg, Hb.
  replace (0 <? Js.ofZ (Z_of_byte xff))%float with true by (by vm_compute).
  fold (numOfByte r) (numOfByte g) (numOfByte b). rewrite Ehsl, Ergb.
  change (Z_of_byte xff) with 255.
  apply lookup_lt_Some in Hr, Hg, Hb.
  rewrite !list_lookup_insert, !length_insert.
  repeat split.
  - rewrite decide_False by lia. rewrite decide_False by lia.
    rewrite decide_True by lia. reflexivity.
  - rewrite decide_False by lia. rewrite decide_True by lia. reflexivity.
  - rewrite decide_True by lia. reflexivity.
Qed.

(** C1: at a pixel whose mask alpha is 255, the output pixel is
    [hslToRgb(hT, sT, l)], with [hT] and [sT] the hue and saturation of
    the target colour and [l] the lightness of the source pixel; the
    alpha of the pixel stays.  The channels of [hslToRgb] are bytes, so
    that the store keeps them as they are. *)
Theorem recolor_mask_full (hex : string) (maskData data : list byte) (k : nat)
    (r g b a : byte) :
  alphaAt maskData k = Some xff ->
  pixelAt data k = Some (r, g, b, a) ->
  let '(hT, sT, _) := targetHsl hex in
  let '(_, _, l) := rgbToHsl (numOfByte r) (numOfByte g) (numOfByte b) in
  exists r' g' b' : byte,
    pixelAt (recolor hex maskData data) k = Some (r', g', b', a)
    /\ sameRgb (hslToRgb hT sT l) (numOfByte r', numOfByte g', numOfByte b').
Proof.
  intros Hm Hp. unfold recolor.
  (* the target colour *)
  assert (HT : let '(hT, sT, _) := targetHsl hex in
               in_unit hT = true /\ in_unit sT = true).
  { unfold targetHsl. pose proof (hexToRgb_bytes hex) as Hb.
    destruct (hexToRgb hex) as [[rT gT] bT]. destruct Hb as (H1 & H2 & H3).
    pose proof (rgbToHsl_unit rT gT bT H1 H2 H3) as Hu.
    destruct (rgbToHsl _ _ _) as [[hT sT] lT]. tauto. }
  destruct (targetHsl hex) as [[hT sT] lT]. destruct HT as [HhT HsT].
  (* the source pixel *)
  pose proof (rgbToHsl_unit _ _ _ (Z_of_byte_range r) (Z_of_byte_range g)
                (Z_of_byte_range b)) as Hu.
  fold (numOfByte r) (numOfByte g) (numOfByte b) in Hu.
  destruct (rgbToHsl (numOfByte r) (numOfByte g) (numOfByte b))
    as [[h s] l] eqn:Ehsl.
  destruct Hu as (_ & _ & Hl).
  destruct (hslToRgb_bytes hT sT l HhT HsT Hl) as (nR & nG & nB & Hn & Hnew).
  destruct (hslToRgb hT sT l) as [[newR newG] newB] eqn:Ergb.
  destruct Hn as (HnR & HnG & HnB). destruct Hnew as (ER & EG & EB).
  (* the four bytes of the pixel *)
  unfold pixelAt in Hp.
  destruct (data !! (4 * k)%nat) as [r0|] eqn:L0; [|discriminate].
  destruct (data !! (4 * k + 1)%nat) as [g0|] eqn:L1; [|discriminate].
  destruct (data !! (4 * k + 2)%nat) as [b0|] eqn:L2; [|discriminate].
  destruct (data !! (4 * k + 3)%nat) as [a0|] eqn:L3; [|discriminate].
  injection Hp as -> -> -> ->.
  destruct (body_full_mask hT sT maskData data (4 * k) r g b h s l
              newR newG newB Hm L0 L1 L2 Ehsl Ergb) as (B0 & B1 & B2).
  assert (Hdiv : forall c, (c < 4)%nat -> ((4 * k + c) / 4)%nat = k).
  { intros c Hc. symmetry. apply (Nat.div_unique _ 4 k c); lia. }
  destruct (store_full_blend r newR nR HnR ER) as [SR _].
  destruct (store_full_blend g newG nG HnG EG) as [SG _].
  destruct (store_full_blend b newB nB HnB EB) as [SB _].
  cbv zeta in SR, SG, SB.
  eexists _, _, _. split; [|repeat split; [exact SR|exact SG|exact SB]].
  unfold pixelAt. rewrite !loop_lookup_all, !Hdiv by lia.
  pose proof (Hdiv 0%nat ltac:(lia)) as Hdiv0. rewrite Nat.add_0_r in Hdiv0.
  rewrite Hdiv0, B0, B1, B2.
  rewrite body_lookup_ne by lia. rewrite L3. reflexivity.
Qed.

Lemma recolor_mask_full_witness :
  let '(hT, sT, _) := targetHsl "#336699" in
  let '(_, _, l) := rgbToHsl (numOfByte x0a) (numOfByte x14) (numOfByte x1e) in
  exists r' g' b' : byte,
    pixelAt (recolor "#336699" [x00; x00; x00; xff] [x0a; x14; x1e; x80]) 0
    = Some (r', g', b', x80)
    /\ sameRgb (hslToRgb hT sT l) (numOfByte r', numOfByte g', numOfByte b').
Proof.
  exact (recolor_mask_full "#336699" [x00; x00; x00; xff]
           [x0a; x14; x1e; x80] 0 x0a x14 x1e x80 eq_refl eq_refl).
Defined.

(** ** The session: guards, errors and invalidation *)

Section PageFacts.

Context {Image File : Type}.
Variable imgWidth imgHeight : Image -> Z.
Variable loadFile : File -> option Image.
Variable decodeImage : string -> option Image.
Variable drawImage drawImageBlurred : Image -> float -> float -> Canvas -> list byte.

Local Notation "'St'" := (State Image File).
Local Notation "'apply_'" := (applyColor drawImage).
Local Notation "'mask_'" := (handleMasking decodeImage drawImage drawImageBlurred).
Local Notation "'request_'" := (requestMask decodeImage drawImage drawImageBlurred).
Local Notation "'upload_'" := (handleImageUpload imgWidth imgHeight loadFile drawImage).
Local Notation "'step_'" :=
  (step imgWidth imgHeight loadFile decodeImage drawImage drawImageBlurred).
Local Notation "'run_'" :=
  (run imgWidth imgHeight loadFile decodeImage drawImage drawImageBlurred).
Local Notation "'loopStep_'" :=
  (loopStep imgWidth imgHeight loadFile decodeImage drawImage drawImageBlurred).
Local Notation "'loopRun_'" :=
  (loopRun imgWidth imgHeight loadFile decodeImage drawImage drawImageBlurred).

(** [applyColor] never touches the image, the mask, the file or the
    buttons. *)
Lemma applyColor_frame (st : St) :
  let st' := fst (apply_ st) in
  originalImage st' = originalImage st
  /\ maskCanvas st' = maskCanvas st
  /\ maskCtx st' = maskCtx st
  /\ currentFile st' = currentFile st
  /\ btnMask_disabled st' = btnMask_disabled st
  /\ btnApply_disabled st' = btnApply_disabled st
  /\ colorPicker_value st' = colorPicker_value st
  /\ cwidth (mainCanvas st') = cwidth (mainCanvas st)
  /\ cheight (mainCanvas st') = cheight (mainCanvas st).
Proof.
  unfold applyColor.
  destruct (originalImage st) as [img|] eqn:Ei;
    destruct (maskCanvas st) as [mcv|] eqn:Ec; simpl; try by rewrite ?Ei, ?Ec.
  destruct (getImageData _ _ _) as [e|data]; simpl; [by rewrite ?Ei, ?Ec|].
  destruct (maskCtx st) as [mc|] eqn:Em; simpl; [|by rewrite ?Ei, ?Ec, ?Em].
  destruct (getImageData mc _ _) as [e|maskData]; simpl; by rewrite ?Ei, ?Ec, ?Em.
Qed.

(** The outcome of [applyColor] depends on the canvas only through its
    size and through what redrawing the image leaves on it. *)
Lemma applyColor_redraw (st : St) (c : Canvas) :
  cwidth c = cwidth (mainCanvas st) ->
  cheight c = cheight (mainCanvas st) ->
  (forall img, originalImage st = Some img ->
     drawImage img (Js.ofZ (cwidth c)) (Js.ofZ (cheight c)) c
     = drawImage img (Js.ofZ (cwidth c)) (Js.ofZ (cheight c)) (mainCanvas st)) ->
  forall msg ty,
    sessionState st = Masked ->
    apply_ (setStatus msg ty (setMainCanvas c st)) = apply_ st.
Proof.
  intros Hw Hh Hdraw msg ty Hs. unfold applyColor, sessionState in *.
  destruct st as [oi mcv mctx cf cv bm ba cp mt ph ld stx scl]; simpl in *.
  destruct oi as [img|]; [|done]. destruct mcv as [m|]; [|done].
  rewrite Hw, Hh in *. rewrite (Hdraw img eq_refl). done.
Qed.

(** The guard [if (!originalImage || !maskCanvas) return;] *)
Lemma applyColor_skips (st : St) :
  sessionState st <> Masked -> apply_ st = (st, None).
Proof.
  unfold sessionState, applyColor.
  destruct (originalImage st); [|done]. destruct (maskCanvas st); done.
Qed.

(** In state [Masked], [applyColor] changes the canvas bitmap and the
    status line, nothing else. *)
Lemma applyColor_shape (st : St) :
  sessionState st = Masked ->
  exists c msg ty,
    cwidth c = cwidth (mainCanvas st) /\ cheight c = cheight (mainCanvas st)
    /\ fst (apply_ st) = setStatus msg ty (setMainCanvas c st).
Proof.
  unfold sessionState, applyColor.
  destruct st as [oi mcv mctx cf cv bm ba cp mt ph ld stx scl]; simpl.
  destruct oi as [img|]; [|done]. destruct mcv as [m|]; [|done]. intros _.
  destruct (getImageData _ _ _) as [e|data]; simpl.
  { eexists (mkCanvas _ _ _), _, _. cbn. repeat split. }
  destruct mctx as [mc|]; simpl;
    [|eexists (mkCanvas _ _ _), _, _; cbn; repeat split].
  destruct (getImageData mc _ _) as [e|maskData]; simpl;
    eexists (mkCanvas _ _ _), _, _; cbn; repeat split.
Qed.

(** C6, as the code has it: outside state [Masked] the recolouring
    returns at its guard, without an error and without touching the
    page. *)
Theorem applyColor_guard (st : St) :
  sessionState st <> Masked -> apply_ st = (st, None).
Proof. apply applyColor_skips. Qed.

Lemma handleMasking_failure (res : FetchResult) (st : St) (f : File) (e : JsError) :
  currentFile st = Some f ->
  (forall s : St, request_ res s = (s, Some e)) ->
  mask_ res st
  = setLoading false (setStatus ("Error generating mask: " ++ errMessage e) error st).
Proof.
  intros Hf Hreq. unfold handleMasking. rewrite Hf, Hreq.
  by destruct st.
Qed.

(** X26: when the service answers successfully with a JSON value that
    is not [null] and has no [maskPngBase64] (an object without the
    key, or a number, a string, a boolean or an array), the request
    fails with [InvalidResponse]; the handler, run to its end, reports
    it and changes nothing but the status line (the overlay is hidden
    again): no mask is installed and the session stays in the state it
    was in, [ImageLoaded] in particular. *)
Theorem missing_mask_field (r : Response) (data : Json) (st : St) (f : File) :
  currentFile st = Some f ->
  ok r = true ->
  json r = inr data ->
  maskPngBase64 data = inr None ->
  (forall s : St, request_ (Responded r) s = (s, Some InvalidResponse))
  /\ mask_ (Responded r) st
     = setLoading false
         (setStatus "Error generating mask: Invalid response: No mask data received"
            error st)
  /\ maskCanvas (mask_ (Responded r) st) = maskCanvas st
  /\ maskCtx (mask_ (Responded r) st) = maskCtx st
  /\ sessionState (mask_ (Responded r) st) = sessionState st
  /\ (sessionState st = ImageLoaded ->
      sessionState (mask_ (Responded r) st) = ImageLoaded).
Proof.
  intros Hf Hok Hj Hnone.
  assert (Hreq : forall s : St, request_ (Responded r) s = (s, Some InvalidResponse)).
  { intros s. unfold requestMask. by rewrite Hok, Hj, Hnone. }
  rewrite (handleMasking_failure _ st f InvalidResponse Hf Hreq).
  repeat split; done.
Qed.

(** C8: when the endpoint answers with a non-success status, the request
    fails with a [ServiceError] whose message ends with the status text;
    the handler reports it and changes nothing but the status line: the
    image, an existing mask, the canvas and the buttons are as before. *)
Theorem http_failure (r : Response) (st : St) (f : File) :
  currentFile st = Some f ->
  ok r = false ->
  (forall s : St, request_ (Responded r) s = (s, Some (ServiceError (statusText r))))
  /\ errMessage (ServiceError (statusText r)) = "API Error: " ++ statusText r
  /\ mask_ (Responded r) st
     = setLoading false
         (setStatus ("Error generating mask: API Error: " ++ statusText r) error st)
  /\ maskCanvas (mask_ (Responded r) st) = maskCanvas st
  /\ maskCtx (mask_ (Responded r) st) = maskCtx st
  /\ originalImage (mask_ (Responded r) st) = originalImage st
  /\ mainCanvas (mask_ (Responded r) st) = mainCanvas st
  /\ sessionState (mask_ (Responded r) st) = sessionState st.
Proof.
  intros Hf Hok.
  assert (Hreq : forall s : St,
             request_ (Responded r) s = (s, Some (ServiceError (statusText r)))).
  { intros s. unfold requestMask. by rewrite Hok. }
  rewrite (handleMasking_failure _ st f _ Hf Hreq).
  repeat split; done.
Qed.

(** What [img.onload] leaves: the new image, no mask, the apply button
    disabled. *)
Lemma imageLoaded_fields (img : Image) (st : St) :
  let st' := imageLoaded imgWidth imgHeight drawImage img st in
  originalImage st' = Some img /\ maskCanvas st' = None
  /\ btnApply_disabled st' = true /\ btnMask_disabled st' = false
  /\ currentFile st' = currentFile st.
Proof.
  unfold imageLoaded.
  destruct (if (Js.ofZ MAX_WIDTH <? Js.ofZ (imgWidth img))%float then _ else _)
    as [width height].
  done.
Qed.

(** As long as no mask is installed, there is no mask and the apply
    button is disabled. *)
Lemma step_keeps_no_mask (st : St) (ev : Event File) :
  maskCanvas st = None -> btnApply_disabled st = true ->
  maskInstalled decodeImage st ev = false ->
  maskCanvas (step_ st ev) = None /\ btnApply_disabled (step_ st ev) = true.
Proof.
  intros Hm Hb Hev. destruct ev as [file|res| |hex|checked]; simpl.
  - unfold handleImageUpload. destruct file as [f|]; [|done].
    destruct (loadFile f) as [img|]; [|done].
    by destruct (imageLoaded_fields img (setCurrentFile f st)) as (_ & -> & -> & _).
  - destruct (btnMask_disabled st) eqn:Ed; [done|].
    unfold handleMasking. destruct (currentFile st) as [f|] eqn:Ef; [|done].
    unfold requestMask. destruct res as [e|r]; [done|].
    simpl in Hev. rewrite Ed, Ef in Hev. simpl in Hev.
    destruct (ok r); simpl in *; [|done].
    destruct (json r) as [e|data]; [done|].
    destruct (maskPngBase64 data) as [e|base64]; [done|].
    destruct (falsy base64); simpl in *; [done|].
    unfold loadMask. simpl.
    destruct (decodeImage _); done.
  - by rewrite Hb.
  - done.
  - done.
Qed.

Lemma run_keeps_no_mask (evs : list (Event File)) (st : St) :
  maskCanvas st = None -> btnApply_disabled st = true ->
  noMaskInstalled imgWidth imgHeight loadFile decodeImage drawImage
    drawImageBlurred st evs = true ->
  maskCanvas (run_ st evs) = None /\ btnApply_disabled (run_ st evs) = true.
Proof.
  revert st. induction evs as [|ev evs IH]; intros st Hm Hb Hrun; [done|].
  simpl in Hrun. apply andb_prop in Hrun as [Hev Hrun].
  apply negb_true_iff in Hev.
  destruct (step_keeps_no_mask st ev Hm Hb Hev) as [Hm' Hb'].
  simpl. by apply IH.
Qed.

(** A mask request that succeeds installs a mask and enables the apply
    button. *)
Lemma step_installs_mask (st : St) (ev : Event File) :
  maskInstalled decodeImage st ev = true ->
  maskCanvas (step_ st ev) <> None /\ btnApply_disabled (step_ st ev) = false.
Proof.
  intros Hev. destruct ev as [file|res| |hex|checked]; try done.
  destruct res as [e|r]; [done|]. simpl in *.
  destruct (btnMask_disabled st); [done|]. simpl in Hev.
  unfold handleMasking. destruct (currentFile st) as [f|]; [|by destruct (ok r)].
  unfold requestMask. destruct (ok r); [|done]. simpl in *.
  destruct (json r) as [e|data]; [done|].
  destruct (maskPngBase64 data) as [e|base64]; [done|].
  destruct (falsy base64); [done|]. simpl in *.
  unfold loadMask. simpl. destruct (decodeImage _) as [img|]; [|done].
  match goal with |- context [applyColor drawImage ?s] =>
    pose proof (applyColor_frame s) as (_ & Fc & _ & _ & _ & Fb & _);
    destruct (applyColor drawImage s) as [s' [e|]] end;
    simpl in *; rewrite ?Fc, ?Fb; done.
Qed.

(** X27: when every event is handled to its end before the next one
    (no request is under way when the image is chosen), loading a new
    image drops the mask and puts the session in [ImageLoaded] with the
    apply button disabled, from every state; and through every run of
    such events of which none installs a mask, there is still no mask,
    the button is still disabled and [applyColor] still returns at its
    guard. *)
Theorem new_image_invalidates_mask (st : St) (f : File) (img : Image) :
  loadFile f = Some img ->
  let st' := upload_ (Some f) st in
  originalImage st' = Some img
  /\ maskCanvas st' = None
  /\ sessionState st' = ImageLoaded
  /\ btnApply_disabled st' = true
  /\ forall evs,
       noMaskInstalled imgWidth imgHeight loadFile decodeImage drawImage
         drawImageBlurred st' evs = true ->
       maskCanvas (run_ st' evs) = None
       /\ btnApply_disabled (run_ st' evs) = true
       /\ apply_ (run_ st' evs) = (run_ st' evs, None).
Proof.
  intros Hload st'.
  assert (Hst' : originalImage st' = Some img /\ maskCanvas st' = None
                 /\ btnApply_disabled st' = true).
  { subst st'. unfold handleImageUpload. rewrite Hload.
    by destruct (imageLoaded_fields img (setCurrentFile f st)) as (-> & -> & -> & _). }
  destruct Hst' as (Hi & Hm & Hb).
  split; [done|]. split; [done|].
  split; [unfold sessionState; by rewrite Hi, Hm|].
  split; [done|].
  intros evs Hrun.
  destruct (run_keeps_no_mask evs st' Hm Hb Hrun) as [Hm' Hb'].
  split; [done|]. split; [done|].
  apply applyColor_skips. unfold sessionState. rewrite Hm'.
  destruct (originalImage (run_ st' evs)); intros ?; discriminate.
Qed.

(** One event handled to its end is the run of its tasks, one after
    the other, from the page at rest; nothing is left under way. *)
Lemma step_is_loop (st : St) (ev : Event File) :
  loopRun_ (idle st) (tasksOf ev) = idle (step_ st ev).
Proof.
  destruct ev as [[f|]|res| |hex|checked]; cbn.
  - unfold resume, fileSettled, handleImageUpload, idle. cbn.
    by destruct (loadFile f).
  - reflexivity.
  - destruct (btnMask_disabled st) eqn:Ed; cbn; [reflexivity|].
    unfold maskingStarted, handleMasking.
    destruct (currentFile st) as [f|] eqn:Ef; cbn; [|reflexivity].
    unfold fetched, requestMask, resume, failed. cbn.
    destruct res as [e|r]; cbn; [reflexivity|].
    destruct (ok r); cbn; [|reflexivity].
    unfold parsed, failed. destruct (json r) as [e|data]; cbn; [reflexivity|].
    destruct (maskPngBase64 data) as [e|base64]; cbn; [reflexivity|].
    destruct (falsy base64); cbn; [reflexivity|].
    unfold maskSettled, failed.
    destruct (loadMask _ _ _ _) as [s [e|]]; cbn; [reflexivity|].
    destruct (applyColor _ _) as [s' [e|]]; reflexivity.
  - unfold idle. by destruct (btnApply_disabled st).
  - reflexivity.
  - reflexivity.
Qed.

(** X28: the page whose events are handled one at a time, each to its
    end, is the page of the event loop on the schedules where every
    operation started by an event is over before the next event: a run
    of [step] is the run of [loopStep] over the tasks of its events,
    and leaves nothing under way. *)
Theorem run_is_loop (evs : list (Event File)) (st : St) :
  loopRun_ (idle st) (flat_map tasksOf evs) = idle (run_ st evs).
Proof.
  revert st. induction evs as [|ev evs IH]; intros st; [reflexivity|].
  unfold loopRun in *. cbn [flat_map]. rewrite fold_left_app.
  pose proof (step_is_loop st ev) as E. unfold loopRun in E. rewrite E.
  apply IH.
Qed.

(** On the event loop, with no mask request under way and no click on
    the mask button, no task installs a mask or enables the apply
    button. *)
Lemma loopStep_keeps_no_mask (l : Loop Image File) (t : Task File) :
  maskCanvas (page l) = None -> btnApply_disabled (page l) = true ->
  noRequest (pending l) -> t <> MaskClick ->
  maskCanvas (page (loopStep_ l t)) = None
  /\ btnApply_disabled (page (loopStep_ l t)) = true
  /\ noRequest (pending (loopStep_ l t)).
Proof.
  intros Hm Hb Hp Ht. unfold noRequest in *.
  destruct t as [[f|]| | |hex|checked|i res|i]; cbn; try done.
  - split; [done|]. split; [done|].
    apply Forall_app. split; [done|]. by apply Forall_singleton.
  - by rewrite Hb.
  - destruct (pending l !! i) as [p|] eqn:Ep; [|done].
    pose proof (Forall_lookup_1 _ _ _ _ Hp Ep) as Hr.
    destruct p; done.
  - destruct (pending l !! i) as [p|] eqn:Ep; [|done].
    pose proof (Forall_lookup_1 _ _ _ _ Hp Ep) as Hr.
    destruct p as [f| | |]; try done. cbn.
    split; [|split; [|by apply Forall_delete]];
      unfold fileSettled; destruct (loadFile f) as [img|]; try done;
      by destruct (imageLoaded_fields img (page l)) as (_ & Em & Eb & _).
Qed.

Lemma loopRun_keeps_no_mask (ts : list (Task File)) (l : Loop Image File) :
  maskCanvas (page l) = None -> btnApply_disabled (page l) = true ->
  noRequest (pending l) -> noMaskClick ts ->
  maskCanvas (page (loopRun_ l ts)) = None
  /\ btnApply_disabled (page (loopRun_ l ts)) = true.
Proof.
  revert l. induction ts as [|t ts IH]; intros l Hm Hb Hp Hts; [done|].
  apply Forall_cons in Hts as [Ht Hts].
  destruct (loopStep_keeps_no_mask l t Hm Hb Hp Ht) as (Hm' & Hb' & Hp').
  cbn. by apply IH.
Qed.

(** X29: on the event loop, when no mask request is under way at the
    time a chosen file finishes loading, the new image drops the mask
    and puts the session in [ImageLoaded] with the apply button
    disabled; and through all the tasks that follow, in any order, as
    long as the mask button is not clicked, there is still no mask,
    the button is still disabled and [applyColor] returns at its
    guard. *)
Theorem loop_new_image (l : Loop Image File) (i : nat) (f : File) (img : Image)
    (ts : list (Task File)) :
  pending l !! i = Some (ReadingFile f) ->
  loadFile f = Some img ->
  noRequest (pending l) ->
  noMaskClick ts ->
  let loaded := loopStep_ l (Settles i) in
  let later := loopRun_ loaded ts in
  originalImage (page loaded) = Some img
  /\ maskCanvas (page loaded) = None
  /\ sessionState (page loaded) = ImageLoaded
  /\ btnApply_disabled (page loaded) = true
  /\ maskCanvas (page later) = None
  /\ btnApply_disabled (page later) = true
  /\ apply_ (page later) = (page later, None).
Proof.
  intros Hi Hload Hp Hts loaded later.
  assert (Hl : originalImage (page loaded) = Some img
               /\ maskCanvas (page loaded) = None
               /\ btnApply_disabled (page loaded) = true
               /\ noRequest (pending loaded)).
  { subst loaded. cbn. rewrite Hi. cbn. unfold fileSettled. rewrite Hload.
    destruct (imageLoaded_fields img (page l)) as (Eo & Em & Eb & _).
    repeat split; try done. by apply Forall_delete. }
  destruct Hl as (Ho & Hm & Hb & Hp').
  destruct (loopRun_keeps_no_mask ts loaded Hm Hb Hp' Hts) as [Hm' Hb'].
  fold later in Hm', Hb'.
  split; [done|]. split; [done|].
  split; [unfold sessionState; by rewrite Ho, Hm|].
  split; [done|]. split; [done|]. split; [done|].
  apply applyColor_skips. unfold sessionState. rewrite Hm'.
  destruct (originalImage (page later)); intros ?; discriminate.
Qed.

End PageFacts.

(** ** The handlers on the small browser *)

(** Closed statements about the small browsers are settled by running
    the handlers. *)
Ltac by_running :=
  cbv zeta;
  repeat match goal with |- _ /\ _ => split end;
  first [ vm_compute; reflexivity | vm_compute; discriminate ].

(** C4: on a browser that composites, with an image that is half
    transparent, applying the same colour under the same mask a second
    time does not give what the first application gave.  The image and
    the mask are not written, but [drawImage] draws the image over the
    paint of the first application, which shows through: the pixel is
    (150, 50, 50, 192) after the first application and
    (161, 39, 39, 224) after the second.  With the same pixel made
    opaque the two applications agree. *)
Theorem applyColor_twice_differs :
  let once := Canvas2D.paintedOnce Canvas2D.translucent in
  let twice := fst (applyColor Canvas2D.drawImage once) in
  sessionState once = Masked
  /\ bitmap (mainCanvas once) = [x96; x32; x32; xc0]
  /\ bitmap (mainCanvas twice) = [xa1; x27; x27; xe0]
  /\ originalImage twice = originalImage once
  /\ maskCanvas twice = maskCanvas once
  /\ maskCtx twice = maskCtx once
  /\ colorPicker_value twice = colorPicker_value once
  /\ mainCanvas twice <> mainCanvas once
  /\ mainCanvas
       (fst (applyColor Canvas2D.drawImage
               (Canvas2D.paintedOnce Canvas2D.opaque)))
     = mainCanvas (Canvas2D.paintedOnce Canvas2D.opaque).
Proof. by_running. Qed.

(** C6, as claimed, fails: on the empty session, and on a session with
    an image and no mask, [applyColor] returns normally; no error of any
    kind is raised. *)
Lemma applyColor_without_mask_raises_nothing :
  sessionState Demo.empty = Empty
  /\ applyColor Demo.drawImage Demo.empty = (Demo.empty, None)
  /\ sessionState Demo.withPhoto = ImageLoaded
  /\ applyColor Demo.drawImage Demo.withPhoto = (Demo.withPhoto, None)
  /\ ~ (forall st : State Demo.Image Demo.File,
          sessionState st <> Masked ->
          exists e, snd (applyColor Demo.drawImage st) = Some e).
Proof.
  repeat split; try reflexivity.
  intros Hclaim. destruct (Hclaim Demo.empty) as [e He]; [discriminate|].
  discriminate He.
Qed.

Lemma applyColor_guard_witness :
  sessionState Demo.withPhoto <> Masked
  /\ applyColor Demo.drawImage Demo.withPhoto = (Demo.withPhoto, None).
Proof.
  assert (H : sessionState Demo.withPhoto <> Masked) by discriminate.
  split; [exact H|].
  exact (applyColor_guard Demo.drawImage Demo.withPhoto H).
Defined.

(** C7: a successful response whose JSON body is [null] lacks the
    field, and the request does not fail with [InvalidResponse]:
    reading [maskPngBase64] of [null] throws a [TypeError] before the
    test of the field is reached, and the status line shows its
    message.  No mask is installed and the session stays in
    [ImageLoaded]. *)
Theorem null_body_type_error :
  let st := Demo.withPhoto in
  let outcome :=
    requestMask Demo.decodeImage Demo.drawImage Demo.drawImage
      Demo.nullResponse st in
  let st' :=
    handleMasking Demo.decodeImage Demo.drawImage Demo.drawImage
      Demo.nullResponse st in
  sessionState st = ImageLoaded
  /\ outcome
     = (st, Some (TypeError "Cannot read properties of null (reading 'maskPngBase64')"))
  /\ snd outcome <> Some InvalidResponse
  /\ statusText_ st'
     = "Error generating mask: Cannot read properties of null (reading 'maskPngBase64')"
  /\ statusClass st' = error
  /\ maskCanvas st' = None
  /\ sessionState st' = ImageLoaded.
Proof. by_running. Qed.

Lemma missing_mask_field_witness :
  sessionState
    (handleMasking Demo.decodeImage Demo.drawImage Demo.drawImage
       Demo.noMaskResponse Demo.withPhoto)
  = ImageLoaded.
Proof.
  refine (proj2 (proj2 (proj2 (proj2 (proj2
    (missing_mask_field Demo.decodeImage Demo.drawImage Demo.drawImage
       (mkResponse true "OK" (inr (JObject []))) (JObject [])
       Demo.withPhoto Demo.photo eq_refl eq_refl eq_refl eq_refl))))) eq_refl).
Defined.

Lemma http_failure_witness :
  statusText_
    (handleMasking Demo.decodeImage Demo.drawImage Demo.drawImage
       Demo.failedResponse Demo.withMask)
  = "Error generating mask: API Error: Internal Server Error"
  /\ maskCanvas
       (handleMasking Demo.decodeImage Demo.drawImage Demo.drawImage
          Demo.failedResponse Demo.withMask)
     = maskCanvas Demo.withMask.
Proof.
  destruct (http_failure Demo.decodeImage Demo.drawImage Demo.drawImage
              (mkResponse false "Internal Server Error" (inr (JObject [])))
              Demo.withMask Demo.photo eq_refl eq_refl)
    as (_ & _ & Hst & Hmask & _).
  split; [|exact Hmask].
  unfold Demo.failedResponse. rewrite Hst. reflexivity.
Defined.

Lemma new_image_invalidates_mask_witness :
  sessionState Demo.withMask = Masked
  /\ sessionState
       (handleImageUpload Demo.imgWidth Demo.imgHeight Demo.loadFile
          Demo.drawImage (Some Demo.photo) Demo.withMask)
     = ImageLoaded.
Proof.
  split; [reflexivity|].
  exact (proj1 (proj2 (proj2
    (new_image_invalidates_mask Demo.imgWidth Demo.imgHeight Demo.loadFile
       Demo.decodeImage Demo.drawImage Demo.drawImage
       Demo.withMask Demo.photo Demo.photo eq_refl)))).
Defined.

(** C9: a mask request that is under way when a new image is chosen
    installs its mask on the new image.  The mask button is clicked on
    the first photo; before the service answers, a second photo is
    chosen and loads, which drops the mask and disables the apply
    button; then the answer to the request arrives, is parsed, and its
    mask loads.  No mask was requested for the second photo, and the
    session is [Masked] with the apply button enabled and the second
    photo painted under the mask of the first. *)
Theorem stale_mask_installed :
  let run := loopRun Demo.imgWidth Demo.imgHeight Demo.loadFile
               Demo.decodeImage Demo.drawImage Demo.drawImage in
  let chosen :=
    run (idle Demo.withPhoto)
      [MaskClick; InputChange (Some Demo.secondPhoto); Settles 1] in
  let answered :=
    run chosen [FetchSettles 0 Demo.goodResponse; Settles 0; Settles 0] in
  pending chosen = [Fetching]
  /\ originalImage (page chosen) = Some Demo.secondPhoto
  /\ sessionState (page chosen) = ImageLoaded
  /\ btnApply_disabled (page chosen) = true
  /\ pending answered = []
  /\ originalImage (page answered) = Some Demo.secondPhoto
  /\ sessionState (page answered) = Masked
  /\ btnApply_disabled (page answered) = false
  /\ statusText_ (page answered) = "Color applied."
  /\ bitmap (mainCanvas (page answered)) = [x28; x00; x00; xff].
Proof. by_running. Qed.

Lemma loop_new_image_witness :
  let chosen :=
    loopStep Demo.imgWidth Demo.imgHeight Demo.loadFile Demo.decodeImage
      Demo.drawImage Demo.drawImage (idle Demo.withMask)
      (InputChange (Some Demo.secondPhoto)) in
  let later :=
    loopRun Demo.imgWidth Demo.imgHeight Demo.loadFile Demo.decodeImage
      Demo.drawImage Demo.drawImage
      (loopStep Demo.imgWidth Demo.imgHeight Demo.loadFile Demo.decodeImage
         Demo.drawImage Demo.drawImage chosen (Settles 0))
      [ColorInput "#00FF00"; ApplyClick] in
  sessionState Demo.withMask = Masked
  /\ maskCanvas (page later) = None
  /\ btnApply_disabled (page later) = true.
Proof.
  cbv zeta.
  assert (Hp : noRequest
                 (pending
                    (loopStep Demo.imgWidth Demo.imgHeight Demo.loadFile
                       Demo.decodeImage Demo.drawImage Demo.drawImage
                       (idle Demo.withMask)
                       (InputChange (Some Demo.secondPhoto)))))
    by (apply Forall_app; split; [apply Forall_nil_2|by apply Forall_singleton]).
  assert (Hts : noMaskClick (File := Demo.File) [ColorInput "#00FF00"; ApplyClick])
    by (repeat constructor; discriminate).
  destruct (loop_new_image Demo.imgWidth Demo.imgHeight Demo.loadFile
              Demo.decodeImage Demo.drawImage Demo.drawImage
              (loopStep Demo.imgWidth Demo.imgHeight Demo.loadFile
                 Demo.decodeImage Demo.drawImage Demo.drawImage
                 (idle Demo.withMask) (InputChange (Some Demo.secondPhoto)))
              0%nat Demo.secondPhoto Demo.secondPhoto
              [ColorInput "#00FF00"; ApplyClick]
              eq_refl eq_refl Hp Hts)
    as (_ & _ & _ & _ & Hm & Hb & _).
  split; [reflexivity|]. split; [exact Hm|exact Hb].
Defined.
(** * Further properties

    ** Integers as Numbers: the conversions are exact below [2^53] *)

Section ExactIntegers.

Lemma digits2_iter_xO (m d : positive) :
  Zpos (digits2_pos (Pos.iter xO m d)) = Zpos (digits2_pos m) + Zpos d.
Proof.
  induction d as [|d IH] using Pos.peano_ind.
  - cbn [Pos.iter digits2_pos]. lia.
  - rewrite Pos.iter_succ. cbn [digits2_pos]. lia.
Qed.

Lemma small_digits (p : positive) :
  Zpos p < 2 ^ 53 -> Zpos (digits2_pos p) <= 53.
Proof.
  intros H. pose proof (digits2_pos_bounds p) as [Hlo _].
  destruct (Z_le_gt_dec (Zpos (digits2_pos p)) 53) as [|Hgt]; [assumption|].
  exfalso.
  assert (2 ^ 53 <= 2 ^ (Zpos (digits2_pos p) - 1))
    by (apply Z.pow_le_mono_r; lia).
  lia.
Qed.

(** A mantissa already at the exponent of the format is kept as it is. *)
Lemma binary_round_aux_canonical (s : bool) (m : positive) (e : Z) :
  fexp prec emax (Zpos (digits2_pos m) + e) <= e -> e <= 971 ->
  binary_round_aux prec emax s (Zpos m) e loc_Exact = S754_finite s m e.
Proof.
  intros Hc He.
  assert (Hs : shr_fexp prec emax (Zpos m) e loc_Exact
               = (Build_shr_record (Zpos m) false false, e)).
  { unfold shr_fexp, shr. cbn [Zdigits2 shr_record_of_loc].
    destruct (fexp prec emax (Zpos (digits2_pos m) + e) - e) eqn:E;
      try reflexivity. lia. }
  unfold binary_round_aux. rewrite Hs.
  cbn [shr_m loc_of_shr_record round_nearest_even]. rewrite Hs. cbn [shr_m].
  replace (e <=? emax - prec) with true; [reflexivity|].
  symmetry. apply Z.leb_le. cbv delta [emax prec] beta. lia.
Qed.

(** The Number of a positive integer below [2^53]: the integer shifted
    to 53 digits, at a non-positive exponent. *)
Lemma binary_round_integer (s : bool) (p : positive) :
  Zpos p < 2 ^ 53 ->
  exists (m : positive) (k : Z),
    binary_round prec emax s p 0 = S754_finite s m (- k)
    /\ 0 <= k <= 52 /\ Zpos m = Zpos p * 2 ^ k
    /\ valid_binary (S754_finite s m (- k)) = true.
Proof.
  intros Hp. apply small_digits in Hp.
  pose proof (fexp_eq (Zpos (digits2_pos p) + 0)) as Hf.
  unfold binary_round, shl_align. rewrite Hf, Z.add_0_r. clear Hf.
  set (d := Zpos (digits2_pos p)) in *.
  assert (Hd : 1 <= d) by (subst d; lia).
  destruct (Z.max (d - 53) (-1074) - 0) as [|q|q] eqn:E; try lia.
  - exists p, 0. rewrite binary_round_aux_canonical.
    + split; [reflexivity|]. split; [lia|]. split; [change (2 ^ 0) with 1; lia|].
      unfold valid_binary, SpecFloat.valid_binary, SpecFloat.bounded, SpecFloat.canonical_mantissa.
      rewrite fexp_eq. fold d. change (- 0) with 0.
      apply andb_true_intro. split; [apply Z.eqb_eq|apply Z.leb_le].
      * lia.
      * cbv delta [emax prec] beta. lia.
    + rewrite fexp_eq. fold d. lia.
    + lia.
  - exists (Pos.iter xO p q), (Zpos q).
    replace (Z.max (d - 53) (-1074)) with (- Zpos q) by lia.
    assert (Hdig : Zpos (digits2_pos (Pos.iter xO p q)) = 53).
    { rewrite digits2_iter_xO. fold d. lia. }
    rewrite binary_round_aux_canonical.
    + split; [reflexivity|]. split; [lia|]. split; [apply iter_xO_value|].
      unfold valid_binary, SpecFloat.valid_binary, SpecFloat.bounded, SpecFloat.canonical_mantissa.
      rewrite fexp_eq, Hdig.
      apply andb_true_intro. split; [apply Z.eqb_eq|apply Z.leb_le].
      * lia.
      * cbv delta [emax prec] beta. lia.
    + rewrite fexp_eq, Hdig. lia.
    + lia.
Qed.

(** [ToInt32] of such a Number gives the integer back. *)
Lemma ToInt32_shifted (x : float) (m : positive) (k n : Z) :
  Prim2SF x = S754_finite false m (- k) ->
  0 <= k -> Zpos m = n * 2 ^ k -> 0 <= n < 2 ^ 31 ->
  Js.ToInt32 x = n.
Proof.
  intros Hx Hk Hm Hn. unfold Js.ToInt32. rewrite Hx.
  assert (Hmag : match - k with
                 | Zneg q => Z.shiftr (Zpos m) (Zpos q)
                 | _ => Z.shiftl (Zpos m) (- k)
                 end = n).
  { destruct k as [|q|q]; try lia.
    - change (- 0) with 0. cbv iota. rewrite Z.shiftl_0_r, Hm.
      change (2 ^ 0) with 1. lia.
    - change (- Zpos q) with (Zneg q). cbv iota.
      rewrite Z.shiftr_div_pow2 by lia. rewrite Hm.
      apply Z.div_mul. lia. }
  rewrite Hmag. cbv zeta.
  change (2 ^ 32) with 4294967296 in *. change (2 ^ 31) with 2147483648 in *.
  rewrite Z.mod_small by lia.
  destruct (2147483648 <=? n) eqn:E; [apply Z.leb_le in E; lia|reflexivity].
Qed.

Lemma Prim2SF_ofZ_nearest (n : Z) :
  0 < n < 2 ^ 53 ->
  exists (m : positive) (k : Z),
    Prim2SF (Js.ofZ_nearest n) = S754_finite false m (- k)
    /\ 0 <= k <= 52 /\ Zpos m = n * 2 ^ k.
Proof.
  intros Hn. unfold Js.ofZ_nearest. destruct n as [|p|p]; try lia.
  cbn [binary_normalize].
  destruct (binary_round_integer false p) as (m & k & E & Hk & Hm & Hv); [lia|].
  exists m, k. rewrite E, Prim2SF_SF2Prim by exact Hv. auto.
Qed.

Lemma Prim2SF_ofZ (n : Z) :
  0 < n < 2 ^ 53 ->
  exists (m : positive) (k : Z),
    Prim2SF (Js.ofZ n) = S754_finite false m (- k)
    /\ 0 <= k <= 52 /\ Zpos m = n * 2 ^ k.
Proof.
  intros Hn. unfold Js.ofZ.
  destruct (n <? 0) eqn:E; [apply Z.ltb_lt in E; lia|].
  rewrite of_uint63_spec, Uint63.of_Z_spec.
  assert (Hw : 2 ^ 53 < wB) by (vm_compute; reflexivity).
  rewrite Z.mod_small by lia.
  destruct n as [|p|p]; try lia. cbn [binary_normalize].
  destruct (binary_round_integer false p) as (m & k & E' & Hk & Hm & Hv); [lia|].
  exists m, k. rewrite E'. auto.
Qed.

Lemma ofZ_0 : Prim2SF (Js.ofZ 0) = S754_zero false.
Proof. reflexivity. Qed.

Lemma ToInt32_ofZ (n : Z) : 0 <= n < 2 ^ 31 -> Js.ToInt32 (Js.ofZ n) = n.
Proof.
  intros Hn. destruct (Z.eq_dec n 0) as [->|Hne]; [reflexivity|].
  assert (2 ^ 31 < 2 ^ 53) by (vm_compute; reflexivity).
  destruct (Prim2SF_ofZ n) as (m & k & E & Hk & Hm); [lia|].
  apply (ToInt32_shifted _ m k); auto; lia.
Qed.

Lemma ToInt32_ofZ_nearest (n : Z) :
  0 <= n < 2 ^ 31 -> Js.ToInt32 (Js.ofZ_nearest n) = n.
Proof.
  intros Hn. destruct (Z.eq_dec n 0) as [->|Hne]; [reflexivity|].
  assert (2 ^ 31 < 2 ^ 53) by (vm_compute; reflexivity).
  destruct (Prim2SF_ofZ_nearest n) as (m & k & E & Hk & Hm); [lia|].
  apply (ToInt32_shifted _ m k); auto; lia.
Qed.

Local Open Scope R_scope.

(** The real value of the Number of a natural below [2^53]. *)
Lemma FV_ofZ (n : Z) : (0 <= n < 2 ^ 53)%Z -> Ffin (Js.ofZ n) /\ FV (Js.ofZ n) = IZR n.
Proof.
  intros Hn. unfold Ffin, FV.
  destruct (Z.eq_dec n 0%Z) as [->|Hne].
  - rewrite ofZ_0. split; reflexivity.
  - destruct (Prim2SF_ofZ n) as (m & k & E & Hk & Hm); [lia|].
    rewrite E. split; [reflexivity|].
    rewrite SF2R_finite, Hm, mult_IZR.
    rewrite <- (pow2_nonneg_exp k) by lia.
    rewrite Rmult_assoc, <- pow2_add.
    replace (k + - k)%Z with 0%Z by lia.
    change (pow2 0) with 1. ring.
Qed.

End ExactIntegers.

(** ** [hexToRgb] on the values of a colour picker *)

Section HexParsing.

Lemma hexDigit_range (c : ascii) (d : Z) : hexDigit c = Some d -> 0 <= d <= 15.
Proof.
  destruct c as [[] [] [] [] [] [] [] []]; vm_compute; intros H;
    try discriminate; injection H as <-; split; discriminate.
Qed.

(** A hexadecimal digit is neither white space nor a sign. *)
Lemma digit_first (c : ascii) (r : string) (d : Z) :
  hexDigit c = Some d ->
  trimStart (String c r) = String c r
  /\ stripSign (String c r) = (false, String c r).
Proof.
  destruct c as [[] [] [] [] [] [] [] []]; intros H; vm_compute in H;
    try discriminate; split; reflexivity.
Qed.

(** Nor is it the [x] of a [0x] prefix. *)
Lemma digit_second (c1 c2 : ascii) (r : string) (d : Z) :
  hexDigit c2 = Some d ->
  strip0x (String c1 (String c2 r)) = String c1 (String c2 r).
Proof.
  intros H.
  destruct c1 as [[] [] [] [] [] [] [] []]; try reflexivity.
  destruct c2 as [[] [] [] [] [] [] [] []]; vm_compute in H;
    try discriminate; reflexivity.
Qed.

Lemma land_255 (x : Z) : Z.land x 255 = x mod 256.
Proof. change 255 with (Z.ones 8). rewrite Z.land_ones by lia. reflexivity. Qed.

(** The three bytes of a 24-bit integer. *)
Lemma split_bytes (r g b : Z) :
  0 <= r <= 255 -> 0 <= g <= 255 -> 0 <= b <= 255 ->
  let n := 65536 * r + 256 * g + b in
  Z.land (Z.shiftr n 16) 255 = r
  /\ Z.land (Z.shiftr n 8) 255 = g
  /\ Z.land n 255 = b.
Proof.
  intros Hr Hg Hb n. subst n. rewrite !land_255, !Z.shiftr_div_pow2 by lia.
  change (2 ^ 16) with 65536. change (2 ^ 8) with 256.
  repeat split; Z.div_mod_to_equations; lia.
Qed.

End HexParsing.

(** X1: on a picker value, a first character (the [#]) followed by
    exactly six hexadecimal digits of either case, [hexToRgb] returns
    the three bytes the three pairs of digits write; the first
    character is not looked at. *)
Theorem hexToRgb_six_digits (c0 c1 c2 c3 c4 c5 c6 : ascii) (d1 d2 d3 d4 d5 d6 : Z) :
  hexDigit c1 = Some d1 -> hexDigit c2 = Some d2 -> hexDigit c3 = Some d3 ->
  hexDigit c4 = Some d4 -> hexDigit c5 = Some d5 -> hexDigit c6 = Some d6 ->
  hexToRgb
    (String c0 (String c1 (String c2 (String c3 (String c4 (String c5
       (String c6 EmptyString)))))))
  = (16 * d1 + d2, 16 * d3 + d4, 16 * d5 + d6).
Proof.
  intros H1 H2 H3 H4 H5 H6.
  pose proof (hexDigit_range _ _ H1). pose proof (hexDigit_range _ _ H2).
  pose proof (hexDigit_range _ _ H3). pose proof (hexDigit_range _ _ H4).
  pose proof (hexDigit_range _ _ H5). pose proof (hexDigit_range _ _ H6).
  unfold hexToRgb, slice1, parseInt16.
  destruct (digit_first c1 (String c2 (String c3 (String c4 (String c5
              (String c6 EmptyString))))) d1 H1) as [-> ->].
  rewrite (digit_second c1 c2 _ d2 H2).
  cbn [hexPrefix]. rewrite H1, H2, H3, H4, H5, H6.
  set (n := 16 * (16 * (16 * (16 * (16 * (16 * 0 + d1) + d2) + d3) + d4) + d5) + d6).
  assert (En : n = 65536 * (16 * d1 + d2) + 256 * (16 * d3 + d4) + (16 * d5 + d6))
    by (subst n; ring).
  rewrite ToInt32_ofZ_nearest
    by (change (2 ^ 31) with 2147483648; lia).
  rewrite En.
  destruct (split_bytes (16 * d1 + d2) (16 * d3 + d4) (16 * d5 + d6))
    as (-> & -> & ->); try lia.
  reflexivity.
Qed.

Lemma hexToRgb_six_digits_witness : hexToRgb "#3a6F99" = (58, 111, 153).
Proof.
  exact (hexToRgb_six_digits "#" "3" "a" "6" "F" "9" "9" 3 10 6 15 9 9
           eq_refl eq_refl eq_refl eq_refl eq_refl eq_refl).
Defined.

(** X2: whatever the string, also one that is no colour at all,
    [hexToRgb] returns three integers between 0 and 255. *)
Theorem hexToRgb_channels_in_range (hex : string) :
  let '(r, g, b) := hexToRgb hex in
  0 <= r <= 255 /\ 0 <= g <= 255 /\ 0 <= b <= 255.
Proof. apply hexToRgb_bytes. Qed.

(** ** Stores into a clamped array, and the blend *)

Section Blend.

Local Open Scope R_scope.

Lemma leb_false_FV (x y : float) :
  Ffin x -> Ffin y -> (x <=? y)%float = false -> FV y < FV x.
Proof.
  intros Hx Hy H. destruct (Rle_or_lt (FV x) (FV y)) as [Hle|]; [|assumption].
  apply (proj2 (leb_FV x y Hx Hy)) in Hle. congruence.
Qed.

(** Rounding to the nearest integer stays within integer bounds. *)
Lemma round_half_even_bounds (m : positive) (e lo hi : Z) :
  IZR lo - / 2 < IZR (Zpos m) * pow2 e < IZR hi + / 2 ->
  (lo <= Js.round_half_even m e <= hi)%Z.
Proof.
  intros [Hlo Hhi].
  assert (Hint : forall v : Z,
             IZR lo - / 2 < IZR v < IZR hi + / 2 -> (lo <= v <= hi)%Z).
  { intros v [H1 H2].
    assert (IZR (2 * lo - 1) < IZR (2 * v)) as H1'
      by (rewrite minus_IZR, !mult_IZR; lra).
    assert (IZR (2 * v) < IZR (2 * hi + 1)) as H2'
      by (rewrite plus_IZR, !mult_IZR; lra).
    apply lt_IZR in H1', H2'. lia. }
  destruct e as [|q|k]; unfold Js.round_half_even.
  - rewrite Z.shiftl_0_r. apply Hint. change (pow2 0) with 1 in Hlo, Hhi. lra.
  - rewrite Z.shiftl_mul_pow2 by lia. apply Hint.
    rewrite mult_IZR. rewrite (pow2_nonneg_exp (Zpos q)) in Hlo, Hhi by lia. lra.
  - rewrite Z.shiftr_div_pow2, Z.land_ones, Z.shiftl_1_l by lia.
    set (K := (2 ^ Zpos k)%Z).
    assert (HK : (0 < K)%Z) by (subst K; lia).
    assert (HKR : 0 < IZR K) by (apply IZR_lt; exact HK).
    assert (Hp : pow2 (Zneg k) = / IZR K) by reflexivity.
    rewrite Hp in Hlo, Hhi.
    assert (Hlo' : IZR ((2 * lo - 1) * K) < IZR (2 * Zpos m)).
    { rewrite !mult_IZR, minus_IZR, mult_IZR.
      apply (Rmult_lt_compat_r (2 * IZR K)) in Hlo; [|lra].
      replace (IZR (Zpos m) * / IZR K * (2 * IZR K)) with (2 * IZR (Zpos m)) in Hlo
        by (field; lra).
      lra. }
    assert (Hhi' : IZR (2 * Zpos m) < IZR ((2 * hi + 1) * K)).
    { rewrite !mult_IZR, plus_IZR, mult_IZR.
      apply (Rmult_lt_compat_r (2 * IZR K)) in Hhi; [|lra].
      replace (IZR (Zpos m) * / IZR K * (2 * IZR K)) with (2 * IZR (Zpos m)) in Hhi
        by (field; lra).
      lra. }
    apply lt_IZR in Hlo', Hhi'.
    pose proof (Z.div_mod (Zpos m) K ltac:(lia)) as Hdm.
    pose proof (Z.mod_pos_bound (Zpos m) K HK) as Hmod.
    set (f := (Zpos m / K)%Z) in *. set (rest := (Zpos m mod K)%Z) in *.
    rewrite Hdm in Hlo', Hhi'.
    destruct (Z.compare_spec (2 * rest) K) as [E|E|E];
      [destruct (Z.even f)| |]; nia.
Qed.

(** [ToUint8Clamp] stays within byte bounds that hold of the Number. *)
Lemma ToUint8Clamp_bounds (x : float) (lo hi : Z) :
  Ffin x -> (0 <= lo)%Z -> (hi <= 255)%Z ->
  IZR lo - / 2 < FV x < IZR hi + / 2 ->
  (lo <= Js.ToUint8Clamp x <= hi)%Z.
Proof.
  intros Fx Hlo Hhi [Vlo Vhi].
  destruct FV_0 as [F0 V0]. destruct FV_255 as [F255 V255].
  assert (Hlh : (lo <= hi)%Z).
  { assert (IZR lo < IZR (hi + 1)) as H by (rewrite plus_IZR; lra).
    apply lt_IZR in H. lia. }
  unfold Js.ToUint8Clamp, is_nan.
  rewrite (proj2 (eqb_FV x x Fx Fx) eq_refl). cbn [negb].
  destruct (x <=? 0)%float eqn:E0.
  - apply (proj1 (leb_FV _ _ Fx F0)) in E0. rewrite V0 in E0.
    assert (IZR lo < IZR 1) as H by lra. apply lt_IZR in H. lia.
  - apply (leb_false_FV _ _ Fx F0) in E0. rewrite V0 in E0.
    destruct (255 <=? x)%float eqn:E1.
    + apply (proj1 (leb_FV _ _ F255 Fx)) in E1. rewrite V255 in E1.
      assert (IZR 254 < IZR hi) as H by lra. apply lt_IZR in H. lia.
    + unfold FV, Ffin in Fx, Vlo, Vhi, E0.
      destruct (Prim2SF x) as [s|s| |s m e]; try discriminate;
        [cbn [SF2R] in E0; lra|].
      rewrite SF2R_finite in Vlo, Vhi, E0.
      assert (0 < IZR (Zpos m) * pow2 e).
      { pose proof (pow2_pos e). apply Rmult_lt_0_compat; [|assumption].
        apply IZR_lt. lia. }
      destruct s; [lra|].
      apply round_half_even_bounds. lra.
Qed.

Lemma Z_of_byte_of_Z (z : Z) : (0 <= z <= 255)%Z -> Z_of_byte (byte_of_Z z) = z.
Proof.
  intros Hz. unfold Z_of_byte, byte_of_Z.
  destruct (Byte.of_N (Z.to_N z)) as [b|] eqn:E.
  - apply Byte.to_of_N in E. rewrite E. lia.
  - apply Byte.of_N_None_iff in E. lia.
Qed.

Lemma FV_neg_zero : Ffin neg_zero /\ FV neg_zero = 0.
Proof. split; reflexivity. Qed.

(** The blend of a byte with a byte-valued Number, with a weight in
    [[0,1]], is stored as a byte between the two. *)
Lemma store_lerp_between (r n : Z) (x t : float) :
  (0 <= r <= 255)%Z -> (0 <= n <= 255)%Z ->
  Ffin x -> FV x = IZR n -> Ffin t -> 0 <= FV t <= 1 ->
  between r n (Z_of_byte (storeNum (lerp (Js.ofZ r) x t))).
Proof.
  intros Hr Hn Fx Vx Ft Vt.
  assert (Hr53 : (0 <= r < 2 ^ 53)%Z)
    by (assert (255 < 2 ^ 53)%Z by (vm_compute; reflexivity); lia).
  destruct (FV_ofZ r Hr53) as [Fr Vr]. destruct FV_1 as [F1 V1].
  assert (HR : 0 <= IZR r <= 255) by (split; apply IZR_le; lia).
  assert (HN : 0 <= IZR n <= 255) by (split; apply IZR_le; lia).
  unfold lerp.
  destruct (Fsub_bound 1 t F1 Ft) as [Fu Vu]; [rewrite V1; lra|].
  rewrite V1 in Vu. unfold eps64 in Vu.
  destruct (Fmul_bound (Js.ofZ r) (1 - t) Fr Fu) as [Fa Va].
  { rewrite Vr. split; nra. }
  rewrite Vr in Va. unfold eps64 in Va.
  destruct (Fmul_bound x t Fx Ft) as [Fb Vb].
  { rewrite Vx. split; nra. }
  rewrite Vx in Vb. unfold eps64 in Vb.
  set (T := FV t) in *. set (U := FV (1 - t)) in *.
  set (A := FV (Js.ofZ r * (1 - t))) in *. set (B := FV (x * t)) in *.
  assert (HA : - 1 <= A <= 257) by (split; nra).
  assert (HB : - 1 <= B <= 257) by (split; nra).
  destruct (Fadd_bound _ _ Fa Fb) as [Fv Vv]; [fold A B; lra|].
  fold A B in Vv. unfold eps64 in Vv.
  set (V := FV (Js.ofZ r * (1 - t) + x * t)) in *.
  set (lo := Z.min r n). set (hi := Z.max r n).
  assert (Hlo : IZR lo <= IZR r /\ IZR lo <= IZR n)
    by (split; apply IZR_le; subst lo; lia).
  assert (Hhi : IZR r <= IZR hi /\ IZR n <= IZR hi)
    by (split; apply IZR_le; subst hi; lia).
  assert (Hconv : IZR lo <= IZR r * (1 - T) + IZR n * T <= IZR hi)
    by (split; nra).
  assert (Herr : - / 4 <= V - (IZR r * (1 - T) + IZR n * T) <= / 4).
  { assert (- / 1000000 <= IZR r * (U - (1 - T)) <= / 1000000)
      by (split; nra).
    split; nra. }
  unfold between, storeNum. fold lo hi.
  assert (Hb : (lo <= Js.ToUint8Clamp (Js.ofZ r * (1 - t) + x * t) <= hi)%Z).
  { apply ToUint8Clamp_bounds; [exact Fv|subst lo; lia|subst hi; lia|].
    fold V. lra. }
  rewrite Z_of_byte_of_Z; [exact Hb|subst lo hi; lia].
Qed.

Lemma alpha_checked : forallb alpha_ok bytesZ = true.
Proof. vm_compute. reflexivity. Qed.

Lemma alpha_unit (m : byte) :
  Ffin (numOfByte m / 255) /\ 0 <= FV (numOfByte m / 255) <= 1.
Proof.
  apply in_unit_spec.
  pose proof alpha_checked as H. rewrite forallb_forall in H.
  apply (H (Z_of_byte m)). apply In_bytesZ, Z_of_byte_range.
Qed.

End Blend.

(** ** The loop, pixel by pixel *)

Section PerPixel.

Lemma pixelAt_Some (data : list byte) (k : nat) (r g b a : byte) :
  pixelAt data k = Some (r, g, b, a) ->
  data !! (4 * k)%nat = Some r /\ data !! (4 * k + 1)%nat = Some g
  /\ data !! (4 * k + 2)%nat = Some b /\ data !! (4 * k + 3)%nat = Some a.
Proof.
  unfold pixelAt.
  destruct (data !! (4 * k)%nat); [|discriminate].
  destruct (data !! (4 * k + 1)%nat); [|discriminate].
  destruct (data !! (4 * k + 2)%nat); [|discriminate].
  destruct (data !! (4 * k + 3)%nat); [|discriminate].
  intros [= -> -> -> ->]. done.
Qed.

(** A pixel after the loop is what the iteration at its offset makes of
    the pixel in the original buffer. *)
Lemma loop_pixel (hT sT : float) (maskData data : list byte) (k : nat) :
  pixelAt (applyColor_loop hT sT maskData data) k
  = pixelAt (applyColor_body hT sT maskData data (4 * k)) k.
Proof.
  assert (Hdiv : forall c, (c < 4)%nat -> ((4 * k + c) / 4)%nat = k).
  { intros c Hc. symmetry. apply (Nat.div_unique _ 4 k c); lia. }
  pose proof (Hdiv 0%nat ltac:(lia)) as Hdiv0. rewrite Nat.add_0_r in Hdiv0.
  unfold pixelAt. rewrite !loop_lookup_all, !Hdiv, Hdiv0 by lia. done.
Qed.

(** The iteration at a pixel whose mask alpha is positive: the three
    blends, and the alpha of the pixel. *)
Lemma body_blend (hT sT : float) (maskData data : list byte) (k : nat)
    (r g b a m : byte) :
  pixelAt data k = Some (r, g, b, a) ->
  alphaAt maskData k = Some m ->
  (0 <? numOfByte m)%float = true ->
  pixelAt (applyColor_body hT sT maskData data (4 * k)) k
  = let '(_, _, l) := rgbToHsl (numOfByte r) (numOfByte g) (numOfByte b) in
    let '(newR, newG, newB) := hslToRgb hT sT l in
    let t := (numOfByte m / 255)%float in
    Some (storeNum (lerp (numOfByte r) newR t),
          storeNum (lerp (numOfByte g) newG t),
          storeNum (lerp (numOfByte b) newB t), a).
Proof.
  intros Hp Hm Hpos. apply pixelAt_Some in Hp as (L0 & L1 & L2 & L3).
  unfold alphaAt in Hm. unfold applyColor_body, readNum.
  rewrite Hm, L0, L1, L2. fold (numOfByte m). rewrite Hpos.
  fold (numOfByte r) (numOfByte g) (numOfByte b).
  destruct (rgbToHsl _ _ _) as [[h s] l].
  destruct (hslToRgb hT sT l) as [[newR newG] newB].
  pose proof (lookup_lt_Some _ _ _ L0). pose proof (lookup_lt_Some _ _ _ L1).
  pose proof (lookup_lt_Some _ _ _ L2).
  unfold pixelAt.
  rewrite !list_lookup_insert, !length_insert.
  repeat first [rewrite decide_True by lia | rewrite decide_False by lia].
  rewrite L3. done.
Qed.

(** The iteration at a pixel without a positive mask alpha. *)
Lemma body_skip (hT sT : float) (maskData data : list byte) (k : nat) :
  match alphaAt maskData k with
  | Some m => (0 <? numOfByte m)%float = false
  | None => True
  end ->
  applyColor_body hT sT maskData data (4 * k) = data.
Proof.
  unfold alphaAt, applyColor_body, readNum, numOfByte.
  destruct (maskData !! (4 * k + 3)%nat) as [m|].
  - intros ->. done.
  - intros _. replace (0 <? nan)%float with false by (by vm_compute). done.
Qed.

End PerPixel.

(** ** What the loop does to a pixel *)

Section PixelCases.

(** A pixel after the recolouring: the source pixel, or the blend of
    each channel with the candidate colour under the mask's weight. *)
Lemma recolor_cases (hex : string) (maskData data : list byte) (k : nat)
    (r g b a : byte) (hT sT lT h s l newR newG newB : float) :
  pixelAt data k = Some (r, g, b, a) ->
  targetHsl hex = (hT, sT, lT) ->
  rgbToHsl (numOfByte r) (numOfByte g) (numOfByte b) = (h, s, l) ->
  hslToRgb hT sT l = (newR, newG, newB) ->
  (match alphaAt maskData k with
   | Some m => (0 <? numOfByte m)%float = false
   | None => True
   end
   /\ pixelAt (recolor hex maskData data) k = Some (r, g, b, a))
  \/ exists m : byte,
       alphaAt maskData k = Some m
       /\ (0 <? numOfByte m)%float = true
       /\ pixelAt (recolor hex maskData data) k
          = Some (storeNum (lerp (numOfByte r) newR (numOfByte m / 255)),
                  storeNum (lerp (numOfByte g) newG (numOfByte m / 255)),
                  storeNum (lerp (numOfByte b) newB (numOfByte m / 255)), a).
Proof.
  intros Hp HT Hhsl Hrgb. unfold recolor. rewrite HT, loop_pixel.
  destruct (alphaAt maskData k) as [m|] eqn:Hm.
  - destruct (0 <? numOfByte m)%float eqn:Hpos.
    + right. exists m. split; [reflexivity|]. split; [exact Hpos|].
      rewrite (body_blend hT sT maskData data k r g b a m Hp Hm Hpos).
      rewrite Hhsl, Hrgb. reflexivity.
    + left. split; [reflexivity|].
      rewrite body_skip; [exact Hp|]. rewrite Hm. exact Hpos.
  - left. split; [exact I|]. rewrite body_skip; [exact Hp|]. rewrite Hm. exact I.
Qed.

(** The hue and the saturation of a target colour lie in [[0,1]]. *)
Lemma targetHsl_unit (hex : string) :
  let '(hT, sT, _) := targetHsl hex in
  in_unit hT = true /\ in_unit sT = true.
Proof.
  unfold targetHsl. pose proof (hexToRgb_bytes hex) as Hb.
  destruct (hexToRgb hex) as [[rT gT] bT]. destruct Hb as (H1 & H2 & H3).
  pose proof (rgbToHsl_unit rT gT bT H1 H2 H3) as Hu.
  destruct (rgbToHsl _ _ _) as [[hT sT] lT]. tauto.
Qed.

Lemma byte_channel (x : float) (n : Z) :
  0 <= n <= 255 ->
  x = Js.ofZ n \/ (n = 0 /\ x = neg_zero) ->
  Ffin x /\ FV x = IZR n /\ sameNumber x (Js.ofZ n).
Proof.
  intros Hn Hx.
  assert (Hn53 : 0 <= n < 2 ^ 53)
    by (assert (255 < 2 ^ 53) by (vm_compute; reflexivity); lia).
  destruct (FV_ofZ n Hn53) as [Fn Vn].
  destruct Hx as [->|[-> ->]].
  - repeat split; try assumption.
    unfold sameNumber. apply eqb_FV; auto.
  - repeat split; reflexivity.
Qed.

Lemma Z_of_byte_inj (x y : byte) : Z_of_byte x = Z_of_byte y -> x = y.
Proof.
  intros E. rewrite <- (byte_of_Z_of_byte x), <- (byte_of_Z_of_byte y), E.
  reflexivity.
Qed.

End PixelCases.

(** X3: the recolouring treats each pixel on its own, and reads nothing
    of the mask but its alpha channel: two runs whose source buffers
    agree on a pixel and whose masks agree on the alpha of that pixel
    produce the same output pixel, whatever the rest of the buffers. *)
Theorem recolor_pixel_local (hex : string) (maskData maskData' data data' : list byte)
    (k : nat) (px : byte * byte * byte * byte) :
  pixelAt data k = Some px ->
  pixelAt data' k = Some px ->
  alphaAt maskData k = alphaAt maskData' k ->
  pixelAt (recolor hex maskData data) k = pixelAt (recolor hex maskData' data') k.
Proof.
  intros Hp Hp' Hm. destruct px as [[[r g] b] a].
  unfold recolor. destruct (targetHsl hex) as [[hT sT] lT].
  rewrite !loop_pixel.
  destruct (alphaAt maskData k) as [m|] eqn:Em; symmetry in Hm.
  - destruct (0 <? numOfByte m)%float eqn:Hpos.
    + rewrite (body_blend hT sT maskData data k r g b a m Hp Em Hpos).
      rewrite (body_blend hT sT maskData' data' k r g b a m Hp' Hm Hpos).
      reflexivity.
    + rewrite !body_skip; [congruence| |]; [rewrite Hm|rewrite Em]; exact Hpos.
  - rewrite !body_skip; [congruence| |]; [rewrite Hm|rewrite Em]; exact I.
Qed.

Lemma recolor_pixel_local_witness :
  pixelAt (recolor "#336699" [x01; x02; x03; x80] [x0a; x14; x1e; xff]) 0
  = pixelAt (recolor "#336699" [xff; xff; xff; x80; x00]
               [x0a; x14; x1e; xff; x05; x06]) 0.
Proof.
  apply (recolor_pixel_local _ _ _ _ _ 0 (x0a, x14, x1e, xff)); reflexivity.
Defined.

(** X4: where the mask buffer has no alpha byte for a pixel (a mask
    buffer shorter than the source buffer), the pixel is left as it
    is: a missing alpha reads as [undefined], which is not [> 0]. *)
Theorem recolor_outside_mask (hex : string) (maskData data : list byte) (k : nat) :
  alphaAt maskData k = None ->
  pixelAt (recolor hex maskData data) k = pixelAt data k.
Proof.
  intros Hm. unfold recolor. destruct (targetHsl hex) as [[hT sT] lT].
  rewrite loop_pixel, body_skip; [reflexivity|]. rewrite Hm. exact I.
Qed.

Lemma recolor_outside_mask_witness :
  pixelAt (recolor "#336699" [x00; x00; x00; xff]
             [x0a; x14; x1e; xff; x28; x32; x3c; xff]) 1
  = pixelAt [x0a; x14; x1e; xff; x28; x32; x3c; xff] 1.
Proof. apply recolor_outside_mask. reflexivity. Defined.

(** X5: the channels of the candidate colour [hslToRgb(hT, sT, l)] are
    the Numbers of three integers of [[0, 255]], and whatever the mask
    alpha of a pixel, each colour channel of the output pixel lies
    between the source channel and that integer: the blend never
    overshoots.  The alpha of the pixel stays. *)
Theorem recolor_between (hex : string) (maskData data : list byte) (k : nat)
    (r g b a : byte) :
  pixelAt data k = Some (r, g, b, a) ->
  let '(hT, sT, _) := targetHsl hex in
  let '(_, _, l) := rgbToHsl (numOfByte r) (numOfByte g) (numOfByte b) in
  exists (nR nG nB : Z) (r' g' b' : byte),
    (0 <= nR <= 255 /\ 0 <= nG <= 255 /\ 0 <= nB <= 255)
    /\ sameRgb (hslToRgb hT sT l) (Js.ofZ nR, Js.ofZ nG, Js.ofZ nB)
    /\ pixelAt (recolor hex maskData data) k = Some (r', g', b', a)
    /\ between (Z_of_byte r) nR (Z_of_byte r')
    /\ between (Z_of_byte g) nG (Z_of_byte g')
    /\ between (Z_of_byte b) nB (Z_of_byte b').
Proof.
  intros Hp.
  pose proof (targetHsl_unit hex) as HT.
  destruct (targetHsl hex) as [[hT sT] lT] eqn:ET. destruct HT as [HhT HsT].
  pose proof (rgbToHsl_unit _ _ _ (Z_of_byte_range r) (Z_of_byte_range g)
                (Z_of_byte_range b)) as Hu.
  fold (numOfByte r) (numOfByte g) (numOfByte b) in Hu.
  destruct (rgbToHsl (numOfByte r) (numOfByte g) (numOfByte b))
    as [[h s] l] eqn:Ehsl.
  destruct Hu as (_ & _ & Hl).
  destruct (hslToRgb_bytes hT sT l HhT HsT Hl) as (nR & nG & nB & Hn & Hnew).
  destruct (hslToRgb hT sT l) as [[newR newG] newB] eqn:Ergb.
  destruct Hn as (HnR & HnG & HnB). destruct Hnew as (ER & EG & EB).
  destruct (byte_channel newR nR HnR ER) as (FR & VR & SR).
  destruct (byte_channel newG nG HnG EG) as (FG & VG & SG).
  destruct (byte_channel newB nB HnB EB) as (FB & VB & SB).
  exists nR, nG, nB.
  pose proof (Z_of_byte_range r) as Hr. pose proof (Z_of_byte_range g) as Hg.
  pose proof (Z_of_byte_range b) as Hb.
  destruct (recolor_cases hex maskData data k r g b a hT sT lT h s l
              newR newG newB Hp ET Ehsl Ergb) as [[_ E]|(m & _ & _ & E)].
  - exists r, g, b. unfold between. repeat split; try assumption; lia.
  - destruct (alpha_unit m) as [Ft Vt].
    eexists _, _, _. split; [repeat split; lia|].
    split; [repeat split; assumption|].
    split; [exact E|].
    repeat split; apply store_lerp_between; assumption.
Qed.

Lemma recolor_between_witness :
  let '(hT, sT, _) := targetHsl "#336699" in
  let '(_, _, l) := rgbToHsl (numOfByte x0a) (numOfByte x14) (numOfByte x1e) in
  exists (nR nG nB : Z) (r' g' b' : byte),
    (0 <= nR <= 255 /\ 0 <= nG <= 255 /\ 0 <= nB <= 255)
    /\ sameRgb (hslToRgb hT sT l) (Js.ofZ nR, Js.ofZ nG, Js.ofZ nB)
    /\ pixelAt (recolor "#336699" [x00; x00; x00; x80] [x0a; x14; x1e; xc8]) 0
       = Some (r', g', b', xc8)
    /\ between (Z_of_byte x0a) nR (Z_of_byte r')
    /\ between (Z_of_byte x14) nG (Z_of_byte g')
    /\ between (Z_of_byte x1e) nB (Z_of_byte b').
Proof.
  exact (recolor_between "#336699" [x00; x00; x00; x80]
           [x0a; x14; x1e; xc8] 0 x0a x14 x1e xc8 eq_refl).
Defined.

(** X6: painting a pixel with its own colour changes nothing: when the
    picker holds the colour of the source pixel, the output pixel is
    the source pixel, whatever the mask alpha. *)
Theorem recolor_own_colour (hex : string) (maskData data : list byte) (k : nat)
    (r g b a : byte) :
  hexToRgb hex = (Z_of_byte r, Z_of_byte g, Z_of_byte b) ->
  pixelAt data k = Some (r, g, b, a) ->
  pixelAt (recolor hex maskData data) k = Some (r, g, b, a).
Proof.
  intros Hhex Hp.
  pose proof (Z_of_byte_range r) as Hr. pose proof (Z_of_byte_range g) as Hg.
  pose proof (Z_of_byte_range b) as Hb.
  pose proof (rgb_hsl_roundtrip_exact _ _ _ Hr Hg Hb) as Hrt.
  assert (ET : targetHsl hex = rgbToHsl (numOfByte r) (numOfByte g) (numOfByte b)).
  { unfold targetHsl. rewrite Hhex. reflexivity. }
  fold (numOfByte r) (numOfByte g) (numOfByte b) in Hrt.
  destruct (rgbToHsl (numOfByte r) (numOfByte g) (numOfByte b))
    as [[h s] l] eqn:Ehsl.
  destruct (recolor_cases hex maskData data k r g b a h s l h s l
              _ _ _ Hp ET Ehsl Hrt) as [[_ E]|(m & _ & _ & E)]; [exact E|].
  rewrite E. destruct (alpha_unit m) as [Ft Vt].
  assert (Hsame : forall c : byte,
             storeNum (lerp (numOfByte c) (numOfByte c) (numOfByte m / 255)) = c).
  { intros c. pose proof (Z_of_byte_range c) as Hc.
    assert (Hc53 : 0 <= Z_of_byte c < 2 ^ 53)
      by (assert (255 < 2 ^ 53) by (vm_compute; reflexivity); lia).
    destruct (FV_ofZ _ Hc53) as [Fc Vc].
    pose proof (store_lerp_between (Z_of_byte c) (Z_of_byte c) (numOfByte c)
                  (numOfByte m / 255) Hc Hc Fc Vc Ft Vt) as Hbt.
    unfold between in Hbt. apply Z_of_byte_inj.
    fold (numOfByte c) in Hbt. lia. }
  rewrite !Hsame. reflexivity.
Qed.

Lemma recolor_own_colour_witness :
  pixelAt (recolor "#0a141e" [x00; x00; x00; x80] [x0a; x14; x1e; xc8]) 0
  = Some (x0a, x14, x1e, xc8).
Proof. apply recolor_own_colour; reflexivity. Defined.

(** ** The two converters *)

Section Greys.

Lemma grey_checked : forallb grey_ok bytesZ = true.
Proof. vm_compute. reflexivity. Qed.

Lemma rgbToHsl_grey_exact (v : Z) :
  0 <= v <= 255 ->
  rgbToHsl (Js.ofZ v) (Js.ofZ v) (Js.ofZ v) = (0, 0, Js.ofZ v / 255)%float.
Proof.
  intros Hv. pose proof grey_checked as H. rewrite forallb_forall in H.
  specialize (H v (In_bytesZ v Hv)). unfold grey_ok in H. cbv zeta in H.
  destruct (rgbToHsl _ _ _) as [[h s] l].
  apply andb_prop in H as [H Hl]. apply andb_prop in H as [Hh Hs].
  apply FloatAxioms.Leibniz.eqb_spec in Hh, Hs, Hl. by subst.
Qed.

End Greys.

(** X7: for every colour with channels in [[0,255]], the three
    components [rgbToHsl] returns lie in [[0,1]], as its comment says. *)
Theorem rgbToHsl_in_unit (r g b : Z) :
  0 <= r <= 255 -> 0 <= g <= 255 -> 0 <= b <= 255 ->
  let '(h, s, l) := rgbToHsl (Js.ofZ r) (Js.ofZ g) (Js.ofZ b) in
  in_unit h = true /\ in_unit s = true /\ in_unit l = true.
Proof. apply rgbToHsl_unit. Qed.

Lemma rgbToHsl_in_unit_witness :
  let '(h, s, l) := rgbToHsl (Js.ofZ 12) (Js.ofZ 200) (Js.ofZ 77) in
  in_unit h = true /\ in_unit s = true /\ in_unit l = true.
Proof. apply (rgbToHsl_in_unit 12 200 77); lia. Defined.

(** X8: for all Numbers [h], [s], [l] in [[0,1]], not only those that
    come from a colour, the three channels [hslToRgb] returns are
    integers between 0 and 255, as its comment says. *)
Theorem hslToRgb_in_range (h s l : float) :
  in_unit h = true -> in_unit s = true -> in_unit l = true ->
  exists nR nG nB : Z,
    (0 <= nR <= 255 /\ 0 <= nG <= 255 /\ 0 <= nB <= 255)
    /\ sameRgb (hslToRgb h s l) (Js.ofZ nR, Js.ofZ nG, Js.ofZ nB).
Proof.
  intros Hh Hs Hl.
  destruct (hslToRgb_bytes h s l Hh Hs Hl) as (nR & nG & nB & Hn & Hnew).
  exists nR, nG, nB. split; [exact Hn|].
  destruct (hslToRgb h s l) as [[newR newG] newB].
  destruct Hn as (HnR & HnG & HnB). destruct Hnew as (ER & EG & EB).
  repeat split; eapply byte_channel; eassumption.
Qed.

Lemma hslToRgb_in_range_witness :
  exists nR nG nB : Z,
    (0 <= nR <= 255 /\ 0 <= nG <= 255 /\ 0 <= nB <= 255)
    /\ sameRgb (hslToRgb 0.25 0.75 0.5) (Js.ofZ nR, Js.ofZ nG, Js.ofZ nB).
Proof. apply (hslToRgb_in_range 0.25 0.75 0.5); reflexivity. Defined.

(** X9: a grey, black and white included, has no hue and no
    saturation: on equal channels [v] [rgbToHsl] returns
    [(0, 0, v / 255)]. *)
Theorem rgbToHsl_grey (v : Z) :
  0 <= v <= 255 ->
  rgbToHsl (Js.ofZ v) (Js.ofZ v) (Js.ofZ v) = (0, 0, Js.ofZ v / 255)%float.
Proof. apply rgbToHsl_grey_exact. Qed.

Lemma rgbToHsl_grey_witness :
  rgbToHsl (Js.ofZ 128) (Js.ofZ 128) (Js.ofZ 128) = (0, 0, Js.ofZ 128 / 255)%float.
Proof. apply (rgbToHsl_grey 128). lia. Defined.

(** X10: painting with a grey, black or white takes the colour out and
    keeps the lightness: when the picker holds a colour of three equal
    channels, a pixel under mask alpha 255 becomes the grey
    [Math.round(l * 255)] of its own lightness [l], whatever the grey
    picked; the alpha of the pixel stays. *)
Theorem recolor_with_grey (hex : string) (v : Z) (maskData data : list byte)
    (k : nat) (r g b a : byte) :
  hexToRgb hex = (v, v, v) ->
  alphaAt maskData k = Some xff ->
  pixelAt data k = Some (r, g, b, a) ->
  let '(_, _, l) := rgbToHsl (numOfByte r) (numOfByte g) (numOfByte b) in
  exists c : byte,
    pixelAt (recolor hex maskData data) k = Some (c, c, c, a)
    /\ sameNumber (Js.Math_round (l * 255)) (numOfByte c).
Proof.
  intros Hhex Hm Hp.
  assert (Hv : 0 <= v <= 255).
  { pose proof (hexToRgb_bytes hex) as H. rewrite Hhex in H. tauto. }
  assert (ET : targetHsl hex = (0, 0, Js.ofZ v / 255)%float).
  { unfold targetHsl. rewrite Hhex. by apply rgbToHsl_grey_exact. }
  pose proof (rgbToHsl_unit _ _ _ (Z_of_byte_range r) (Z_of_byte_range g)
                (Z_of_byte_range b)) as Hu.
  fold (numOfByte r) (numOfByte g) (numOfByte b) in Hu.
  destruct (rgbToHsl (numOfByte r) (numOfByte g) (numOfByte b))
    as [[h s] l] eqn:Ehsl.
  destruct Hu as (_ & _ & Hl).
  assert (H0 : in_unit 0 = true) by reflexivity.
  destruct (hslToRgb_bytes 0 0 l H0 H0 Hl) as (n & n2 & n3 & (Hn & _) & Hnew).
  assert (Ergb : hslToRgb 0 0 l
                 = (Js.Math_round (l * 255), Js.Math_round (l * 255),
                    Js.Math_round (l * 255))) by reflexivity.
  rewrite Ergb in Hnew. destruct Hnew as (Ex & _).
  destruct (recolor_cases hex maskData data k r g b a _ _ _ h s l _ _ _
              Hp ET Ehsl Ergb) as [[Hno _]|(m & Hm' & _ & E)].
  { rewrite Hm in Hno. discriminate Hno. }
  rewrite Hm in Hm'. injection Hm' as <-.
  destruct (store_full_blend r _ n Hn Ex) as [Sr Er].
  destruct (store_full_blend g _ n Hn Ex) as [_ Eg].
  destruct (store_full_blend b _ n Hn Ex) as [_ Eb].
  cbv zeta in Sr, Er, Eg, Eb.
  change (Js.ofZ 255) with (numOfByte xff) in Sr, Er, Eg, Eb.
  exists (byte_of_Z n). rewrite E, Er, Eg, Eb. split; [reflexivity|].
  rewrite <- Er. exact Sr.
Qed.

Lemma recolor_with_grey_witness :
  let '(_, _, l) := rgbToHsl (numOfByte x0a) (numOfByte x14) (numOfByte x1e) in
  exists c : byte,
    pixelAt (recolor "#ffffff" [x00; x00; x00; xff] [x0a; x14; x1e; xc8]) 0
    = Some (c, c, c, xc8)
    /\ sameNumber (Js.Math_round (l * 255)) (numOfByte c).
Proof.
  exact (recolor_with_grey "#ffffff" 255 [x00; x00; x00; xff]
           [x0a; x14; x1e; xc8] 0 x0a x14 x1e xc8 eq_refl eq_refl eq_refl).
Defined.

(** ** The handlers *)

Section Handlers.

Context {Image File : Type}.
Variable imgWidth imgHeight : Image -> Z.
Variable loadFile : File -> option Image.
Variable decodeImage : string -> option Image.
Variable drawImage drawImageBlurred : Image -> float -> float -> Canvas -> list byte.

Local Notation "'St'" := (State Image File).
Local Notation "'apply_'" := (applyColor drawImage).
Local Notation "'mask_'" := (handleMasking decodeImage drawImage drawImageBlurred).
Local Notation "'request_'" := (requestMask decodeImage drawImage drawImageBlurred).
Local Notation "'upload_'" := (handleImageUpload imgWidth imgHeight loadFile drawImage).
Local Notation "'step_'" :=
  (step imgWidth imgHeight loadFile decodeImage drawImage drawImageBlurred).
Local Notation "'run_'" :=
  (run imgWidth imgHeight loadFile decodeImage drawImage drawImageBlurred).

Lemma length_flat_map_const {A B : Type} (f : A -> list B) (n : nat) (l : list A) :
  (forall x, length (f x) = n) -> length (flat_map f l) = (n * length l)%nat.
Proof.
  intros Hf. induction l as [|x l IH]; simpl; [lia|].
  rewrite length_app, Hf, IH. lia.
Qed.

(** [getImageData] of a rectangle that is not empty: four bytes a pixel. *)
Lemma getImageData_length (c : Canvas) (sw sh : Z) :
  sw <> 0 -> sh <> 0 ->
  exists data,
    getImageData c sw sh = inr data
    /\ length data = (4 * Z.to_nat sw * Z.to_nat sh)%nat.
Proof.
  intros Hw Hh. unfold getImageData.
  destruct (Z.eqb_spec sw 0) as [|_]; [done|].
  destruct (Z.eqb_spec sh 0) as [|_]; [done|]. cbn [orb].
  eexists. split; [reflexivity|].
  rewrite (length_flat_map_const _ (4 * Z.to_nat sw)%nat).
  - by rewrite length_seq.
  - intros y. rewrite (length_flat_map_const _ 4%nat).
    + by rewrite length_seq.
    + intros x. by destruct (_ && _).
Qed.

(** [applyColor] with an image, a mask and a canvas that is not empty. *)
Lemma applyColor_runs (st : St) (img : Image) (mc : Canvas) :
  originalImage st = Some img ->
  maskCanvas st = Some mc -> maskCtx st = Some mc ->
  cwidth (mainCanvas st) <> 0 -> cheight (mainCanvas st) <> 0 ->
  let w := cwidth (mainCanvas st) in
  let h := cheight (mainCanvas st) in
  let redrawn :=
    mkCanvas w h (drawImage img (Js.ofZ w) (Js.ofZ h) (mainCanvas st)) in
  exists data maskData,
    getImageData redrawn w h = inr data
    /\ getImageData mc w h = inr maskData
    /\ length maskData = length data
    /\ apply_ st
       = (setStatus "Color applied." success
            (setMainCanvas
               (mkCanvas w h (recolor (colorPicker_value st) maskData data)) st),
          None).
Proof.
  intros Hi Hc Hx Hw Hh w h redrawn.
  destruct (getImageData_length redrawn w h Hw Hh) as (data & Ed & Ld).
  destruct (getImageData_length mc w h Hw Hh) as (maskData & Em & Lm).
  exists data, maskData. split; [exact Ed|]. split; [exact Em|].
  split; [congruence|].
  unfold applyColor. rewrite Hi, Hc. cbn [setStatus setMainCanvas mainCanvas maskCtx colorPicker_value].
  fold w h. fold redrawn. rewrite Ed, Hx, Em. reflexivity.
Qed.

Lemma applyColor_mode (st : St) :
  modeToggle_checked (fst (apply_ st)) = modeToggle_checked st.
Proof.
  unfold applyColor.
  destruct (originalImage st); [|done]. destruct (maskCanvas st); [|done].
  cbn. destruct (getImageData _ _ _); [done|].
  destruct (maskCtx st); [|done]. by destruct (getImageData _ _ _).
Qed.

(** The two ways [handleMasking] ends once a file is chosen: an error
    before a mask is installed, reported on the status line; or a mask
    installed, the apply button enabled and [applyColor] run, its
    error, if any, reported the same way. *)
Lemma handleMasking_cases (res : FetchResult) (st : St) (f : File) :
  currentFile st = Some f ->
  (exists e,
     (forall s : St, request_ res s = (s, Some e))
     /\ mask_ res st
        = setLoading false
            (setStatus ("Error generating mask: " ++ errMessage e) error st))
  \/ (exists (r : Response) (data : Json) (base64 : option Json) (mimg : Image),
        res = Responded r /\ ok r = true /\ json r = inr data
        /\ maskPngBase64 data = inr base64 /\ falsy base64 = false
        /\ decodeImage ("data:image/png;base64," ++ stringOf base64) = Some mimg
        /\ let mc := maskCanvasOf drawImageBlurred mimg
                       (cwidth (mainCanvas st)) (cheight (mainCanvas st)) in
           let st1 :=
             enableApply
               (setStatus "Mask generated successfully!" success
                  (setMask mc
                     (setStatus "Uploading and masking..." normal
                        (setLoading true st)))) in
           mask_ res st
           = setLoading false
               (match apply_ st1 with
                | (s, Some e) =>
                    setStatus ("Error generating mask: " ++ errMessage e) error s
                | (s, None) => s
                end)).
Proof.
  intros Hf.
  assert (Hfail : forall e, (forall s : St, request_ res s = (s, Some e)) ->
            mask_ res st
            = setLoading false
                (setStatus ("Error generating mask: " ++ errMessage e) error st)).
  { intros e He. exact (handleMasking_failure _ _ _ res st f e Hf He). }
  destruct res as [e|r].
  { left. exists e. split; [done|]. by apply Hfail. }
  destruct (ok r) eqn:Hok.
  2:{ left. exists (ServiceError (statusText r)).
      assert (forall s : St, request_ (Responded r) s
                             = (s, Some (ServiceError (statusText r)))) as He
        by (intros s; unfold requestMask; by rewrite Hok).
      split; [exact He|]. by apply Hfail. }
  destruct (json r) as [e|data] eqn:Hj.
  { left. exists e.
    assert (forall s : St, request_ (Responded r) s = (s, Some e)) as He
      by (intros s; unfold requestMask; by rewrite Hok, Hj).
    split; [exact He|]. by apply Hfail. }
  destruct (maskPngBase64 data) as [e|base64] eqn:Hb.
  { left. exists e.
    assert (forall s : St, request_ (Responded r) s = (s, Some e)) as He
      by (intros s; unfold requestMask; by rewrite Hok, Hj, Hb).
    split; [exact He|]. by apply Hfail. }
  destruct (falsy base64) eqn:Hfalsy.
  { left. exists InvalidResponse.
    assert (forall s : St, request_ (Responded r) s = (s, Some InvalidResponse)) as He
      by (intros s; unfold requestMask; by rewrite Hok, Hj, Hb, Hfalsy).
    split; [exact He|]. by apply Hfail. }
  destruct (decodeImage ("data:image/png;base64," ++ stringOf base64))
    as [mimg|] eqn:Hdec.
  2:{ left. exists RejectedEvent.
      assert (forall s : St, request_ (Responded r) s = (s, Some RejectedEvent)) as He.
      { intros s. unfold requestMask, loadMask.
        rewrite Hok, Hj, Hb, Hfalsy. cbn [negb]. by rewrite Hdec. }
      split; [exact He|]. by apply Hfail. }
  right. exists r, data, base64, mimg. repeat (split; [done|]).
  cbv zeta. unfold handleMasking, requestMask, loadMask.
  rewrite Hf, Hok, Hj, Hb, Hfalsy. cbn [negb]. rewrite Hdec.
  cbn [mainCanvas setStatus setLoading].
  unfold maskCanvasOf.
  destruct (apply_ _) as [s [e|]]; reflexivity.
Qed.

(** What [handleMasking] leaves as it is, and the two things it can do
    to the mask. *)
Lemma handleMasking_effect (res : FetchResult) (st : St) :
  let st' := mask_ res st in
  (originalImage st' = originalImage st
   /\ currentFile st' = currentFile st
   /\ btnMask_disabled st' = btnMask_disabled st
   /\ colorPicker_value st' = colorPicker_value st
   /\ modeToggle_checked st' = modeToggle_checked st
   /\ cwidth (mainCanvas st') = cwidth (mainCanvas st)
   /\ cheight (mainCanvas st') = cheight (mainCanvas st))
  /\ ((maskCanvas st' = maskCanvas st /\ maskCtx st' = maskCtx st
       /\ btnApply_disabled st' = btnApply_disabled st)
      \/ (exists mimg,
            let mc := maskCanvasOf drawImageBlurred mimg
                        (cwidth (mainCanvas st)) (cheight (mainCanvas st)) in
            currentFile st <> None
            /\ maskCanvas st' = Some mc /\ maskCtx st' = Some mc
            /\ btnApply_disabled st' = false)).
Proof.
  destruct (currentFile st) as [f|] eqn:Hf.
  2:{ unfold handleMasking. rewrite Hf. cbv zeta. rewrite Hf.
      split; [repeat split|left; repeat split]. }
  destruct (handleMasking_cases res st f Hf)
    as [(e & _ & E)|(r & data & b64 & mimg & _ & _ & _ & _ & _ & _ & E)];
    cbv zeta in *; rewrite E; clear E.
  - split; [by repeat split|left; by repeat split].
  - match goal with |- context [applyColor drawImage ?s] =>
      pose proof (applyColor_frame drawImage s)
        as (Fi & Fc & Fx & Ff & Fbm & Fba & Fp & Fw & Fh);
      pose proof (applyColor_mode s) as Fm;
      destruct (applyColor drawImage s) as [s' [e|]] end;
      cbn in Fi, Fc, Fx, Ff, Fbm, Fba, Fp, Fw, Fh, Fm |- *;
      (split; [repeat split; congruence
              |right; exists mimg; split; [done|repeat split; congruence]]).
Qed.

(** What [handleImageUpload] does: nothing but remembering the file, or
    the image installed and the mask dropped. *)
Lemma handleImageUpload_effect (file : option File) (st : St) :
  let st' := upload_ file st in
  (originalImage st' = originalImage st /\ maskCanvas st' = maskCanvas st
   /\ maskCtx st' = maskCtx st /\ mainCanvas st' = mainCanvas st
   /\ btnMask_disabled st' = btnMask_disabled st
   /\ btnApply_disabled st' = btnApply_disabled st
   /\ (currentFile st' = currentFile st \/ currentFile st' <> None))
  \/ (originalImage st' <> None /\ maskCanvas st' = None
      /\ btnApply_disabled st' = true /\ btnMask_disabled st' = false
      /\ currentFile st' <> None).
Proof.
  unfold handleImageUpload. destruct file as [f|]; [|left; by repeat split; left].
  destruct (loadFile f) as [img|].
  - right.
    destruct (imageLoaded_fields imgWidth imgHeight drawImage img (setCurrentFile f st))
      as (-> & -> & -> & -> & ->). by repeat split.
  - left. repeat split. by right.
Qed.

Lemma step_aligned (st : St) (ev : Event File) :
  maskAligned st -> maskAligned (step_ st ev).
Proof.
  unfold maskAligned. intros Hst.
  destruct ev as [file|res| |hex|checked]; cbn [step]; try exact Hst.
  - destruct (handleImageUpload_effect file st)
      as [(_ & -> & -> & -> & _)|(_ & -> & _)]; [exact Hst|exact I].
  - destruct (btnMask_disabled st); [exact Hst|].
    destruct (handleMasking_effect res st)
      as [(_ & _ & _ & _ & _ & -> & ->) [(-> & -> & _)|(mimg & _ & -> & -> & _)]];
      [exact Hst|by repeat split].
  - destruct (btnApply_disabled st); [exact Hst|].
    pose proof (applyColor_frame drawImage st) as (_ & -> & -> & _ & _ & _ & _ & -> & ->).
    exact Hst.
Qed.

Lemma step_buttons (st : St) (ev : Event File) :
  buttonsSound st -> buttonsSound (step_ st ev).
Proof.
  unfold buttonsSound. intros (Hm & Hc & Ha).
  destruct ev as [file|res| |hex|checked]; cbn [step]; try done.
  - destruct (handleImageUpload_effect file st)
      as [(-> & -> & _ & _ & -> & -> & Hf)|(Hi & -> & -> & -> & Hf)].
    + repeat split; try tauto.
      destruct Hf as [->|Hf]; tauto.
    + repeat split; done.
  - destruct (btnMask_disabled st) eqn:Ed; [rewrite Ed; done|].
    destruct (Hm eq_refl) as [Hi Hf].
    destruct (handleMasking_effect res st)
      as [(-> & -> & -> & _) [(-> & _ & ->)|(mimg & _ & -> & _ & ->)]];
      rewrite ?Ed; repeat split; try tauto; done.
  - destruct (btnApply_disabled st) eqn:Ed; [rewrite Ed; done|].
    pose proof (applyColor_frame drawImage st)
      as (-> & -> & _ & -> & -> & -> & _).
    rewrite Ed. done.
Qed.

(** A canvas is its size and its bitmap. *)
Lemma canvas_eta (c : Canvas) : c = mkCanvas (cwidth c) (cheight c) (bitmap c).
Proof. by destruct c. Qed.

(** What [applyColor] leaves on the canvas has the size of the canvas,
    when the redraw has. *)
Lemma applyColor_canvas (st : St) (img : Image) :
  originalImage st = Some img ->
  maskCanvas st <> None ->
  let w := cwidth (mainCanvas st) in
  let h := cheight (mainCanvas st) in
  let redraw := drawImage img (Js.ofZ w) (Js.ofZ h) (mainCanvas st) in
  length redraw = pixelBytes w h ->
  exists b msg ty,
    length b = pixelBytes w h
    /\ fst (apply_ st) = setStatus msg ty (setMainCanvas (mkCanvas w h b) st).
Proof.
  intros Hi Hc w h redraw Hlen. unfold applyColor.
  destruct st as [oi mcv mctx cf cv bm ba cp mt ph ld stx scl]; simpl in *.
  subst oi. destruct mcv as [m|]; [|done]. fold w h redraw.
  destruct (getImageData (mkCanvas w h redraw) w h) as [e|data] eqn:Ed; simpl.
  { by exists redraw, "Applying color...", normal. }
  destruct mctx as [mc|]; simpl;
    [|by exists redraw, "Applying color...", normal].
  destruct (getImageData mc w h) as [e|maskData]; simpl;
    [by exists redraw, "Applying color...", normal|].
  exists (recolor cp maskData data), "Color applied.", success.
  split; [|done].
  unfold recolor. destruct (targetHsl cp) as [[hT sT] lT]. rewrite loop_length.
  unfold getImageData in Ed.
  destruct ((w =? 0) || (h =? 0)) eqn:Ez; [discriminate|].
  apply orb_false_elim in Ez as [Ew Eh].
  apply Z.eqb_neq in Ew, Eh.
  destruct (getImageData_length (mkCanvas w h redraw) w h Ew Eh) as (d & Ed' & Ld).
  unfold getImageData in Ed'. rewrite (proj2 (Z.eqb_neq _ _) Ew) in Ed'.
  rewrite (proj2 (Z.eqb_neq _ _) Eh) in Ed'. cbn [orb] in Ed'.
  assert (d = data) as -> by congruence. exact Ld.
Qed.

(** X11: with an image that covers the canvas (an image without
    transparency, drawn over the whole of a canvas whose bitmap has the
    size it says), a recolouring leaves no trace in the next one:
    changing the colour and applying again gives what applying the new
    colour to the untouched page gives, and applying the same colour
    again gives the same page again.  The hypothesis is about the
    canvas of the page and its own size only. *)
Theorem applyColor_no_drift (st : St) (hex : string) :
  canvasOk (mainCanvas st) ->
  (forall img, originalImage st = Some img ->
     covers drawImage img (cwidth (mainCanvas st)) (cheight (mainCanvas st))) ->
  apply_ (setPicker hex (fst (apply_ st))) = apply_ (setPicker hex st)
  /\ apply_ (fst (apply_ st)) = apply_ st.
Proof.
  intros Hok Hcov.
  assert (Hskip : sessionState st <> Masked ->
            apply_ (setPicker hex (fst (apply_ st))) = apply_ (setPicker hex st)
            /\ apply_ (fst (apply_ st)) = apply_ st).
  { intros Hs. pose proof (applyColor_skips drawImage st Hs) as E.
    rewrite E. cbn [fst]. split; [reflexivity|exact E]. }
  destruct (originalImage st) as [img|] eqn:Hi.
  2:{ apply Hskip. unfold sessionState. by rewrite Hi. }
  destruct (maskCanvas st) as [mcv|] eqn:Hc.
  2:{ apply Hskip. unfold sessionState. by rewrite Hi, Hc. }
  clear Hskip. specialize (Hcov img eq_refl).
  destruct (Hcov (bitmap (mainCanvas st)) Hok) as [Hlen Hsame].
  rewrite <- (canvas_eta (mainCanvas st)) in Hlen.
  assert (Hm : maskCanvas st <> None) by (by rewrite Hc).
  destruct (applyColor_canvas st img Hi Hm Hlen) as (b & msg & ty & Hb & ->).
  set (w := cwidth (mainCanvas st)) in *. set (h := cheight (mainCanvas st)) in *.
  assert (Hs : sessionState st = Masked) by (unfold sessionState; by rewrite Hi, Hc).
  assert (Hdraw : forall img', originalImage st = Some img' ->
            drawImage img' (Js.ofZ w) (Js.ofZ h) (mkCanvas w h b)
            = drawImage img' (Js.ofZ w) (Js.ofZ h) (mainCanvas st)).
  { intros img' Hi'. assert (img' = img) as -> by congruence.
    rewrite <- (Hsame b Hb). f_equal. symmetry. apply canvas_eta. }
  split.
  - change (setPicker hex (setStatus msg ty (setMainCanvas (mkCanvas w h b) st)))
      with (setStatus msg ty (setMainCanvas (mkCanvas w h b) (setPicker hex st))).
    apply (applyColor_redraw drawImage (setPicker hex st) (mkCanvas w h b)); done.
  - apply (applyColor_redraw drawImage st (mkCanvas w h b)); done.
Qed.

(** X12: with an image, a mask on the canvas of [maskCtx], and a main
    canvas that is not empty, [applyColor] raises nothing: the canvas
    receives the recolouring of the redrawn image under the mask, both
    read over the same rectangle and so of the same length, and the
    status line says so. *)
Theorem applyColor_paints (st : St) (img : Image) (mc : Canvas) :
  originalImage st = Some img ->
  maskCanvas st = Some mc -> maskCtx st = Some mc ->
  cwidth (mainCanvas st) <> 0 -> cheight (mainCanvas st) <> 0 ->
  let w := cwidth (mainCanvas st) in
  let h := cheight (mainCanvas st) in
  let redrawn :=
    mkCanvas w h (drawImage img (Js.ofZ w) (Js.ofZ h) (mainCanvas st)) in
  exists data maskData,
    getImageData redrawn w h = inr data
    /\ getImageData mc w h = inr maskData
    /\ length maskData = length data
    /\ apply_ st
       = (setStatus "Color applied." success
            (setMainCanvas
               (mkCanvas w h (recolor (colorPicker_value st) maskData data)) st),
          None).
Proof. apply applyColor_runs. Qed.

(** X13: [applyColor] writes the bitmap of the canvas and the status
    line, and nothing else: the image, the mask, the file, the two
    buttons, the picker and the size of the canvas are as before, and
    so is the state of the session, whether it returns or throws. *)
Theorem applyColor_leaves (st : St) :
  let st' := fst (apply_ st) in
  originalImage st' = originalImage st
  /\ maskCanvas st' = maskCanvas st
  /\ maskCtx st' = maskCtx st
  /\ currentFile st' = currentFile st
  /\ btnMask_disabled st' = btnMask_disabled st
  /\ btnApply_disabled st' = btnApply_disabled st
  /\ colorPicker_value st' = colorPicker_value st
  /\ cwidth (mainCanvas st') = cwidth (mainCanvas st)
  /\ cheight (mainCanvas st') = cheight (mainCanvas st)
  /\ sessionState st' = sessionState st.
Proof.
  pose proof (applyColor_frame drawImage st) as H. cbv zeta in *.
  destruct H as (Hi & Hc & Hx & Hf & Hbm & Hba & Hp & Hw & Hh).
  repeat (split; [assumption|]).
  unfold sessionState. by rewrite Hi, Hc.
Qed.

(** X14: a mask request that succeeds (a successful response carrying a
    mask that is not empty and decodes), on a page with a file, an image
    and a canvas that is not empty: the mask canvas is created with the
    size of the main canvas, the apply button is enabled, the current
    colour is applied at once, and the overlay is hidden again; the
    session is [Masked]. *)
Theorem handleMasking_success (r : Response) (data : Json) (base64 : option Json)
    (st : St) (f : File) (img mimg : Image) :
  currentFile st = Some f -> originalImage st = Some img ->
  ok r = true -> json r = inr data ->
  maskPngBase64 data = inr base64 -> falsy base64 = false ->
  decodeImage ("data:image/png;base64," ++ stringOf base64) = Some mimg ->
  cwidth (mainCanvas st) <> 0 -> cheight (mainCanvas st) <> 0 ->
  let w := cwidth (mainCanvas st) in
  let h := cheight (mainCanvas st) in
  let mc := maskCanvasOf drawImageBlurred mimg w h in
  let redrawn :=
    mkCanvas w h (drawImage img (Js.ofZ w) (Js.ofZ h) (mainCanvas st)) in
  let st' := mask_ (Responded r) st in
  exists pixels maskData,
    getImageData redrawn w h = inr pixels
    /\ getImageData mc w h = inr maskData
    /\ mainCanvas st'
       = mkCanvas w h (recolor (colorPicker_value st) maskData pixels)
    /\ maskCanvas st' = Some mc /\ maskCtx st' = Some mc
    /\ sessionState st' = Masked
    /\ btnApply_disabled st' = false
    /\ loading st' = false
    /\ statusText_ st' = "Color applied." /\ statusClass st' = success.
Proof.
  intros Hf Hi Hok Hj Hb Hfalsy Hdec Hw Hh w h mc redrawn st'.
  subst st'. unfold handleMasking, requestMask, loadMask.
  rewrite Hf, Hok, Hj, Hb, Hfalsy.
  cbn [negb]. rewrite Hdec. cbn [mainCanvas setStatus setLoading].
  match goal with |- context [applyColor drawImage ?s] =>
    destruct (applyColor_runs s img mc Hi eq_refl eq_refl Hw Hh)
      as (px & md & Epx & Emd & _ & Ea) end.
  exists px, md. rewrite Ea.
  split; [exact Epx|]. split; [exact Emd|].
  unfold sessionState. cbn. rewrite Hi. by repeat split.
Qed.

(** X15: when the mask of a successful response does not decode,
    [loadMask] rejects with the error event of the image, which has no
    message: the status line reads [Error generating mask: undefined],
    and nothing else of the page changes; no mask is installed. *)
Theorem mask_decode_failure (r : Response) (data : Json) (base64 : option Json)
    (st : St) (f : File) :
  currentFile st = Some f ->
  ok r = true -> json r = inr data ->
  maskPngBase64 data = inr base64 -> falsy base64 = false ->
  decodeImage ("data:image/png;base64," ++ stringOf base64) = None ->
  mask_ (Responded r) st
  = setLoading false (setStatus "Error generating mask: undefined" error st).
Proof.
  intros Hf Hok Hj Hb Hfalsy Hdec.
  apply (handleMasking_failure _ _ _ _ st f RejectedEvent Hf).
  intros s. unfold requestMask, loadMask. rewrite Hok, Hj, Hb, Hfalsy.
  cbn [negb]. by rewrite Hdec.
Qed.

(** X16: a successful response whose [maskPngBase64] is there but
    falsy (the empty string, [null], [false] or zero) is refused like
    one without the field: the request fails with [InvalidResponse]
    before anything is decoded, and only the status line changes. *)
Theorem empty_mask_string (r : Response) (data base64 : Json) (st : St) (f : File) :
  currentFile st = Some f ->
  ok r = true -> json r = inr data ->
  maskPngBase64 data = inr (Some base64) -> toBoolean base64 = false ->
  mask_ (Responded r) st
  = setLoading false
      (setStatus "Error generating mask: Invalid response: No mask data received"
         error st).
Proof.
  intros Hf Hok Hj Hb Hv.
  apply (handleMasking_failure _ _ _ _ st f InvalidResponse Hf).
  intros s. unfold requestMask. rewrite Hok, Hj, Hb. cbn. by rewrite Hv.
Qed.

(** X17: when [fetch] rejects, or [response.json()] rejects on a
    successful response (the body is not JSON), the rejection is
    caught: the status line shows the message of the error, the
    descriptive text of a [DOMException] included, after
    [Error generating mask: ], the overlay is hidden again and nothing
    else of the page changes. *)
Theorem request_rejected (res : FetchResult) (e : JsError) (st : St) (f : File) :
  currentFile st = Some f ->
  res = NetworkFailure e
  \/ (exists r, res = Responded r /\ ok r = true /\ json r = inl e) ->
  mask_ res st
  = setLoading false
      (setStatus ("Error generating mask: " ++ errMessage e) error st).
Proof.
  intros Hf Hres.
  apply (handleMasking_failure _ _ _ _ st f e Hf).
  intros s. destruct Hres as [->|(r & -> & Hok & Hj)]; [reflexivity|].
  unfold requestMask. by rewrite Hok, Hj.
Qed.

(** X18: whatever [fetch] produces, [handleMasking] leaves the image,
    the file, the mask button, the picker, the mode toggle and the size
    of the canvas as they are; without a file it does nothing at all,
    and with one the overlay is hidden when it ends, on success and on
    every failure. *)
Theorem handleMasking_leaves (res : FetchResult) (st : St) :
  let st' := mask_ res st in
  originalImage st' = originalImage st
  /\ currentFile st' = currentFile st
  /\ btnMask_disabled st' = btnMask_disabled st
  /\ colorPicker_value st' = colorPicker_value st
  /\ modeToggle_checked st' = modeToggle_checked st
  /\ cwidth (mainCanvas st') = cwidth (mainCanvas st)
  /\ cheight (mainCanvas st') = cheight (mainCanvas st)
  /\ (currentFile st = None -> st' = st)
  /\ (currentFile st <> None -> loading st' = false).
Proof.
  cbv zeta.
  destruct (handleMasking_effect res st) as [(H1 & H2 & H3 & H4 & H5 & H6 & H7) _].
  repeat (split; [assumption|]). split.
  - intros Hf. unfold handleMasking. by rewrite Hf.
  - intros Hf. unfold handleMasking.
    destruct (currentFile st); [|done].
    by destruct (requestMask _ _ _ _ _) as [s [e|]].
Qed.

(** X19: after an image loads, the canvas is as wide as the image, but
    never wider than [MAX_WIDTH]; an image that is not wider than
    [MAX_WIDTH] keeps its height too. *)
Theorem imageLoaded_canvas_size (img : Image) (st : St) :
  0 <= imgWidth img < 2 ^ 31 -> 0 <= imgHeight img < 2 ^ 31 ->
  let c := mainCanvas (imageLoaded imgWidth imgHeight drawImage img st) in
  cwidth c = Z.min (imgWidth img) MAX_WIDTH
  /\ (imgWidth img <= MAX_WIDTH -> cheight c = imgHeight img).
Proof.
  intros Hw Hh.
  assert (H31 : 2 ^ 31 < 2 ^ 53) by (vm_compute; reflexivity).
  assert (H32 : 2 ^ 31 < 2 ^ 32) by (vm_compute; reflexivity).
  destruct (FV_ofZ (imgWidth img)) as [Fw Vw]; [lia|].
  destruct (FV_ofZ MAX_WIDTH) as [Fm Vm]; [unfold MAX_WIDTH; lia|].
  unfold imageLoaded.
  destruct (Js.ofZ MAX_WIDTH <? Js.ofZ (imgWidth img))%float eqn:E;
    cbn [mainCanvas cwidth cheight].
  - apply (proj1 (ltb_FV _ _ Fm Fw)) in E. rewrite Vm, Vw in E.
    apply lt_IZR in E.
    split; [|lia].
    change (canvasDim (Js.ofZ MAX_WIDTH)) with MAX_WIDTH. lia.
  - apply (ltb_false_FV _ _ Fm Fw) in E. rewrite Vm, Vw in E.
    apply le_IZR in E. unfold canvasDim.
    rewrite !ToInt32_ofZ by lia. rewrite !Z.mod_small by lia.
    split; [lia|reflexivity].
Qed.

(** X20: along every run of events from the initial page, each handler
    run to its end before the next event, the mask canvas, when there
    is one, is the canvas of [maskCtx] and has the size of the main
    canvas. *)
Theorem mask_stays_aligned (picker : string) (maskOff applyOff : bool)
    (evs : list (Event File)) :
  maskAligned (run_ (initialState picker maskOff applyOff) evs).
Proof.
  assert (H : forall st : St, maskAligned st -> maskAligned (run_ st evs)).
  { induction evs as [|ev evs IH]; intros st Hst; [exact Hst|].
    cbn [run fold_left]. apply IH. by apply step_aligned. }
  apply H. exact I.
Qed.

(** X21: on a page that starts with its two buttons disabled, along
    every run of events, each handler run to its end before the next
    event: the mask button is enabled only when there are an image and
    a file, a mask exists only with an image, and the apply button is
    enabled only in state [Masked], where a click on it passes the
    guard of [applyColor]. *)
Theorem buttons_follow_session (picker : string) (evs : list (Event File)) :
  let st := run_ (initialState picker true true) evs in
  buttonsSound st
  /\ (btnApply_disabled st = false -> sessionState st = Masked).
Proof.
  assert (H : forall st : St, buttonsSound st -> buttonsSound (run_ st evs)).
  { induction evs as [|ev evs IH]; intros st Hst; [exact Hst|].
    cbn [run fold_left]. apply IH. by apply step_buttons. }
  assert (H0 : buttonsSound (initialState (Image := Image) (File := File) picker true true)).
  { unfold buttonsSound. cbn. repeat split; done. }
  specialize (H _ H0). cbv zeta. split; [exact H|].
  destruct H as (_ & Hc & Ha). intros Hb. specialize (Ha Hb).
  specialize (Hc Ha). unfold sessionState.
  destruct (originalImage _); [|done]. destruct (maskCanvas _); done.
Qed.

(** X22: in a state where the mask canvas is the canvas of [maskCtx],
    the only error [applyColor] can raise is the [IndexSizeError] of
    [getImageData], with the message of the engine, and only on a
    canvas without pixels; it never finds [maskCtx] null. *)
Theorem applyColor_errors (st : St) (e : JsError) :
  maskAligned st ->
  snd (apply_ st) = Some e ->
  e = DOMException "IndexSizeError" (indexSizeMessage (cwidth (mainCanvas st)))
  /\ (cwidth (mainCanvas st) = 0 \/ cheight (mainCanvas st) = 0).
Proof.
  unfold maskAligned. intros Hal He.
  destruct (originalImage st) as [img|] eqn:Hi.
  2:{ rewrite (applyColor_skips drawImage st) in He; [discriminate He|].
      unfold sessionState. by rewrite Hi. }
  destruct (maskCanvas st) as [mc|] eqn:Hc.
  2:{ rewrite (applyColor_skips drawImage st) in He; [discriminate He|].
      unfold sessionState. by rewrite Hi, Hc. }
  destruct Hal as (Hx & _).
  destruct ((cwidth (mainCanvas st) =? 0) || (cheight (mainCanvas st) =? 0))
    eqn:Ez.
  - split.
    + unfold applyColor, getImageData in He.
      rewrite Hi, Hc in He.
      cbn [setStatus setMainCanvas mainCanvas cwidth cheight] in He.
      rewrite Ez in He. cbn [snd] in He. injection He as <-. reflexivity.
    + apply orb_true_iff in Ez as [E|E]; apply Z.eqb_eq in E; [by left|by right].
  - apply orb_false_elim in Ez as [Ew Eh]. apply Z.eqb_neq in Ew, Eh.
    destruct (applyColor_runs st img mc Hi Hc Hx Ew Eh) as (? & ? & _ & _ & _ & Ea).
    rewrite Ea in He. discriminate He.
Qed.

End Handlers.

(** ** The handlers on the small browser, again *)

(** On the browser that composites, an opaque pixel covers the
    canvas. *)
Lemma opaque_covers : covers Canvas2D.drawImage Canvas2D.opaque 1 1.
Proof.
  intros b Hb.
  assert (Hover : forall b0 : list byte, length b0 = pixelBytes 1 1 ->
            Canvas2D.drawImage Canvas2D.opaque (Js.ofZ 1) (Js.ofZ 1) (mkCanvas 1 1 b0)
            = [x64; x64; x64; xff]).
  { intros b0 Hb0.
    destruct b0 as [|dr [|dg [|db [|da [|]]]]]; try discriminate Hb0.
    unfold Canvas2D.drawImage, Canvas2D.opaque. cbn [bitmap Canvas2D.composite].
    unfold Canvas2D.over.
    change (255 - Z_of_byte xff) with 0. rewrite !Z.mul_0_r, !Z.add_0_r.
    reflexivity. }
  split; [by rewrite Hover|].
  intros b' Hb'. by rewrite !Hover.
Qed.

Lemma applyColor_no_drift_witness :
  sessionState (Canvas2D.paintedOnce Canvas2D.opaque) = Masked
  /\ applyColor Canvas2D.drawImage
       (setPicker "#00FF00"
          (fst (applyColor Canvas2D.drawImage (Canvas2D.paintedOnce Canvas2D.opaque))))
     = applyColor Canvas2D.drawImage
         (setPicker "#00FF00" (Canvas2D.paintedOnce Canvas2D.opaque)).
Proof.
  assert (Hs : sessionState (Canvas2D.paintedOnce Canvas2D.opaque) = Masked)
    by (vm_compute; reflexivity).
  assert (Hok : canvasOk (mainCanvas (Canvas2D.paintedOnce Canvas2D.opaque)))
    by (vm_compute; reflexivity).
  assert (Ew : cwidth (mainCanvas (Canvas2D.paintedOnce Canvas2D.opaque)) = 1)
    by (vm_compute; reflexivity).
  assert (Eh : cheight (mainCanvas (Canvas2D.paintedOnce Canvas2D.opaque)) = 1)
    by (vm_compute; reflexivity).
  assert (Hcov : forall img,
            originalImage (Canvas2D.paintedOnce Canvas2D.opaque) = Some img ->
            covers Canvas2D.drawImage img
              (cwidth (mainCanvas (Canvas2D.paintedOnce Canvas2D.opaque)))
              (cheight (mainCanvas (Canvas2D.paintedOnce Canvas2D.opaque)))).
  { intros img Hi. rewrite Ew, Eh. vm_compute in Hi. injection Hi as <-.
    exact opaque_covers. }
  split; [exact Hs|].
  exact (proj1 (applyColor_no_drift Canvas2D.drawImage
                  (Canvas2D.paintedOnce Canvas2D.opaque) "#00FF00" Hok Hcov)).
Defined.

Lemma applyColor_paints_witness :
  exists data maskData,
    length maskData = length data
    /\ snd (applyColor Demo.drawImage Demo.withMask) = None
    /\ bitmap (mainCanvas (fst (applyColor Demo.drawImage Demo.withMask)))
       = recolor "#FF0000" maskData data.
Proof.
  destruct (applyColor_paints Demo.drawImage Demo.withMask Demo.photo
              (mkCanvas 1 1 [x00; x00; x00; xff]) eq_refl eq_refl eq_refl)
    as (data & maskData & _ & _ & Hlen & E); [discriminate|discriminate|].
  exists data, maskData. rewrite E. repeat split. exact Hlen.
Defined.

Lemma handleMasking_success_witness :
  sessionState Demo.withMask = Masked
  /\ btnApply_disabled Demo.withMask = false
  /\ statusText_ Demo.withMask = "Color applied.".
Proof.
  destruct (handleMasking_success Demo.decodeImage Demo.drawImage Demo.drawImage
              (mkResponse true "OK"
                 (inr (JObject [("maskPngBase64", JString "iVBORw0KGgo=")])))
              (JObject [("maskPngBase64", JString "iVBORw0KGgo=")])
              (Some (JString "iVBORw0KGgo=")) Demo.withPhoto
              Demo.photo Demo.photo [x00; x00; x00; xff]
              eq_refl eq_refl eq_refl eq_refl eq_refl)
    as (px & md & _ & _ & _ & _ & _ & Hs & Hb & _ & Ht & _);
    try discriminate; [reflexivity|reflexivity|].
  repeat split; assumption.
Defined.

Lemma mask_decode_failure_witness :
  statusText_
    (handleMasking (fun _ => None) Demo.drawImage Demo.drawImage
       Demo.goodResponse Demo.withPhoto)
  = "Error generating mask: undefined"
  /\ maskCanvas
       (handleMasking (fun _ => None) Demo.drawImage Demo.drawImage
          Demo.goodResponse Demo.withPhoto)
     = None.
Proof.
  unfold Demo.goodResponse.
  rewrite (mask_decode_failure (fun _ => None) Demo.drawImage Demo.drawImage
             (mkResponse true "OK"
                (inr (JObject [("maskPngBase64", JString "iVBORw0KGgo=")])))
             (JObject [("maskPngBase64", JString "iVBORw0KGgo=")])
             (Some (JString "iVBORw0KGgo=")) Demo.withPhoto
             Demo.photo eq_refl eq_refl eq_refl eq_refl eq_refl eq_refl).
  split; reflexivity.
Defined.

Lemma empty_mask_string_witness :
  handleMasking Demo.decodeImage Demo.drawImage Demo.drawImage
    (Responded
       (mkResponse true "OK"
          (inr (JObject [("maskPngBase64", JString EmptyString)]))))
    Demo.withPhoto
  = setLoading false
      (setStatus "Error generating mask: Invalid response: No mask data received"
         error Demo.withPhoto).
Proof.
  exact (empty_mask_string Demo.decodeImage Demo.drawImage Demo.drawImage
           (mkResponse true "OK"
              (inr (JObject [("maskPngBase64", JString EmptyString)])))
           (JObject [("maskPngBase64", JString EmptyString)])
           (JString EmptyString) Demo.withPhoto Demo.photo
           eq_refl eq_refl eq_refl eq_refl eq_refl).
Defined.

Lemma request_rejected_witness :
  handleMasking Demo.decodeImage Demo.drawImage Demo.drawImage
    (NetworkFailure (TypeError "Failed to fetch")) Demo.withMask
  = setLoading false
      (setStatus "Error generating mask: Failed to fetch" error Demo.withMask).
Proof.
  exact (request_rejected Demo.decodeImage Demo.drawImage Demo.drawImage
           (NetworkFailure (TypeError "Failed to fetch"))
           (TypeError "Failed to fetch") Demo.withMask Demo.photo
           eq_refl (or_introl eq_refl)).
Defined.

Lemma handleMasking_leaves_witness :
  handleMasking Demo.decodeImage Demo.drawImage Demo.drawImage
    Demo.goodResponse Demo.empty
  = Demo.empty
  /\ loading
       (handleMasking Demo.decodeImage Demo.drawImage Demo.drawImage
          Demo.failedResponse Demo.withPhoto)
     = false.
Proof.
  split.
  - apply (handleMasking_leaves Demo.decodeImage Demo.drawImage Demo.drawImage
             Demo.goodResponse Demo.empty). reflexivity.
  - apply (handleMasking_leaves Demo.decodeImage Demo.drawImage Demo.drawImage
             Demo.failedResponse Demo.withPhoto). discriminate.
Defined.

Lemma imageLoaded_canvas_size_witness :
  cwidth (mainCanvas Demo.withPhoto) = 1 /\ cheight (mainCanvas Demo.withPhoto) = 1.
Proof.
  destruct (imageLoaded_canvas_size Demo.imgWidth Demo.imgHeight Demo.drawImage
              Demo.photo (setCurrentFile Demo.photo Demo.empty))
    as [Hw Hh]; [vm_compute; split; [discriminate|reflexivity]..|].
  split; [exact Hw|]. apply Hh. discriminate.
Defined.

Lemma applyColor_errors_witness :
  maskAligned noPixels
  /\ snd (applyColor Demo.drawImage noPixels)
     = Some (DOMException "IndexSizeError"
               "Failed to execute 'getImageData' on 'CanvasRenderingContext2D': The source width is 0.")
  /\ (cwidth (mainCanvas noPixels) = 0 \/ cheight (mainCanvas noPixels) = 0).
Proof.
  assert (Ha : maskAligned noPixels) by (repeat split).
  assert (He : snd (applyColor Demo.drawImage noPixels)
               = Some (DOMException "IndexSizeError"
                         "Failed to execute 'getImageData' on 'CanvasRenderingContext2D': The source width is 0."))
    by reflexivity.
  split; [exact Ha|]. split; [exact He|].
  exact (proj2 (applyColor_errors Demo.drawImage noPixels _ Ha He)).
Defined.

(** ** The whole buffer *)

(** X23: the recolouring keeps the length of the pixel buffer, whatever
    the mask and its length. *)
Theorem recolor_keeps_length (hex : string) (maskData data : list byte) :
  length (recolor hex maskData data) = length data.
Proof.
  unfold recolor. destruct (targetHsl hex) as [[hT sT] lT]. apply loop_length.
Qed.

(** X24: under a mask that is transparent wherever it is defined, the
    recolouring returns the buffer as it was, byte for byte. *)
Theorem recolor_transparent_mask (hex : string) (maskData data : list byte) :
  (forall k, alphaAt maskData k = Some x00 \/ alphaAt maskData k = None) ->
  recolor hex maskData data = data.
Proof.
  intros Hmask. unfold recolor. destruct (targetHsl hex) as [[hT sT] lT].
  apply list_eq. intros j. rewrite loop_lookup_all.
  rewrite body_skip; [reflexivity|].
  destruct (Hmask (j / 4)%nat) as [-> | ->]; [|exact I].
  by vm_compute.
Qed.

Lemma recolor_transparent_mask_witness :
  recolor "#336699" [xff; xff; xff; x00] [x0a; x14; x1e; xff; x28; x32; x3c; xff]
  = [x0a; x14; x1e; xff; x28; x32; x3c; xff].
Proof.
  apply recolor_transparent_mask.
  intros [|k]; [left; reflexivity|right].
  unfold alphaAt. apply lookup_ge_None_2. simpl. lia.
Defined.

(** ** The lightness a recolouring keeps *)

Section Lightness.

Local Open Scope R_scope.

(** The tolerance on a hue near the end of a ramp, and on the channel
    that comes out. *)
Local Notation "'tau'" := (/ 1000000).
Local Notation "'sigma'" := (/ 100000).

Ltac cmp_cases x y Fx Fy H :=
  destruct (x <? y)%float eqn:H;
  [apply (proj1 (ltb_FV x y Fx Fy)) in H
  |apply (ltb_false_FV x y Fx Fy) in H].

Lemma hue2rgb_split (p q t : float) : hue2rgb p q t = hueRamp p q (hueNorm t).
Proof. reflexivity. Qed.

(** The hue after [if (t < 0) t += 1; if (t > 1) t -= 1]. *)
Lemma hueNorm_spec (t : float) :
  Ffin t -> - / 2 <= FV t <= 3 / 2 ->
  Ffin (hueNorm t)
  /\ - (3 * eps64) <= FV (hueNorm t) <= 1
  /\ ((FV t <= 1 /\ - (2 * eps64) <= FV (hueNorm t) - FV t <= 2 * eps64)
      \/ (FV t < 0 /\ - eps64 <= FV (hueNorm t) - (FV t + 1) <= eps64)
      \/ (1 < FV t /\ - eps64 <= FV (hueNorm t) - (FV t - 1) <= eps64)).
Proof.
  intros Ft Ht. destruct FV_0 as [F0 V0]. destruct FV_1 as [F1 V1].
  unfold hueNorm.
  cmp_cases t 0%float Ft F0 Hb; rewrite V0 in Hb.
  - destruct (Fadd_bound t 1 Ft F1) as [Fa Va]; [rewrite V1; lra|].
    rewrite V1 in Va.
    cmp_cases 1%float (t + 1)%float F1 Fa Hb'; rewrite V1 in Hb'.
    + destruct (Fsub_bound (t + 1) 1 Fa F1) as [Fs Vs]; [rewrite V1; unfold eps64 in *; lra|].
      rewrite V1 in Vs. unfold eps64 in *.
      split; [exact Fs|]. split; [lra|]. left. lra.
    + unfold eps64 in *. split; [exact Fa|]. split; [lra|]. right. left. lra.
  - cmp_cases 1%float t F1 Ft Hb'; rewrite V1 in Hb'.
    + destruct (Fsub_bound t 1 Ft F1) as [Fs Vs]; [rewrite V1; lra|].
      rewrite V1 in Vs. unfold eps64 in *.
      split; [exact Fs|]. split; [lra|]. right. right. lra.
    + unfold eps64. split; [exact Ft|]. split; [lra|]. left. lra.
Qed.

(** The ramp stays between [p] and [q], is at [q] for a hue between
    1/6 and 1/2, and at [p] for a hue at 0 or from 2/3 on. *)
Lemma hueRamp_tight (p q t : float) :
  Ffin p -> Ffin q -> Ffin t ->
  - slack_in <= FV p -> FV p <= FV q + slack_in -> FV q <= 1 + slack_in ->
  - (3 * eps64) <= FV t <= 1 ->
  Ffin (hueRamp p q t)
  /\ FV p - sigma <= FV (hueRamp p q t) <= FV q + sigma
  /\ (/ 6 - tau <= FV t <= / 2 + tau -> FV q - sigma <= FV (hueRamp p q t))
  /\ (FV t <= tau \/ 2 / 3 - tau <= FV t -> FV (hueRamp p q t) <= FV p + sigma).
Proof.
  intros Fp Fq Ft Hp Hpq Hq Ht.
  destruct FV_6 as [F6 V6].
  destruct FV_1_6 as [F16 V16]. destruct FV_1_2 as [F12 V12].
  destruct FV_2_3 as [F23 V23].
  unfold slack_in in *. unfold eps64 in Ht.
  unfold hueRamp.
  destruct (Fsub_bound q p Fq Fp) as [Fd Vd]; [lra|]. unfold eps64 in Vd.
  set (P := FV p) in *. set (Q := FV q) in *. set (T := FV t) in *.
  set (D := FV (q - p)) in *.
  cmp_cases t (1 / 6)%float Ft F16 Hb1.
  - (* p + (q - p) * 6 * t *)
    fold T in Hb1. rewrite V16 in Hb1.
    destruct (Fmul_bound (q - p) 6 Fd F6) as [Fd6 Vd6]; [rewrite V6; fold D; lra|].
    unfold eps64 in Vd6. rewrite V6 in Vd6. fold D in Vd6.
    set (D6 := FV ((q - p) * 6)) in *.
    assert (HD6 : - / 100000000 <= D6 <= 7) by lra.
    assert (Hprod : - / 10000000 <= D6 * T <= 2) by (split; nra).
    destruct (Fmul_bound ((q - p) * 6) t Fd6 Ft) as [Fx Vx]; [fold D6 T; lra|].
    unfold eps64 in Vx. fold D6 T in Vx.
    set (X := FV ((q - p) * 6 * t)) in *.
    destruct (Fadd_bound p ((q - p) * 6 * t) Fp Fx) as [Fr Vr]; [fold P X; lra|].
    unfold eps64 in Vr. fold P X in Vr.
    set (C := FV (p + (q - p) * 6 * t)) in *.
    split; [exact Fr|].
    assert (Hup : D6 * T <= (Q - P) + / 1000000000) by nra.
    split; [lra|]. split.
    + intros [Hlo _].
      assert (Q - P - / 125000 <= D6 * T) by nra.
      lra.
    + intros [Hlow|Hhigh]; [|lra].
      assert (D6 * T <= / 125000) by nra.
      lra.
  - fold T in Hb1. rewrite V16 in Hb1.
    cmp_cases t (1 / 2)%float Ft F12 Hb2.
    + (* q *)
      fold T in Hb2. rewrite V12 in Hb2.
      split; [exact Fq|]. fold Q. split; [lra|]. split; [lra|].
      intros [?|?]; lra.
    + fold T in Hb2. rewrite V12 in Hb2.
      cmp_cases t (2 / 3)%float Ft F23 Hb3.
      * (* p + (q - p) * (2/3 - t) * 6 *)
        fold T in Hb3. rewrite V23 in Hb3.
        destruct (Fsub_bound (2 / 3) t F23 Ft) as [Fu Vu]; [rewrite V23; fold T; lra|].
        unfold eps64 in Vu. rewrite V23 in Vu. fold T in Vu.
        set (U := FV (2 / 3 - t)) in *.
        assert (HU : - / 100000000 <= U <= / 6 + / 100000000) by lra.
        assert (Hprod : - / 10000000 <= D * U <= 1) by (split; nra).
        destruct (Fmul_bound (q - p) (2 / 3 - t) Fd Fu) as [Fy Vy]; [fold D U; lra|].
        unfold eps64 in Vy. fold D U in Vy.
        set (Y := FV ((q - p) * (2 / 3 - t))) in *.
        destruct (Fmul_bound ((q - p) * (2 / 3 - t)) 6 Fy F6) as [Fz Vz];
          [rewrite V6; fold Y; lra|].
        unfold eps64 in Vz. rewrite V6 in Vz. fold Y in Vz.
        set (Z := FV ((q - p) * (2 / 3 - t) * 6)) in *.
        destruct (Fadd_bound p ((q - p) * (2 / 3 - t) * 6) Fp Fz) as [Fr Vr];
          [fold P Z; lra|].
        unfold eps64 in Vr. fold P Z in Vr.
        split; [exact Fr|].
        assert (Hup : 6 * (D * U) <= (Q - P) + / 10000000) by nra.
        split; [lra|]. split.
        -- intros [_ Hhi].
           assert (Q - P - / 125000 <= 6 * (D * U)) by nra.
           lra.
        -- intros [Hlow|Hhigh]; [lra|].
           assert (6 * (D * U) <= / 125000) by nra.
           lra.
      * (* p *)
        fold T in Hb3. rewrite V23 in Hb3.
        split; [exact Fp|]. fold P. split; [lra|]. split; [intros ?; lra|].
        intros _. lra.
Qed.

(** The three channels of [hslToRgb] before rounding lie between two
    reals [P <= Q] that add up to twice the lightness; one channel is
    at [Q] and one at [P]. *)
Lemma hslChannels_tight (h s l : float) :
  Ffin h -> Ffin s -> Ffin l ->
  0 <= FV h <= 1 -> 0 <= FV s <= 1 -> 0 <= FV l <= 1 ->
  let '(r, g, b) := hslChannels h s l in
  exists P Q : R,
    - / 1000000 <= P + Q - 2 * FV l <= / 1000000
    /\ (Ffin r /\ P - sigma <= FV r <= Q + sigma)
    /\ (Ffin g /\ P - sigma <= FV g <= Q + sigma)
    /\ (Ffin b /\ P - sigma <= FV b <= Q + sigma)
    /\ (Q - sigma <= FV r \/ Q - sigma <= FV g \/ Q - sigma <= FV b)
    /\ (FV r <= P + sigma \/ FV g <= P + sigma \/ FV b <= P + sigma).
Proof.
  intros Fh Fs Fl Hh Hs Hl.
  destruct FV_0 as [F0 V0]. destruct FV_1 as [F1 V1]. destruct FV_2 as [F2 V2].
  destruct FV_half as [F05 V05]. destruct FV_1_3 as [F13 V13].
  unfold hslChannels.
  destruct (s =? 0)%float.
  { exists (FV l), (FV l). repeat split; try assumption; try lra; left; lra. }
  set (q := if (l <? 0.5)%float then (l * (1 + s))%float
            else (l + s - l * s)%float).
  assert (Hq : Ffin q
               /\ FV l - 5 * eps64 <= FV q
               /\ FV q <= 2 * FV l + 5 * eps64
               /\ FV q <= 1 + 5 * eps64).
  { subst q. cmp_cases l 0.5%float Fl F05 Hb.
    - destruct (Fadd_bound 1 s F1 Fs) as [Fa Va]; [rewrite V1; lra|].
      rewrite V1 in Va. unfold eps64 in *.
      assert (FV l * (1 - / 549755813888) <= FV l * FV (1 + s)) by nra.
      assert (FV l * FV (1 + s) <= FV l * (2 + / 549755813888)) by nra.
      destruct (Fmul_bound l (1 + s) Fl Fa) as [Fq Vq]; [lra|].
      unfold eps64 in *. repeat split; try assumption; lra.
    - destruct (Fadd_bound l s Fl Fs) as [Fb Vb]; [lra|].
      assert (0 <= FV l * FV s) by nra.
      assert (FV l * FV s <= FV s) by nra.
      assert (FV l + FV s - FV l * FV s <= 1) by nra.
      destruct (Fmul_bound l s Fl Fs) as [Fc Vc]; [lra|].
      unfold eps64 in *.
      destruct (Fsub_bound (l + s) (l * s) Fb Fc) as [Fq Vq]; [lra|].
      unfold eps64 in *. repeat split; try assumption; lra. }
  clearbody q. destruct Hq as (Fq & Hq1 & Hq2 & Hq3).
  destruct (Fmul_bound 2 l F2 Fl) as [Fl2 Vl2]; [rewrite V2; lra|].
  rewrite V2 in Vl2.
  destruct (Fsub_bound (2 * l) q Fl2 Fq) as [Fp Vp]; [unfold eps64 in *; lra|].
  unfold eps64 in *.
  set (p := (2 * l - q)%float) in *.
  destruct (Fadd_bound h (1 / 3) Fh F13) as [Ft1 Vt1]; [lra|].
  destruct (Fsub_bound h (1 / 3) Fh F13) as [Ft3 Vt3]; [lra|].
  unfold eps64 in *. rewrite V13 in Vt1, Vt3.
  rewrite !hue2rgb_split.
  destruct (hueNorm_spec (h + 1 / 3) Ft1) as (Fn1 & Rn1 & Dn1); [lra|].
  destruct (hueNorm_spec h Fh) as (Fn2 & Rn2 & Dn2); [lra|].
  destruct (hueNorm_spec (h - 1 / 3) Ft3) as (Fn3 & Rn3 & Dn3); [lra|].
  destruct (hueRamp_tight p q (hueNorm (h + 1 / 3)) Fp Fq Fn1)
    as (Fr & Br & Hr & Lr); try (unfold slack_in; lra).
  destruct (hueRamp_tight p q (hueNorm h) Fp Fq Fn2)
    as (Fg & Bg & Hg & Lg); try (unfold slack_in; lra).
  destruct (hueRamp_tight p q (hueNorm (h - 1 / 3)) Fp Fq Fn3)
    as (Fb & Bb & Hb & Lb); try (unfold slack_in; lra).
  unfold eps64 in *.
  exists (FV p), (FV q).
  split; [clear - Vp Vl2; lra|].
  split; [by split|]. split; [by split|]. split; [by split|].
  clear Br Bg Bb Fr Fg Fb Vp Vl2 Hq1 Hq2 Hq3 Rn1 Rn2 Rn3 Hs Hl.
  split.
  - (* a channel at q *)
    clear Lr Lg Lb.
    destruct (Rle_or_lt (FV h) (/ 6)) as [H1|H1].
    { left. apply Hr. clear - Dn1 Vt1 H1 Hh.
      destruct Dn1 as [[? ?]|[[? ?]|[? ?]]]; lra. }
    destruct (Rle_or_lt (FV h) (/ 2)) as [H2|H2].
    { right. left. apply Hg. clear - Dn2 H1 H2.
      destruct Dn2 as [[? ?]|[[? ?]|[? ?]]]; lra. }
    destruct (Rle_or_lt (FV h) (5 / 6)) as [H3|H3].
    { right. right. apply Hb. clear - Dn3 Vt3 H2 H3.
      destruct Dn3 as [[? ?]|[[? ?]|[? ?]]]; lra. }
    left. apply Hr. clear - Dn1 Vt1 H3 Hh.
    destruct Dn1 as [[? ?]|[[? ?]|[? ?]]]; lra.
  - (* a channel at p *)
    clear Hr Hg Hb.
    destruct (Rle_or_lt (FV h) (/ 3)) as [H1|H1].
    { right. right. apply Lb. clear - Dn3 Vt3 H1 Hh.
      destruct Dn3 as [[? ?]|[[? ?]|[? ?]]]; [left|right|left]; lra. }
    destruct (Rle_or_lt (FV h) (2 / 3)) as [H2|H2].
    { left. apply Lr. clear - Dn1 Vt1 H1 H2.
      destruct Dn1 as [[? ?]|[[? ?]|[? ?]]]; [right|right|left]; lra. }
    right. left. apply Lg. clear - Dn2 H2 Hh.
    destruct Dn2 as [[? ?]|[[? ?]|[? ?]]]; [right|right|left]; lra.
Qed.

Lemma max3_bounds (a b c : Z) (lo hi : R) :
  IZR a <= hi -> IZR b <= hi -> IZR c <= hi ->
  lo <= IZR a \/ lo <= IZR b \/ lo <= IZR c ->
  lo <= IZR (max3 a b c) <= hi.
Proof.
  intros Ha Hb Hc Hlo. unfold max3.
  assert (Hle : (a <= Z.max (Z.max a b) c /\ b <= Z.max (Z.max a b) c
                 /\ c <= Z.max (Z.max a b) c)%Z) by lia.
  destruct Hle as (La & Lb & Lc). apply IZR_le in La, Lb, Lc.
  assert (Hin : Z.max (Z.max a b) c = a \/ Z.max (Z.max a b) c = b
                \/ Z.max (Z.max a b) c = c) by lia.
  split.
  - destruct Hlo as [?|[?|?]]; lra.
  - destruct Hin as [->|[->| ->]]; assumption.
Qed.

Lemma min3_bounds (a b c : Z) (lo hi : R) :
  lo <= IZR a -> lo <= IZR b -> lo <= IZR c ->
  IZR a <= hi \/ IZR b <= hi \/ IZR c <= hi ->
  lo <= IZR (min3 a b c) <= hi.
Proof.
  intros Ha Hb Hc Hhi. unfold min3.
  assert (Hle : (Z.min (Z.min a b) c <= a /\ Z.min (Z.min a b) c <= b
                 /\ Z.min (Z.min a b) c <= c)%Z) by lia.
  destruct Hle as (La & Lb & Lc). apply IZR_le in La, Lb, Lc.
  assert (Hin : Z.min (Z.min a b) c = a \/ Z.min (Z.min a b) c = b
                \/ Z.min (Z.min a b) c = c) by lia.
  split.
  - destruct Hin as [->|[->| ->]]; assumption.
  - destruct Hhi as [?|[?|?]]; lra.
Qed.

(** The byte a channel rounds to is within a half of the channel
    times 255. *)
Lemma channel_round_near (c : float) :
  Ffin c -> - slack_out <= FV c <= 1 + slack_out ->
  exists n : Z,
    (0 <= n <= 255)%Z
    /\ (Js.Math_round (c * 255) = Js.ofZ n
        \/ (n = 0%Z /\ Js.Math_round (c * 255) = neg_zero))
    /\ - (/ 2 + / 1000000) <= IZR n - 255 * FV c <= / 2 + / 1000000.
Proof.
  intros Fc Hc. destruct FV_255 as [F255 V255]. unfold slack_out in Hc.
  destruct (Fmul_bound c 255 Fc F255) as [Fx Vx]; [rewrite V255; lra|].
  rewrite V255 in Vx. unfold eps64 in Vx.
  destruct (nearest_byte (FV (c * 255))) as (n & Hn & Hnear); [lra|].
  exists n. split; [exact Hn|]. split; [|lra].
  destruct (Math_round_near (c * 255) n Fx Hn Hnear) as [E|(E0 & _ & E)];
    [by left|by right].
Qed.

(** The bytes of [hslToRgb]: the largest and the smallest add up to
    510 times the lightness, within 1 and a little. *)
Lemma hslToRgb_light (h s l : float) :
  in_unit h = true -> in_unit s = true -> in_unit l = true ->
  exists nR nG nB : Z,
    ((0 <= nR <= 255)%Z /\ (0 <= nG <= 255)%Z /\ (0 <= nB <= 255)%Z)
    /\ (let '(newR, newG, newB) := hslToRgb h s l in
        (newR = Js.ofZ nR \/ (nR = 0%Z /\ newR = neg_zero))
        /\ (newG = Js.ofZ nG \/ (nG = 0%Z /\ newG = neg_zero))
        /\ (newB = Js.ofZ nB \/ (nB = 0%Z /\ newB = neg_zero)))
    /\ - (1 + / 100) <= IZR (max3 nR nG nB + min3 nR nG nB) - 510 * FV l
       <= 1 + / 100.
Proof.
  intros Hh Hs Hl.
  apply in_unit_spec in Hh as [Fh Vh]. apply in_unit_spec in Hs as [Fs Vs].
  apply in_unit_spec in Hl as [Fl Vl].
  pose proof (hslChannels_bound h s l Fh Fs Fl Vh Vs Vl) as Hc.
  pose proof (hslChannels_tight h s l Fh Fs Fl Vh Vs Vl) as Ht.
  unfold hslToRgb. destruct (hslChannels h s l) as [[cr cg] cb].
  destruct Hc as ((Fr & Vr) & (Fg & Vg) & (Fb & Vb)).
  destruct Ht as (P & Q & HPQ & (_ & Br) & (_ & Bg) & (_ & Bb) & Hhigh & Hlow).
  destruct (channel_round_near cr Fr Vr) as (nR & HnR & ER & NR).
  destruct (channel_round_near cg Fg Vg) as (nG & HnG & EG & NG).
  destruct (channel_round_near cb Fb Vb) as (nB & HnB & EB & NB).
  exists nR, nG, nB. split; [repeat split; lia|].
  split; [repeat split; assumption|].
  clear ER EG EB Vr Vg Vb Fr Fg Fb HnR HnG HnB Fh Fs Fl Vh Vs.
  destruct (max3_bounds nR nG nB (255 * Q - / 2 - / 250) (255 * Q + / 2 + / 250))
    as [Mlo Mhi]; try lra.
  destruct (min3_bounds nR nG nB (255 * P - / 2 - / 250) (255 * P + / 2 + / 250))
    as [mlo mhi]; try lra.
  rewrite plus_IZR. lra.
Qed.

Lemma maxmin_checked : forallb2 maxmin_ok bytesZ = true.
Proof. vm_compute. reflexivity. Qed.

Lemma ends_checked : forallb ends_ok bytesZ = true.
Proof. vm_compute. reflexivity. Qed.

Lemma light_checked : forallb2 light_ok bytesZ = true.
Proof. vm_compute. reflexivity. Qed.

Lemma max_step_bytes (a b : Z) :
  (0 <= a <= 255)%Z -> (0 <= b <= 255)%Z ->
  Js.max_step (unit255 a) (unit255 b) = unit255 (Z.max a b)
  /\ Js.min_step (unit255 a) (unit255 b) = unit255 (Z.min a b).
Proof.
  intros Ha Hb.
  pose proof (forallb2_spec maxmin_ok bytesZ maxmin_checked a b
                (In_bytesZ _ Ha) (In_bytesZ _ Hb)) as H.
  unfold maxmin_ok in H. apply andb_prop in H as [H1 H2].
  apply FloatAxioms.Leibniz.eqb_spec in H1, H2. by split.
Qed.

Lemma step_ends (a : Z) :
  (0 <= a <= 255)%Z ->
  Js.max_step neg_infinity (unit255 a) = unit255 a
  /\ Js.min_step infinity (unit255 a) = unit255 a
  /\ is_nan (unit255 a) = false.
Proof.
  intros Ha. pose proof ends_checked as H. rewrite forallb_forall in H.
  specialize (H a (In_bytesZ _ Ha)). unfold ends_ok in H.
  apply andb_prop in H as [H H3]. apply andb_prop in H as [H1 H2].
  apply FloatAxioms.Leibniz.eqb_spec in H1, H2. apply negb_true_iff in H3.
  by repeat split.
Qed.

(** [Math.max] and [Math.min] of the three channels of a pixel. *)
Lemma Math_max_min_bytes (r g b : Z) :
  (0 <= r <= 255)%Z -> (0 <= g <= 255)%Z -> (0 <= b <= 255)%Z ->
  Js.Math_max [unit255 r; unit255 g; unit255 b] = unit255 (max3 r g b)
  /\ Js.Math_min [unit255 r; unit255 g; unit255 b] = unit255 (min3 r g b).
Proof.
  intros Hr Hg Hb.
  destruct (step_ends r Hr) as (Er1 & Er2 & Nr).
  destruct (step_ends g Hg) as (_ & _ & Ng).
  destruct (step_ends b Hb) as (_ & _ & Nb).
  destruct (max_step_bytes r g Hr Hg) as [M1 m1].
  destruct (max_step_bytes (Z.max r g) b ltac:(lia) Hb) as [M2 _].
  destruct (max_step_bytes (Z.min r g) b ltac:(lia) Hb) as [_ m2].
  unfold Js.Math_max, Js.Math_min, max3, min3.
  cbn [existsb fold_left]. rewrite Nr, Ng, Nb. cbn [orb].
  rewrite Er1, Er2, M1, m1, M2, m2. by split.
Qed.

(** The lightness [rgbToHsl] gives a pixel: half the sum of its
    largest and smallest channels, over 255. *)
Lemma rgbToHsl_lightness (r g b : Z) :
  (0 <= r <= 255)%Z -> (0 <= g <= 255)%Z -> (0 <= b <= 255)%Z ->
  let '(_, _, l) := rgbToHsl (Js.ofZ r) (Js.ofZ g) (Js.ofZ b) in
  in_unit l = true
  /\ - / 500000 <= 510 * FV l - IZR (max3 r g b + min3 r g b) <= / 500000.
Proof.
  intros Hr Hg Hb.
  destruct (Math_max_min_bytes r g b Hr Hg Hb) as [EM Em].
  assert (HM : (0 <= max3 r g b <= 255)%Z) by (unfold max3; lia).
  assert (Hm : (0 <= min3 r g b <= 255)%Z) by (unfold min3; lia).
  pose proof (forallb2_spec light_ok bytesZ light_checked _ _
                (In_bytesZ _ HM) (In_bytesZ _ Hm)) as H.
  unfold light_ok in H. cbv zeta in H.
  assert (El : (let '(_, _, l) := rgbToHsl (Js.ofZ r) (Js.ofZ g) (Js.ofZ b) in l)
               = ((unit255 (max3 r g b) + unit255 (min3 r g b)) / 2)%float).
  { unfold rgbToHsl. fold (unit255 r) (unit255 g) (unit255 b).
    rewrite EM, Em. by destruct (_ =? _)%float. }
  destruct (rgbToHsl (Js.ofZ r) (Js.ofZ g) (Js.ofZ b)) as [[h s] l].
  subst l. set (l := ((unit255 (max3 r g b) + unit255 (min3 r g b)) / 2)%float) in *.
  apply andb_prop in H as [H Hhi]. apply andb_prop in H as [Hu Hlo].
  split; [exact Hu|].
  apply in_unit_spec in Hu as [Fl Vl].
  assert (H53 : (510 < 2 ^ 53)%Z) by (vm_compute; reflexivity).
  destruct (FV_ofZ 510) as [F510 V510]; [lia|].
  destruct (FV_ofZ (max3 r g b + min3 r g b)) as [Fs Vs]; [lia|].
  assert (HS : 0 <= IZR (max3 r g b + min3 r g b) <= 510)
    by (split; apply IZR_le; lia).
  destruct (Fmul_bound l (Js.ofZ 510) Fl F510) as [Fx Vx]; [rewrite V510; lra|].
  rewrite V510 in Vx. unfold eps64 in Vx.
  destruct (Fsub_bound _ _ Fx Fs) as [Fd Vd]; [rewrite Vs; lra|].
  rewrite Vs in Vd. unfold eps64 in Vd.
  assert (Ft : Ffin tiny /\ FV tiny = / 1048576).
  { unfold Ffin, FV.
    replace (Prim2SF tiny) with (S754_finite false 4503599627370496 (-72))
      by (vm_compute; reflexivity).
    split; [reflexivity|].
    cbn [SF2R cond_Zopp]. change (pow2 (-72)) with (/ 4722366482869645213696). lra. }
  assert (Fmt : Ffin minus_tiny /\ FV minus_tiny = - / 1048576).
  { unfold Ffin, FV.
    replace (Prim2SF minus_tiny) with (S754_finite true 4503599627370496 (-72))
      by (vm_compute; reflexivity).
    split; [reflexivity|].
    rewrite SF2R_finite. change (pow2 (-72)) with (/ 4722366482869645213696). lra. }
  destruct Ft as [Ft Vt]. destruct Fmt as [Fmt Vmt].
  apply (proj1 (leb_FV _ _ Fmt Fd)) in Hlo. apply (proj1 (leb_FV _ _ Fd Ft)) in Hhi.
  rewrite Vmt in Hlo. rewrite Vt in Hhi. lra.
Qed.

End Lightness.

(** X25: a recolouring keeps the lightness of what it paints: at a
    pixel under mask alpha 255, whatever the colour picked, the sum of
    the largest and the smallest channel of the output pixel (510 times
    its lightness) differs from that of the source pixel by at most 1;
    the alpha of the pixel stays. *)
Theorem recolor_keeps_lightness (hex : string) (maskData data : list byte) (k : nat)
    (r g b a : byte) :
  alphaAt maskData k = Some xff ->
  pixelAt data k = Some (r, g, b, a) ->
  exists r' g' b' : byte,
    pixelAt (recolor hex maskData data) k = Some (r', g', b', a)
    /\ Z.abs ((max3 (Z_of_byte r') (Z_of_byte g') (Z_of_byte b')
               + min3 (Z_of_byte r') (Z_of_byte g') (Z_of_byte b'))
              - (max3 (Z_of_byte r) (Z_of_byte g) (Z_of_byte b)
                 + min3 (Z_of_byte r) (Z_of_byte g) (Z_of_byte b))) <= 1.
Proof.
  intros Hm Hp.
  pose proof (targetHsl_unit hex) as HT.
  destruct (targetHsl hex) as [[hT sT] lT] eqn:ET. destruct HT as [HhT HsT].
  pose proof (rgbToHsl_lightness _ _ _ (Z_of_byte_range r) (Z_of_byte_range g)
                (Z_of_byte_range b)) as Hsrc.
  fold (numOfByte r) (numOfByte g) (numOfByte b) in Hsrc.
  destruct (rgbToHsl (numOfByte r) (numOfByte g) (numOfByte b))
    as [[h s] l] eqn:Ehsl.
  destruct Hsrc as [Hl Hsrc].
  destruct (hslToRgb_light hT sT l HhT HsT Hl) as (nR & nG & nB & Hn & Hnew & Hout).
  destruct (hslToRgb hT sT l) as [[newR newG] newB] eqn:Ergb.
  destruct Hn as (HnR & HnG & HnB). destruct Hnew as (ER & EG & EB).
  destruct (recolor_cases hex maskData data k r g b a hT sT lT h s l
              newR newG newB Hp ET Ehsl Ergb) as [[Hno _]|(m & Hm' & _ & E)].
  { rewrite Hm in Hno. discriminate Hno. }
  rewrite Hm in Hm'. injection Hm' as <-.
  destruct (store_full_blend r newR nR HnR ER) as [_ Sr].
  destruct (store_full_blend g newG nG HnG EG) as [_ Sg].
  destruct (store_full_blend b newB nB HnB EB) as [_ Sb].
  cbv zeta in Sr, Sg, Sb.
  change (Js.ofZ 255) with (numOfByte xff) in Sr, Sg, Sb.
  exists (byte_of_Z nR), (byte_of_Z nG), (byte_of_Z nB).
  rewrite E, Sr, Sg, Sb. split; [reflexivity|].
  rewrite !Z_of_byte_of_Z by assumption.
  set (out := max3 nR nG nB + min3 nR nG nB) in *.
  set (src := max3 (Z_of_byte r) (Z_of_byte g) (Z_of_byte b)
              + min3 (Z_of_byte r) (Z_of_byte g) (Z_of_byte b)) in *.
  assert (Hlt : (IZR (out - src) < IZR 2)%R) by (rewrite minus_IZR; lra).
  assert (Hgt : (IZR (-2) < IZR (out - src))%R) by (rewrite minus_IZR; lra).
  apply lt_IZR in Hlt, Hgt. lia.
Qed.

Lemma recolor_keeps_lightness_witness :
  exists r' g' b' : byte,
    pixelAt (recolor "#336699" [x00; x00; x00; xff] [x0a; x14; x1e; x80]) 0
    = Some (r', g', b', x80)
    /\ Z.abs ((max3 (Z_of_byte r') (Z_of_byte g') (Z_of_byte b')
               + min3 (Z_of_byte r') (Z_of_byte g') (Z_of_byte b'))
              - (max3 10 20 30 + min3 10 20 30)) <= 1.
Proof.
  exact (recolor_keeps_lightness "#336699" [x00; x00; x00; xff]
           [x0a; x14; x1e; x80] 0 x0a x14 x1e x80 eq_refl eq_refl).
Defined.
